(** * Gitgres: a shallow embedding of the storage core

    The development follows the C sources of the repository:
    - [ext/git_oid.c]      the [git_oid] type: hex input and output;
    - [ext/object_hash.c]  [git_object_hash_c], the canonical object hash;
    - [ext/tree_parse.c]   [git_tree_entries_c], the tree entry parser;
    - [backend/odb_postgres.c], [backend/refdb_postgres.c] the libgit2
      backends over libpq;
    - [backend/remote_helper.c] the [list] command of the remote helper;
    - [sql/schema.sql], [sql/functions/*.sql] the tables and the SQL
      functions the tests exercise.

    C [char] data is a [list byte]; C [int] values are [Z] with the
    conversions written out; the PostgreSQL tables are finite maps keyed
    by their primary key. *)

From Stdlib Require Import ZArith List Lia Bool.
From Stdlib Require Import Strings.Byte Strings.String Strings.Ascii.
From stdpp Require Import base option list gmap fin_maps sorting.

Import ListNotations.
#[local] Open Scope Z_scope.

(** ** Bytes, C strings and C integers *)

Abbreviation bytes := (list byte).

(** A string literal of the source, as the bytes before its terminator. *)
Definition bs (s : string) : bytes := list_byte_of_string s.

(** The value of a [char] read as [unsigned char]. *)
Definition uchar (b : byte) : Z := Z.of_N (Byte.to_N b).

(** The value of a plain [char] promoted to [int]: [char] is signed on the
    platforms PostgreSQL is built for here, so bytes from 128 on are
    negative. *)
Definition schar (b : byte) : Z :=
  if uchar b <? 128 then uchar b else uchar b - 256.

(** Storing an [int] into a [char] keeps its low eight bits. *)
Definition to_char (z : Z) : byte :=
  match Byte.of_N (Z.to_N (z mod 256)) with
  | Some b => b
  | None => x00
  end.

(** Conversion to a 32-bit [int] (two's complement wrap-around). *)
Definition INT_MAX : Z := 2147483647.
Definition to_int (z : Z) : Z := (z + 2 ^ 31) mod 2 ^ 32 - 2 ^ 31.

(** [strlen]: the number of bytes before the first NUL; the end of the list
    stands for the terminator of a string that holds no NUL. *)
Fixpoint strlen (s : bytes) : nat :=
  match s with
  | [] => O
  | c :: s' => if Byte.eqb c x00 then O else S (strlen s')
  end.

(** [s[i]] for an index up to the terminator. *)
Definition char_at (s : bytes) (i : nat) : byte := nth i s x00.

(** The bytes of a NUL-terminated string: what [strlen] counts. *)
Definition cstr (s : bytes) : bytes := firstn (strlen s) s.

(** ** Errors raised with [ereport(ERROR, ...)] *)

Inductive sqlstate :=
| ERRCODE_INVALID_TEXT_REPRESENTATION
| ERRCODE_INVALID_PARAMETER_VALUE
| ERRCODE_DATA_CORRUPTED
| ERRCODE_FEATURE_NOT_SUPPORTED
| ERRCODE_NOT_NULL_VIOLATION
| ERRCODE_FOREIGN_KEY_VIOLATION
| ERRCODE_CHECK_VIOLATION
| ERRCODE_UNIQUE_VIOLATION
| ERRCODE_CONNECTION_FAILURE
| ERRCODE_IN_FAILED_SQL_TRANSACTION.

Record pg_error := ereport { errcode : sqlstate; errmsg : string }.

Inductive result (A : Type) :=
| Ok (a : A)
| Error (e : pg_error).
Arguments Ok {A} a.
Arguments Error {A} e.

Definition is_ok {A} (r : result A) : bool :=
  match r with Ok _ => true | Error _ => false end.

Definition rbind {A B} (r : result A) (k : A -> result B) : result B :=
  match r with
  | Ok a => k a
  | Error e => Error e
  end.

(** ** ext/git_oid.c: the OID codec *)

Module GitOid.

(** [typedef struct { char data[20]; } GitOid;] *)
Definition GitOid := bytes.

Definition hex_to_nibble (c : byte) : Z :=
  if (48 <=? schar c) && (schar c <=? 57) then schar c - 48
  else if (97 <=? schar c) && (schar c <=? 102) then schar c - 97 + 10
  else if (65 <=? schar c) && (schar c <=? 70) then schar c - 65 + 10
  else -1.

Definition nibble_to_hex (n : Z) : byte :=
  nth (Z.to_nat (Z.land n 15)) (bs "0123456789abcdef") x00.

Definition invalid_length : pg_error :=
  ereport ERRCODE_INVALID_TEXT_REPRESENTATION
          "invalid git OID: must be exactly 40 hex characters".

Definition invalid_hex : pg_error :=
  ereport ERRCODE_INVALID_TEXT_REPRESENTATION
          "invalid hex character in git OID".

(** The body of [for (i = 0; i < 20; i++)] in [git_oid_in]: [is] holds the
    indices still to visit, [data] the bytes of [result->data] written so
    far. *)
Fixpoint git_oid_in_loop (str : bytes) (idx : list nat) (data : bytes)
  : result GitOid :=
  match idx with
  | [] => Ok data
  | i :: idx' =>
      let hi := hex_to_nibble (char_at str (i * 2)) in
      let lo := hex_to_nibble (char_at str (i * 2 + 1)) in
      if (hi <? 0) || (lo <? 0) then Error invalid_hex
      else git_oid_in_loop str idx'
             (data ++ [to_char (Z.lor (Z.shiftl hi 4) lo)])
  end.

Definition git_oid_in (str : bytes) : result GitOid :=
  let len := strlen str in
  if negb (Nat.eqb len 40) then Error invalid_length
  else git_oid_in_loop str (seq 0 20) [].

(** [git_oid_out]: two characters per byte of [oid->data]; the result is the
    40 characters before the terminator written at [result[40]]. *)
Definition git_oid_out (oid : GitOid) : bytes :=
  flat_map
    (fun i =>
       [ nibble_to_hex (Z.shiftr (uchar (nth i oid x00)) 4);
         nibble_to_hex (Z.land (schar (nth i oid x00)) 15) ])
    (seq 0 20).

(** The characters the spec allows in an OID, and those it prints. *)
Definition is_hex_digit (c : byte) : bool :=
  let v := uchar c in
  ((48 <=? v) && (v <=? 57)) || ((97 <=? v) && (v <=? 102))
  || ((65 <=? v) && (v <=? 70)).

Definition is_lower_hex_digit (c : byte) : bool :=
  let v := uchar c in
  ((48 <=? v) && (v <=? 57)) || ((97 <=? v) && (v <=? 102)).

(** ASCII case mapping, as [tolower] and [toupper] in the C locale. *)
Definition tolower (c : byte) : byte :=
  if (65 <=? uchar c) && (uchar c <=? 90) then to_char (uchar c + 32) else c.

Definition toupper (c : byte) : byte :=
  if (97 <=? uchar c) && (uchar c <=? 122) then to_char (uchar c - 32) else c.

(** What one iteration of the loop of [git_oid_in] tests and stores. *)
Definition pair_ok (str : bytes) (i : nat) : bool :=
  is_hex_digit (char_at str (i * 2)) && is_hex_digit (char_at str (i * 2 + 1)).

(** The OID of the blob [hello], in hex and as raw bytes. *)
Definition hello_hex : bytes := bs "b6fc4c620b67d95f953a5c1c1230aaab5db5a1b0".
Definition hello_oid : GitOid :=
  [ xb6; xfc; x4c; x62; x0b; x67; xd9; x5f; x95; x3a;
    x5c; x1c; x12; x30; xaa; xab; x5d; xb5; xa1; xb0 ].

Definition pair_byte (str : bytes) (i : nat) : byte :=
  to_char (Z.lor (Z.shiftl (hex_to_nibble (char_at str (i * 2))) 4)
                 (hex_to_nibble (char_at str (i * 2 + 1)))).

End GitOid.

(** ** SHA-1, as [EVP_sha1] computes it (FIPS 180-4)

    OpenSSL is linked, not part of the repository: the digest is embedded
    from the standard.  Words are 32-bit values in [Z]. *)

Module Sha1.

Definition mask32 (x : Z) : Z := x mod 2 ^ 32.
Definition add32 (x y : Z) : Z := mask32 (x + y).
Definition rotl (n x : Z) : Z :=
  Z.lor (mask32 (Z.shiftl x n)) (Z.shiftr x (32 - n)).
Definition not32 (x : Z) : Z := Z.lxor x 4294967295.

(** Big-endian conversions. *)
Definition word_of_bytes (b0 b1 b2 b3 : byte) : Z :=
  Z.lor (Z.shiftl (uchar b0) 24)
    (Z.lor (Z.shiftl (uchar b1) 16) (Z.lor (Z.shiftl (uchar b2) 8) (uchar b3))).

Definition bytes_of_word (w : Z) : bytes :=
  [ to_char (Z.shiftr w 24); to_char (Z.shiftr w 16);
    to_char (Z.shiftr w 8); to_char w ].

Definition bytes_of_len64 (n : Z) : bytes :=
  bytes_of_word (Z.shiftr n 32) ++ bytes_of_word (mask32 n).

(** Padding: a one bit, zero bits up to 56 modulo 64 bytes, and the message
    length in bits as a 64-bit big-endian number. *)
Definition pad (msg : bytes) : bytes :=
  let l := length msg in
  let k := ((119 - l mod 64) mod 64)%nat in
  msg ++ [x80] ++ repeat x00 k ++ bytes_of_len64 (8 * Z.of_nat l).

Fixpoint words (fuel : nat) (l : bytes) : list Z :=
  match fuel, l with
  | S fuel', b0 :: b1 :: b2 :: b3 :: rest =>
      word_of_bytes b0 b1 b2 b3 :: words fuel' rest
  | _, _ => []
  end.

Fixpoint blocks (fuel : nat) (ws : list Z) : list (list Z) :=
  match fuel, ws with
  | S fuel', _ :: _ => firstn 16 ws :: blocks fuel' (skipn 16 ws)
  | _, _ => []
  end.

(** The message schedule: 16 words of the block extended to 80. *)
Fixpoint schedule (n : nat) (w : list Z) : list Z :=
  match n with
  | O => w
  | S n' =>
      let t := length w in
      let x := Z.lxor (Z.lxor (nth (t - 3) w 0) (nth (t - 8) w 0))
                      (Z.lxor (nth (t - 14) w 0) (nth (t - 16) w 0)) in
      schedule n' (w ++ [rotl 1 x])
  end.

Definition f (t : nat) (b c d : Z) : Z :=
  if (t <? 20)%nat then Z.lor (Z.land b c) (Z.land (not32 b) d)
  else if (t <? 40)%nat then Z.lxor (Z.lxor b c) d
  else if (t <? 60)%nat
       then Z.lor (Z.lor (Z.land b c) (Z.land b d)) (Z.land c d)
  else Z.lxor (Z.lxor b c) d.

Definition K (t : nat) : Z :=
  if (t <? 20)%nat then 1518500249
  else if (t <? 40)%nat then 1859775393
  else if (t <? 60)%nat then 2400959708
  else 3395469782.

Record state := State { h0 : Z; h1 : Z; h2 : Z; h3 : Z; h4 : Z }.

Definition init : state :=
  State 1732584193 4023233417 2562383102 271733878 3285377520.

Definition round (st : state) (tw : nat * Z) : state :=
  let '(t, w) := tw in
  let '(State a b c d e) := st in
  let temp := add32 (add32 (add32 (add32 (rotl 5 a) (f t b c d)) e) (K t)) w in
  State temp a (rotl 30 b) c d.

Definition compress (h : state) (block : list Z) : state :=
  let w := schedule 64 block in
  let '(State a b c d e) := fold_left round (combine (seq 0 80) w) h in
  State (add32 (h0 h) a) (add32 (h1 h) b) (add32 (h2 h) c)
        (add32 (h3 h) d) (add32 (h4 h) e).

Definition digest_bytes (h : state) : bytes :=
  bytes_of_word (h0 h) ++ bytes_of_word (h1 h) ++ bytes_of_word (h2 h)
  ++ bytes_of_word (h3 h) ++ bytes_of_word (h4 h).

Definition SHA1 (msg : bytes) : bytes :=
  let p := pad msg in
  let ws := words (length p) p in
  digest_bytes (fold_left compress (blocks (length ws) ws) init).

End Sha1.

(** The incremental digest interface of OpenSSL: a context accumulates the
    bytes it was given, and the final call digests them. *)
Definition EVP_MD_CTX := bytes.
Definition EVP_DigestInit_ex : EVP_MD_CTX := [].
Definition EVP_DigestUpdate (ctx : EVP_MD_CTX) (data : bytes) (len : Z)
  : EVP_MD_CTX := ctx ++ firstn (Z.to_nat len) data.
Definition EVP_DigestFinal_ex (ctx : EVP_MD_CTX) : bytes := Sha1.SHA1 ctx.

(** ** printf's [%d] *)

(** The decimal digits of a natural number, most significant first. *)
Fixpoint dec_digits (fuel : nat) (n : Z) (acc : bytes) : bytes :=
  match fuel with
  | O => acc
  | S fuel' =>
      let acc' := to_char (48 + n mod 10) :: acc in
      if n / 10 =? 0 then acc' else dec_digits fuel' (n / 10) acc'
  end.

Definition decimal (n : Z) : bytes :=
  dec_digits (S (Z.to_nat (Z.log2 n))) n [].

Definition fmt_d (v : Z) : bytes :=
  if v <? 0 then bs "-" ++ decimal (- v) else decimal v.

(** The number a string of decimal digits denotes. *)
Definition dec_value (ds : bytes) : Z :=
  fold_left (fun acc c => 10 * acc + (uchar c - 48)) ds 0.

(** [snprintf(buf, size, "%s %d", s, d)]: the buffer holds at most
    [size - 1] characters and a terminator; the return value is the length
    of the untruncated output. *)
Definition snprintf_s_d (size : nat) (s : bytes) (d : Z) : bytes * Z :=
  let out := s ++ bs " " ++ fmt_d d in
  (firstn (size - 1) out ++ [x00], to_int (Z.of_nat (length out))).

(** ** ext/object_hash.c *)

Module ObjectHash.

Definition invalid_type (type : Z) : pg_error :=
  ereport ERRCODE_INVALID_PARAMETER_VALUE
          ("invalid git object type: " ++ string_of_list_byte (fmt_d type)).

(** The part of [git_object_hash_c] after the [switch] has chosen
    [type_name]. *)
Definition hash_with_type_name (type_name content : bytes) : result bytes :=
  let content_len := to_int (Z.of_nat (length content)) in
  let '(header, header_len) := snprintf_s_d 64 type_name content_len in
  let header_len := to_int (header_len + 1) in
  let ctx := EVP_DigestInit_ex in
  let ctx := EVP_DigestUpdate ctx header header_len in
  let ctx := EVP_DigestUpdate ctx content content_len in
  let hash := EVP_DigestFinal_ex ctx in
  Ok (firstn 20 hash).

(** [git_object_hash_c(type smallint, content bytea) RETURNS bytea]. *)
Definition git_object_hash_c (type : Z) (content : bytes) : result bytes :=
  rbind
    (match type with
     | 1 => Ok (bs "commit")
     | 2 => Ok (bs "tree")
     | 3 => Ok (bs "blob")
     | 4 => Ok (bs "tag")
     | _ => Error (invalid_type type)
     end)
    (fun type_name => hash_with_type_name type_name content).

(** The digest in hex, for comparison with [git hash-object]. *)
Definition hex_of (r : result bytes) : result bytes :=
  rbind r (fun h => Ok (GitOid.git_oid_out h)).

(** The pre-image Git hashes for an object: type name, a space, the decimal
    length, a NUL byte, the content. *)
Definition preimage (type_name : string) (content : bytes) : bytes :=
  bs type_name ++ bs " " ++ decimal (Z.of_nat (length content))
  ++ [x00] ++ content.

End ObjectHash.

(** ** ext/tree_parse.c: the tree entry parser *)

Module TreeParse.

(** [bytea] values are at most [MaxAllocSize] bytes long. *)
Definition MaxAllocSize : Z := 1073741823.

(** [memcpy(dst, data + off, n)]: the [n] bytes from offset [off]. *)
Definition sub (data : bytes) (off n : Z) : bytes :=
  firstn (Z.to_nat n) (skipn (Z.to_nat off) data).

(** [typedef struct { char *data; int len; int pos; } TreeParseState;]
    [len] is the length of [data], as the first call sets it. *)
Record TreeParseState := { data : bytes; pos : Z }.

Definition len (st : TreeParseState) : Z := to_int (Z.of_nat (length (data st))).

(** A row of the result: [(mode text, name text, entry_oid bytea)]. *)
Record tree_entry := { mode : bytes; name : bytes; entry_oid : bytes }.

Definition no_space : pg_error :=
  ereport ERRCODE_DATA_CORRUPTED "malformed tree entry: no space found".
Definition no_null : pg_error :=
  ereport ERRCODE_DATA_CORRUPTED
          "malformed tree entry: no null terminator found".
Definition truncated_oid : pg_error :=
  ereport ERRCODE_DATA_CORRUPTED "malformed tree entry: truncated OID".

(** [while (p < len && data[p] != c) p++;] with [l] the bytes from [p] to
    the end of [data]: the index stays below [len], so the increment does
    not overflow. *)
Fixpoint scan (c : byte) (l : bytes) (p : Z) : Z :=
  match l with
  | [] => p
  | b :: l' => if Byte.eqb b c then p else scan c l' (p + 1)
  end.

Definition find_from (c : byte) (data : bytes) (p : Z) : Z :=
  scan c (skipn (Z.to_nat p) data) p.

(** What one call returns: [SRF_RETURN_DONE], or [SRF_RETURN_NEXT] with a row
    and the state kept for the next call. *)
Inductive srf_step :=
| ReturnDone
| ReturnNext (row : tree_entry) (st : TreeParseState).

(** The bounds check before the OID is copied, as written in the source. *)
Definition oid_truncated (null_pos len : Z) : bool :=
  (to_int (null_pos + 20) >=? len) && (to_int (null_pos + 21) >? len).

(** One call of [git_tree_entries_c] after the first-call setup. *)
Definition tree_next (st : TreeParseState) : result srf_step :=
  if pos st <? len st then
    let space_pos := find_from x20 (data st) (pos st) in
    if space_pos >=? len st then Error no_space else
    let null_pos := find_from x00 (data st) (to_int (space_pos + 1)) in
    if null_pos >=? len st then Error no_null else
    if oid_truncated null_pos (len st) then Error truncated_oid else
    let mode_len := to_int (space_pos - pos st) in
    let mode := cstr (sub (data st) (pos st) mode_len) in
    let name_len := to_int (to_int (null_pos - space_pos) - 1) in
    let name := cstr (sub (data st) (to_int (space_pos + 1)) name_len) in
    let oid := sub (data st) (to_int (null_pos + 1)) 20 in
    Ok (ReturnNext {| mode := mode; name := name; entry_oid := oid |}
                   {| data := data st; pos := to_int (null_pos + 21) |})
  else Ok ReturnDone.

(** The rows of the whole call sequence; [None] when [fuel] calls were not
    enough to reach the end. *)
Fixpoint tree_rows (fuel : nat) (st : TreeParseState)
  : option (result (list tree_entry)) :=
  match fuel with
  | O => None
  | S fuel' =>
      match tree_next st with
      | Error e => Some (Error e)
      | Ok ReturnDone => Some (Ok [])
      | Ok (ReturnNext row st') =>
          match tree_rows fuel' st' with
          | Some (Ok rows) => Some (Ok (row :: rows))
          | r => r
          end
      end
  end.

Definition git_tree_entries_c (content : bytes)
  : option (result (list tree_entry)) :=
  tree_rows (S (length content)) {| data := content; pos := 0 |}.

End TreeParse.

(** ** The database: sql/schema.sql and the statements the C code sends *)

Lemma byte_of_to_N (b : byte) : default x00 (Byte.of_N (Byte.to_N b)) = b.
Proof. rewrite Byte.of_to_N. reflexivity. Qed.

#[global] Instance byte_eq_dec : EqDecision byte := Byte.byte_eq_dec.
#[global] Instance byte_countable : Countable byte :=
  inj_countable' Byte.to_N (fun n => default x00 (Byte.of_N n)) byte_of_to_N.

(** [encode(b, 'hex')]: two lowercase hexadecimal digits per byte. *)
Definition hex_encode (b : bytes) : bytes :=
  flat_map
    (fun c => [ GitOid.nibble_to_hex (Z.shiftr (uchar c) 4);
                GitOid.nibble_to_hex (Z.land (uchar c) 15) ])
    b.

(** Bytewise order of two strings, as [ORDER BY] sorts text under the C
    collation. *)
Fixpoint bytes_leb (a b : bytes) : bool :=
  match a, b with
  | [], _ => true
  | _ :: _, [] => false
  | x :: a', y :: b' =>
      if uchar x <? uchar y then true
      else if uchar y <? uchar x then false
      else bytes_leb a' b'
  end.

Module Pg.

(** [objects(repo_id, oid, type, size, content), PRIMARY KEY (repo_id, oid)] *)
Record object_row := { obj_type : Z; obj_size : Z; obj_content : bytes }.

(** [refs(repo_id, name, oid, symbolic), PRIMARY KEY (repo_id, name)];
    [None] is SQL's NULL. *)
Record ref_row := { ref_oid : option bytes; ref_symbolic : option bytes }.

(** [reflog(id, repo_id, ref_name, old_oid, new_oid, committer, timestamp_s,
    tz_offset, message, created_at)]; [id] is the position in the list. *)
Record reflog_row := {
  rl_repo_id : Z;
  rl_ref_name : bytes;
  rl_old_oid : option bytes;
  rl_new_oid : option bytes;
  rl_committer : bytes;
  rl_timestamp_s : Z;
  rl_tz_offset : bytes;
  rl_message : option bytes
}.

Record database := {
  repositories : gmap Z bytes;
  objects : gmap (Z * bytes) object_row;
  refs : gmap (Z * bytes) ref_row;
  reflog : list reflog_row
}.


Definition set_objects (db : database) (o : gmap (Z * bytes) object_row) :=
  {| repositories := repositories db; objects := o;
     refs := refs db; reflog := reflog db |}.
Definition set_refs (db : database) (r : gmap (Z * bytes) ref_row) :=
  {| repositories := repositories db; objects := objects db;
     refs := r; reflog := reflog db |}.
Definition set_reflog (db : database) (l : list reflog_row) :=
  {| repositories := repositories db; objects := objects db;
     refs := refs db; reflog := l |}.

(** [CHECK ((oid IS NOT NULL) != (symbolic IS NOT NULL))] *)
Definition refs_check (r : ref_row) : bool :=
  xorb (bool_decide (is_Some (ref_oid r)))
       (bool_decide (is_Some (ref_symbolic r))).

Definition fk_violation : pg_error :=
  ereport ERRCODE_FOREIGN_KEY_VIOLATION
          "insert or update violates foreign key constraint".
Definition check_violation : pg_error :=
  ereport ERRCODE_CHECK_VIOLATION
          "new row for relation refs violates check constraint".
Definition unique_violation : pg_error :=
  ereport ERRCODE_UNIQUE_VIOLATION
          "duplicate key value violates unique constraint".
Definition not_null_violation : pg_error :=
  ereport ERRCODE_NOT_NULL_VIOLATION
          "null value violates not-null constraint".
Definition connection_failure : pg_error :=
  ereport ERRCODE_CONNECTION_FAILURE "server closed the connection".
Definition in_failed_transaction : pg_error :=
  ereport ERRCODE_IN_FAILED_SQL_TRANSACTION
          "current transaction is aborted".

(** A statement reads the database and gives a result and the database
    after it, or fails and changes nothing. *)
Definition statement (R : Type) := database -> result (R * database).

(** *** Statements on [objects] *)

(** [INSERT INTO objects (repo_id, oid, type, size, content)
     VALUES ($1, $2, $3, $4, $5) ON CONFLICT (repo_id, oid) DO NOTHING] *)
Definition insert_object (repo_id : Z) (oid : bytes) (row : object_row)
  : statement unit :=
  fun db =>
    match objects db !! (repo_id, oid) with
    | Some _ => Ok (tt, db)
    | None =>
        match repositories db !! repo_id with
        | None => Error fk_violation
        | Some _ =>
            Ok (tt, set_objects db (<[(repo_id, oid) := row]> (objects db)))
        end
    end.

(** [SELECT ... FROM objects WHERE repo_id=$1 AND oid=$2] *)
Definition select_object (repo_id : Z) (oid : bytes)
  : statement (list object_row) :=
  fun db =>
    Ok (match objects db !! (repo_id, oid) with
        | Some row => [row]
        | None => []
        end, db).

(** [WHERE repo_id=$1 AND substring(oid from 1 for $2) = $3] *)
Definition prefix_matches (repo_id : Z) (n : Z) (prefix : bytes)
  (kv : (Z * bytes) * object_row) : bool :=
  bool_decide (kv.1.1 = repo_id /\ firstn (Z.to_nat n) kv.1.2 = prefix).

(** [SELECT oid, type, size, content FROM objects
     WHERE repo_id=$1 AND substring(oid from 1 for $2) = $3] *)
Definition select_objects_by_prefix (repo_id : Z) (n : Z) (prefix : bytes)
  : statement (list (bytes * object_row)) :=
  fun db =>
    Ok (map (fun kv : (Z * bytes) * object_row => (kv.1.2, kv.2))
            (List.filter (prefix_matches repo_id n prefix)
                         (map_to_list (objects db))), db).

(** [SELECT oid FROM objects WHERE repo_id=$1] *)
Definition select_oids (repo_id : Z) : statement (list bytes) :=
  fun db =>
    Ok (map (fun kv : (Z * bytes) * object_row => kv.1.2)
            (List.filter
               (fun kv : (Z * bytes) * object_row =>
                  bool_decide (kv.1.1 = repo_id))
               (map_to_list (objects db))), db).

(** *** Statements on [refs] *)

(** [SELECT oid, symbolic FROM refs WHERE repo_id = $1 AND name = $2]
    (with or without [FOR UPDATE]: the row lock has no effect on what one
    session reads). *)
Definition select_ref (repo_id : Z) (name : bytes)
  : statement (list ref_row) :=
  fun db =>
    Ok (match refs db !! (repo_id, name) with
        | Some row => [row]
        | None => []
        end, db).

(** [INSERT INTO refs (repo_id, name, oid, symbolic) VALUES ($1, $2, o, s)
     ON CONFLICT (repo_id, name) DO UPDATE SET oid = o, symbolic = s]:
    the new row must pass the CHECK, and a fresh row the foreign key. *)
Definition upsert_ref (repo_id : Z) (name : bytes) (row : ref_row)
  : statement unit :=
  fun db =>
    if negb (refs_check row) then Error check_violation
    else
      match refs db !! (repo_id, name), repositories db !! repo_id with
      | None, None => Error fk_violation
      | _, _ => Ok (tt, set_refs db (<[(repo_id, name) := row]> (refs db)))
      end.

(** [INSERT INTO refs (repo_id, name, oid, symbolic) VALUES (...)
     ON CONFLICT (repo_id, name) DO NOTHING] *)
Definition insert_ref_if_absent (repo_id : Z) (name : bytes) (row : ref_row)
  : statement unit :=
  fun db =>
    match refs db !! (repo_id, name) with
    | Some _ => Ok (tt, db)
    | None =>
        if negb (refs_check row) then Error check_violation
        else
          match repositories db !! repo_id with
          | None => Error fk_violation
          | Some _ =>
              Ok (tt, set_refs db (<[(repo_id, name) := row]> (refs db)))
          end
    end.

(** [DELETE FROM refs WHERE repo_id = $1 AND name = $2]; the result is the
    number of rows deleted. *)
Definition delete_ref (repo_id : Z) (name : bytes) : statement Z :=
  fun db =>
    match refs db !! (repo_id, name) with
    | Some _ => Ok (1, set_refs db (delete (repo_id, name) (refs db)))
    | None => Ok (0, db)
    end.

(** [UPDATE refs SET name = $1 WHERE repo_id = $2 AND name = $3]; the
    result is the number of rows updated ([PQcmdTuples]). *)
Definition rename_ref (new_name : bytes) (repo_id : Z) (old_name : bytes)
  : statement Z :=
  fun db =>
    match refs db !! (repo_id, old_name) with
    | None => Ok (0, db)
    | Some row =>
        if bool_decide (new_name = old_name) then Ok (1, db)
        else
          match refs db !! (repo_id, new_name) with
          | Some _ => Error unique_violation
          | None =>
              Ok (1, set_refs db
                       (<[(repo_id, new_name) := row]>
                          (delete (repo_id, old_name) (refs db))))
          end
    end.

(** [SELECT name, oid, symbolic FROM refs WHERE repo_id = $1 ORDER BY name] *)
Definition name_le (a b : bytes * ref_row) : Prop := bytes_leb a.1 b.1.

Definition select_refs_ordered (repo_id : Z)
  : statement (list (bytes * ref_row)) :=
  fun db =>
    Ok (merge_sort name_le
          (map (fun kv : (Z * bytes) * ref_row => (kv.1.2, kv.2))
               (List.filter
                  (fun kv : (Z * bytes) * ref_row =>
                     bool_decide (kv.1.1 = repo_id))
                  (map_to_list (refs db)))), db).

(** *** Statements on [reflog] *)

(** [INSERT INTO reflog (...) VALUES (...)] *)
Definition insert_reflog (row : reflog_row) : statement unit :=
  fun db =>
    match repositories db !! rl_repo_id row with
    | None => Error fk_violation
    | Some _ => Ok (tt, set_reflog db (reflog db ++ [row]))
    end.

(** [DELETE FROM reflog WHERE repo_id = $1 AND ref_name = $2] *)
Definition delete_reflog (repo_id : Z) (name : bytes) : statement unit :=
  fun db =>
    Ok (tt, set_reflog db
              (List.filter
                 (fun r => negb (bool_decide (rl_repo_id r = repo_id
                                              /\ rl_ref_name r = name)))
                 (reflog db))).

(** [UPDATE reflog SET ref_name = $1 WHERE repo_id = $2 AND ref_name = $3] *)
Definition rename_reflog (new_name : bytes) (repo_id : Z) (old_name : bytes)
  : statement unit :=
  fun db =>
    Ok (tt, set_reflog db
              (map (fun r =>
                      if bool_decide (rl_repo_id r = repo_id
                                      /\ rl_ref_name r = old_name)
                      then {| rl_repo_id := rl_repo_id r;
                              rl_ref_name := new_name;
                              rl_old_oid := rl_old_oid r;
                              rl_new_oid := rl_new_oid r;
                              rl_committer := rl_committer r;
                              rl_timestamp_s := rl_timestamp_s r;
                              rl_tz_offset := rl_tz_offset r;
                              rl_message := rl_message r |}
                      else r)
                   (reflog db))).

(** [SELECT pg_advisory_xact_lock($1::bigint)]: no data is read or
    written. *)
Definition advisory_xact_lock (key : Z) : statement unit :=
  fun db => Ok (tt, db).

(** *** The connection

    [stored] is the committed database; a transaction works on a copy.  A
    statement that fails inside a transaction aborts it: later statements
    fail until the transaction ends, and COMMIT then commits nothing.
    [faults] says, for each statement still to come, whether the server
    fails it for a reason of its own (a lost connection, a timeout). *)
Inductive txn_state :=
| Idle
| InTxn (work : database)
| Aborted.

Record PGconn := {
  stored : database;
  txn : txn_state;
  faults : list bool
}.

Definition next_fault (c : PGconn) : bool * list bool :=
  match faults c with
  | [] => (false, [])
  | f :: fs => (f, fs)
  end.

(** [PQexecParams] with a data statement; [Ok] stands for the result status
    the caller tests for ([PGRES_TUPLES_OK] or [PGRES_COMMAND_OK]). *)
Definition PQexecParams {R} (c : PGconn) (stmt : statement R)
  : result R * PGconn :=
  let '(fault, rest) := next_fault c in
  match txn c with
  | Aborted =>
      (Error in_failed_transaction,
       {| stored := stored c; txn := Aborted; faults := rest |})
  | Idle =>
      if fault
      then (Error connection_failure,
            {| stored := stored c; txn := Idle; faults := rest |})
      else
        match stmt (stored c) with
        | Ok (r, db') =>
            (Ok r, {| stored := db'; txn := Idle; faults := rest |})
        | Error e =>
            (Error e, {| stored := stored c; txn := Idle; faults := rest |})
        end
  | InTxn w =>
      if fault
      then (Error connection_failure,
            {| stored := stored c; txn := Aborted; faults := rest |})
      else
        match stmt w with
        | Ok (r, w') =>
            (Ok r, {| stored := stored c; txn := InTxn w'; faults := rest |})
        | Error e =>
            (Error e,
             {| stored := stored c; txn := Aborted; faults := rest |})
        end
  end.

(** [PQexec(conn, "BEGIN")]: inside an open transaction the server only
    warns; inside an aborted one it refuses the command. *)
Definition BEGIN (c : PGconn) : result unit * PGconn :=
  let '(fault, rest) := next_fault c in
  match txn c with
  | Aborted =>
      (Error in_failed_transaction,
       {| stored := stored c; txn := Aborted; faults := rest |})
  | t =>
      if fault
      then (Error connection_failure,
            {| stored := stored c; txn := t; faults := rest |})
      else
        (Ok tt,
         {| stored := stored c;
            txn := match t with Idle => InTxn (stored c) | _ => t end;
            faults := rest |})
  end.

(** [PQexec(conn, "COMMIT")] *)
Definition COMMIT (c : PGconn) : result unit * PGconn :=
  let '(fault, rest) := next_fault c in
  if fault
  then (Error connection_failure,
        {| stored := stored c; txn := txn c; faults := rest |})
  else
    (Ok tt,
     {| stored := match txn c with InTxn w => w | _ => stored c end;
        txn := Idle; faults := rest |}).

(** [PQexec(conn, "ROLLBACK")]: the source never looks at its result, and a
    transaction whose connection is lost is rolled back by the server. *)
Definition ROLLBACK (c : PGconn) : PGconn :=
  {| stored := stored c; txn := Idle; faults := (next_fault c).2 |}.

(** The database the next statement sees. *)
Definition visible (c : PGconn) : database :=
  match txn c with InTxn w => w | _ => stored c end.

(** Whether the next statement fails at the database level, whatever it is:
    the transaction is aborted, or the server fails the statement. *)
Definition statement_fails (c : PGconn) : bool :=
  match txn c with
  | Aborted => true
  | _ => (next_fault c).1
  end.

(** No failure of the server is scheduled. *)
Definition reliable (c : PGconn) : bool := forallb negb (faults c).

(** The connection after a statement that succeeded and left [db], and
    after one that failed. *)
Definition after_ok (c : PGconn) (db : database) : PGconn :=
  match txn c with
  | InTxn _ =>
      {| stored := stored c; txn := InTxn db; faults := (next_fault c).2 |}
  | t => {| stored := db; txn := t; faults := (next_fault c).2 |}
  end.

Definition after_error (c : PGconn) : PGconn :=
  {| stored := stored c;
     txn := match txn c with Idle => Idle | _ => Aborted end;
     faults := (next_fault c).2 |}.

(** The invariant of [refs]: every row passes the CHECK; on a connection,
    in the committed database and in the working copy of an open
    transaction. *)
Definition refs_xor (db : database) : Prop :=
  map_Forall (fun _ row => refs_check row = true) (refs db).


(** A connection inside the transaction a function opened on [c0]: nothing
    has been committed since. *)
Definition in_txn_of (c0 c : PGconn) : Prop :=
  stored c = stored c0 /\ txn c <> Idle.

(** An outcome [(code, c)] of a function started on [c0] that, when [code]
    reports a failure, has rolled its transaction back: the committed
    database is the one of [c0] and no transaction is open. *)
Definition rolled_back (c0 : PGconn) (out : Z * PGconn) : Prop :=
  out.1 <> 0 -> stored out.2 = stored c0 /\ txn out.2 = Idle.

(** A statement that keeps the invariant of [refs]. *)
Definition keeps_xor {R} (stmt : database -> result (R * database)) : Prop :=
  forall db r db', refs_xor db -> stmt db = Ok (r, db') -> refs_xor db'.


(** The count of [SELECT ... FROM objects WHERE repo_id = $1 AND oid = $2],
    as the idempotence test reads it. *)
Definition count_objects (repo_id : Z) (oid : bytes) (db : database) : nat :=
  length (List.filter
            (fun kv : (Z * bytes) * object_row =>
               bool_decide (kv.1 = (repo_id, oid)))
            (map_to_list (objects db))).

End Pg.

(** ** libgit2: error codes and types (git2/errors.h, git2/oid.h) *)

Definition GIT_OK : Z := 0.
Definition GIT_ERROR : Z := -1.
Definition GIT_ENOTFOUND : Z := -3.
Definition GIT_EEXISTS : Z := -4.
Definition GIT_EAMBIGUOUS : Z := -5.
Definition GIT_EMODIFIED : Z := -15.
Definition GIT_OID_SHA1_SIZE : Z := 20.
Definition GIT_OID_SHA1_HEXSIZE : Z := 40.

(** What a backend function hands back: [Done out] when it returns 0 with
    its output arguments set to [out], [Failed code] when it returns the
    non-zero [code]. *)
Inductive ret (A : Type) :=
| Done (out : A)
| Failed (code : Z).
Arguments Done {A} out.
Arguments Failed {A} code.

(** Conversions of C: to [int16_t] and to the 64-bit [size_t]. *)
Definition to_int16 (z : Z) : Z := (z + 2 ^ 15) mod 2 ^ 16 - 2 ^ 15.
Definition to_size_t (z : Z) : Z := z mod 2 ^ 64.

(** ** backend/odb_postgres.c *)

Module Odb.
Import Pg.

(** [typedef struct { git_odb_backend parent; PGconn *conn; int repo_id; }
    postgres_odb_backend;] the connection is passed along explicitly. *)
Record postgres_odb_backend := { repo_id : Z }.

(** The output arguments of [read]: [*data_p], [*len_p], [*type_p]. *)
Record odb_object := { data_p : bytes; len_p : Z; type_p : Z }.

(** The output arguments of [read_prefix]; [out_oid] is [None] when the
    function returns without having written [out_oid->id]. *)
Record odb_prefix_object := { out_oid : option bytes; object : odb_object }.

(** The parameter [oid->id], sent with length [GIT_OID_SHA1_SIZE]. *)
Definition oid_param (oid : bytes) : bytes :=
  firstn (Z.to_nat GIT_OID_SHA1_SIZE) oid.

Definition object_of_row (row : object_row) : odb_object :=
  {| data_p := obj_content row;
     len_p := to_size_t (obj_size row);
     type_p := obj_type row |}.

Definition pg_odb_read (pg : postgres_odb_backend) (oid : bytes) (c : PGconn)
  : ret odb_object * PGconn :=
  let '(res, c) :=
    PQexecParams c (select_object (repo_id pg) (oid_param oid)) in
  match res with
  | Error _ => (Failed (-1), c)
  | Ok [] => (Failed GIT_ENOTFOUND, c)
  | Ok (row :: _) => (Done (object_of_row row), c)
  end.

Definition pg_odb_read_header (pg : postgres_odb_backend) (oid : bytes)
  (c : PGconn) : ret (Z * Z) * PGconn :=
  let '(res, c) :=
    PQexecParams c (select_object (repo_id pg) (oid_param oid)) in
  match res with
  | Error _ => (Failed (-1), c)
  | Ok [] => (Failed GIT_ENOTFOUND, c)
  | Ok (row :: _) => (Done (to_size_t (obj_size row), obj_type row), c)
  end.

(** [int byte_len = (int)((prefix_len + 1) / 2);] *)
Definition byte_len_of (prefix_len : Z) : Z := to_int ((prefix_len + 1) / 2).

Definition pg_odb_read_prefix (pg : postgres_odb_backend) (short_oid : bytes)
  (prefix_len : Z) (c : PGconn) : ret odb_prefix_object * PGconn :=
  if prefix_len =? GIT_OID_SHA1_HEXSIZE then
    (* return pg_odb_read(data_p, len_p, type_p, backend, short_oid); *)
    match pg_odb_read pg short_oid c with
    | (Done obj, c) => (Done {| out_oid := None; object := obj |}, c)
    | (Failed code, c) => (Failed code, c)
    end
  else
    let byte_len := byte_len_of prefix_len in
    let '(res, c) :=
      PQexecParams c
        (select_objects_by_prefix (repo_id pg) byte_len
           (firstn (Z.to_nat byte_len) short_oid)) in
    match res with
    | Error _ => (Failed (-1), c)
    | Ok [] => (Failed GIT_ENOTFOUND, c)
    | Ok [(oid, row)] =>
        (Done {| out_oid := Some (oid_param oid);
                 object := object_of_row row |}, c)
    | Ok (_ :: _ :: _) => (Failed GIT_EAMBIGUOUS, c)
    end.

Definition pg_odb_write (pg : postgres_odb_backend) (oid : bytes)
  (data : bytes) (type : Z) (c : PGconn) : Z * PGconn :=
  let len := Z.of_nat (length data) in
  let row := {| obj_type := to_int16 type;
                obj_size := to_int len;
                obj_content := firstn (Z.to_nat (to_int len)) data |} in
  let '(res, c) :=
    PQexecParams c (insert_object (repo_id pg) (oid_param oid) row) in
  match res with
  | Error _ => (-1, c)
  | Ok _ => (0, c)
  end.

Definition pg_odb_exists (pg : postgres_odb_backend) (oid : bytes)
  (c : PGconn) : Z * PGconn :=
  let '(res, c) :=
    PQexecParams c (select_object (repo_id pg) (oid_param oid)) in
  match res with
  | Error _ => (0, c)
  | Ok rows => (if (0 <? Z.of_nat (length rows)) then 1 else 0, c)
  end.

Definition pg_odb_exists_prefix (pg : postgres_odb_backend)
  (short_oid : bytes) (prefix_len : Z) (c : PGconn)
  : ret bytes * PGconn :=
  if prefix_len =? GIT_OID_SHA1_HEXSIZE then
    let '(found, c) := pg_odb_exists pg short_oid c in
    if found =? 0 then (Failed GIT_ENOTFOUND, c)
    else (Done (oid_param short_oid), c)
  else
    let byte_len := byte_len_of prefix_len in
    let '(res, c) :=
      PQexecParams c
        (select_objects_by_prefix (repo_id pg) byte_len
           (firstn (Z.to_nat byte_len) short_oid)) in
    match res with
    | Error _ => (Failed (-1), c)
    | Ok [] => (Failed GIT_ENOTFOUND, c)
    | Ok [(oid, _)] => (Done (oid_param oid), c)
    | Ok (_ :: _ :: _) => (Failed GIT_EAMBIGUOUS, c)
    end.

End Odb.

(** ** sql/functions/object_hash.sql, object_read_write.sql *)

Module Sql.
Import Pg.

(** [git_type_name(obj_type smallint) RETURNS text]: a CASE with no ELSE
    gives NULL for any other code. *)
Definition git_type_name (obj_type : Z) : option bytes :=
  match obj_type with
  | 1 => Some (bs "commit")
  | 2 => Some (bs "tree")
  | 3 => Some (bs "blob")
  | 4 => Some (bs "tag")
  | _ => None
  end.

(** [git_object_hash(obj_type smallint, content bytea) RETURNS bytea]:
    [digest(convert_to(git_type_name(obj_type) || ' '
    || octet_length(content)::text, 'UTF8') || '\x00' || content, 'sha1')];
    NULL propagates through [||] and the strict [digest]. *)
Definition git_object_hash (obj_type : Z) (content : bytes) : option bytes :=
  match git_type_name obj_type with
  | None => None
  | Some name =>
      Some (Sha1.SHA1 (name ++ bs " " ++ fmt_d (Z.of_nat (length content))
                       ++ [x00] ++ content))
  end.

(** [git_object_write(p_repo_id, p_type, p_content) RETURNS bytea]: the
    INSERT of a NULL [oid] violates the column's NOT NULL. *)
Definition git_object_write (p_repo_id p_type : Z) (p_content : bytes)
  : statement bytes :=
  fun db =>
    match git_object_hash p_type p_content with
    | None => Error not_null_violation
    | Some v_oid =>
        rbind
          (insert_object p_repo_id v_oid
             {| obj_type := p_type;
                obj_size := Z.of_nat (length p_content);
                obj_content := p_content |} db)
          (fun '(_, db') => Ok (v_oid, db'))
    end.

(** [git_object_read(p_repo_id, p_oid)] *)
Definition git_object_read (p_repo_id : Z) (p_oid : bytes)
  : statement (list object_row) :=
  select_object p_repo_id p_oid.

End Sql.

(** ** backend/refdb_postgres.c *)

Module Refdb.
Import Pg.

(** [typedef struct { git_refdb_backend parent; PGconn *conn; int repo_id; }
    postgres_refdb_backend;] *)
Record postgres_refdb_backend := { repo_id : Z }.

(** libgit2's [git_reference]: a name with an OID ([GIT_REFERENCE_DIRECT])
    or with the name of another reference ([GIT_REFERENCE_SYMBOLIC]). *)
Inductive git_reference :=
| Direct (name : bytes) (target : bytes)
| Symbolic (name : bytes) (symbolic_target : bytes).

Definition git_reference_name (ref : git_reference) : bytes :=
  match ref with Direct n _ => n | Symbolic n _ => n end.

(** [git_signature]: name, email and [when] (time and offset in minutes). *)
Record git_signature := {
  sig_name : bytes;
  sig_email : bytes;
  when_time : Z;
  when_offset : Z
}.

(** [typedef struct { int64_t lock_key; char *refname; } pg_ref_lock;] *)
Record pg_ref_lock := { lock_key : Z; refname : bytes }.

Definition to_int64 (z : Z) : Z := (z + 2 ^ 63) mod 2 ^ 64 - 2 ^ 63.

(** FNV-1a over the four bytes of [repo_id] and the bytes of the name, in
    64-bit unsigned arithmetic. *)
Definition fnv1a_step (h : Z) (b : Z) : Z :=
  (Z.lxor h b * 1099511628211) mod 2 ^ 64.

Definition hash_refname (repo_id : Z) (refname : bytes) : Z :=
  let buf := [ Z.land (Z.shiftr repo_id 24) 255;
               Z.land (Z.shiftr repo_id 16) 255;
               Z.land (Z.shiftr repo_id 8) 255;
               Z.land repo_id 255 ] in
  let h := fold_left fnv1a_step buf 14695981039346656037 in
  to_int64 (fold_left fnv1a_step (map uchar (cstr refname)) h).

(** How a [bytea] column arrives in a result: raw in binary format, and as
    [\x] followed by hex digits in text format. *)
Inductive result_format := TextFormat | BinaryFormat.

Definition bytea_field (fmt : result_format) (b : bytes) : bytes :=
  match fmt with
  | BinaryFormat => b
  | TextFormat => bs "\x" ++ hex_encode b
  end.

(** [ref_from_result]: [oid_field] and [symbolic_field] are columns 1 and 2
    of the row, [None] where [PQgetisnull] holds. *)
Definition ref_from_result (name : bytes)
  (oid_field symbolic_field : option bytes) : ret git_reference :=
  match oid_field with
  | Some raw =>
      if negb (Z.of_nat (length raw) =? GIT_OID_SHA1_SIZE) then Failed (-1)
      else Done (Direct name raw)
  | None =>
      match symbolic_field with
      | Some target => Done (Symbolic name target)
      | None => Failed (-1)
      end
  end.

Definition pg_refdb_exists (backend : postgres_refdb_backend)
  (ref_name : bytes) (c : PGconn) : ret Z * PGconn :=
  let '(res, c) := PQexecParams c (select_ref (repo_id backend) ref_name) in
  match res with
  | Error _ => (Failed (-1), c)
  | Ok rows => (Done (if 0 <? Z.of_nat (length rows) then 1 else 0), c)
  end.

Definition pg_refdb_lookup (backend : postgres_refdb_backend)
  (ref_name : bytes) (c : PGconn) : ret git_reference * PGconn :=
  let '(res, c) := PQexecParams c (select_ref (repo_id backend) ref_name) in
  match res with
  | Error _ => (Failed (-1), c)
  | Ok [] => (Failed GIT_ENOTFOUND, c)
  | Ok (row :: _) =>
      (ref_from_result ref_name
         (bytea_field BinaryFormat <$> ref_oid row) (ref_symbolic row), c)
  end.

(** [%02d] for a number that is not negative. *)
Definition fmt_02d (v : Z) : bytes :=
  let d := fmt_d v in
  if (length d <? 2)%nat then bs "0" ++ d else d.

(** [git_oid_is_zero] *)
Definition git_oid_is_zero (oid : bytes) : bool :=
  forallb (fun b => Byte.eqb b x00) (Odb.oid_param oid).

(** The [bytea] parameter made of an optional OID: NULL for a null pointer
    and for the zero OID. *)
Definition reflog_oid_param (oid : option bytes) : option bytes :=
  match oid with
  | Some o => if git_oid_is_zero o then None else Some (Odb.oid_param o)
  | None => None
  end.

Definition write_reflog_entry (backend : postgres_refdb_backend)
  (ref_name : bytes) (old_oid new_oid : option bytes)
  (who : option git_signature) (message : option bytes) (c : PGconn)
  : Z * PGconn :=
  match who with
  | None => (0, c)
  | Some who =>
      let committer :=
        firstn 511 (sig_name who ++ bs " <" ++ sig_email who ++ bs ">") in
      (* ts: the time printed with %lld and read back as a bigint *)
      let ts := to_int64 (when_time who) in
      let tz :=
        firstn 7
          ((if when_offset who >=? 0 then bs "+" else bs "-")
           ++ fmt_02d (Z.abs (when_offset who) / 60)
           ++ fmt_02d (Z.abs (when_offset who) mod 60)) in
      let row :=
        {| rl_repo_id := repo_id backend;
           rl_ref_name := ref_name;
           rl_old_oid := reflog_oid_param old_oid;
           rl_new_oid := reflog_oid_param new_oid;
           rl_committer := committer;
           rl_timestamp_s := ts;
           rl_tz_offset := tz;
           rl_message := message |} in
      let '(res, c) := PQexecParams c (insert_reflog row) in
      match res with
      | Error _ => (-1, c)
      | Ok _ => (0, c)
      end
  end.

(** The row an upsert of [ref] stores: a direct reference clears
    [symbolic], a symbolic one clears [oid]. *)
Definition row_of_reference (ref : git_reference) : ref_row :=
  match ref with
  | Direct _ oid =>
      {| ref_oid := Some (Odb.oid_param oid); ref_symbolic := None |}
  | Symbolic _ target =>
      {| ref_oid := None; ref_symbolic := Some target |}
  end.

Definition new_oid_of (ref : git_reference) : option bytes :=
  match ref with Direct _ oid => Some oid | Symbolic _ _ => None end.

(** The test of the current OID against [old] in [pg_refdb_write]: the
    code the function returns after ROLLBACK, or [None] to go on. *)
Definition write_check_old (old : option bytes) (row : ref_row) : option Z :=
  match old with
  | None => None
  | Some old_id =>
      match ref_oid row with
      | None => Some (-1)
      | Some cur_raw =>
          if negb (Z.of_nat (length cur_raw) =? GIT_OID_SHA1_SIZE)
             || negb (bool_decide (cur_raw = Odb.oid_param old_id))
          then Some GIT_EEXISTS
          else None
      end
  end.

(** The test of the current symbolic target against [old_target]. *)
Definition write_check_old_target (old_target : option bytes) (row : ref_row)
  : option Z :=
  match old_target with
  | None => None
  | Some target =>
      match ref_symbolic row with
      | None => Some (-1)
      | Some cur_target =>
          if negb (bool_decide (cur_target = target)) then Some GIT_EEXISTS
          else None
      end
  end.

(** The compare-and-swap block of [pg_refdb_write], entered when [force]
    is 0: [Some code] when the function rolls back and returns [code]. *)
Definition write_cas_check (backend : postgres_refdb_backend)
  (ref_name : bytes) (old old_target : option bytes) (c : PGconn)
  : option Z * PGconn :=
  let '(sel, c) := PQexecParams c (select_ref (repo_id backend) ref_name) in
  match sel with
  | Error _ => (Some (-1), c)
  | Ok rows =>
      if bool_decide (is_Some old) || bool_decide (is_Some old_target) then
        match rows with
        | [] => (Some GIT_ENOTFOUND, c)
        | row :: _ =>
            match write_check_old old row with
            | Some code => (Some code, c)
            | None => (write_check_old_target old_target row, c)
            end
        end
      else if (0 <? Z.of_nat (length rows)) then (Some GIT_EEXISTS, c)
      else (None, c)
  end.

(** What the compare-and-swap block of [pg_refdb_write] decides for the
    row [cur] it reads ([None] when the ref is not stored). *)
Definition cas_verdict (old old_target : option bytes) (cur : option ref_row)
  : option Z :=
  match cur with
  | None =>
      if bool_decide (is_Some old) || bool_decide (is_Some old_target)
      then Some GIT_ENOTFOUND else None
  | Some row =>
      if bool_decide (is_Some old) || bool_decide (is_Some old_target)
      then match write_check_old old row with
           | Some code => Some code
           | None => write_check_old_target old_target row
           end
      else Some GIT_EEXISTS
  end.

(** The part of [pg_refdb_write] from the upsert to the COMMIT. *)
Definition write_upsert_and_commit (backend : postgres_refdb_backend)
  (ref : git_reference) (who : option git_signature)
  (message : option bytes) (old : option bytes) (c : PGconn) : Z * PGconn :=
  let ref_name := git_reference_name ref in
  let '(res, c) :=
    PQexecParams c
      (upsert_ref (repo_id backend) ref_name (row_of_reference ref)) in
  match res with
  | Error _ => (-1, ROLLBACK c)
  | Ok _ =>
      let '(error, c) :=
        write_reflog_entry backend ref_name old (new_oid_of ref) who message c
      in
      if error <? 0 then (error, ROLLBACK c)
      else
        let '(res, c) := COMMIT c in
        match res with
        | Error _ => (-1, ROLLBACK c)
        | Ok _ => (0, c)
        end
  end.

Definition pg_refdb_write (backend : postgres_refdb_backend)
  (ref : git_reference) (force : Z) (who : option git_signature)
  (message : option bytes) (old old_target : option bytes) (c : PGconn)
  : Z * PGconn :=
  let '(res, c) := BEGIN c in
  match res with
  | Error _ => (-1, c)
  | Ok _ =>
      if force =? 0 then
        match write_cas_check backend (git_reference_name ref) old old_target c
        with
        | (Some code, c) => (code, ROLLBACK c)
        | (None, c) => write_upsert_and_commit backend ref who message old c
        end
      else write_upsert_and_commit backend ref who message old c
  end.

(** [SELECT 1 FROM refs WHERE repo_id = $1 AND name = $2]: the number of
    rows. *)
Definition count_ref (repo_id : Z) (name : bytes) : statement Z :=
  fun db =>
    Ok (match refs db !! (repo_id, name) with Some _ => 1 | None => 0 end, db).

(** The steps of [pg_refdb_rename] after the test of the new name: rename
    the row, rename the reflog rows, read the row back (in text format) and
    commit. *)
Definition rename_and_commit (backend : postgres_refdb_backend)
  (old_name new_name : bytes) (c : PGconn) : ret git_reference * PGconn :=
  let '(res, c) :=
    PQexecParams c (rename_ref new_name (repo_id backend) old_name) in
  match res with
  | Error _ => (Failed (-1), ROLLBACK c)
  | Ok updated =>
      if updated =? 0 then (Failed GIT_ENOTFOUND, ROLLBACK c)
      else
        let '(_, c) :=
          PQexecParams c (rename_reflog new_name (repo_id backend) old_name)
        in
        let '(sel, c) :=
          PQexecParams c (select_ref (repo_id backend) new_name) in
        match sel with
        | Error _ | Ok [] => (Failed (-1), ROLLBACK c)
        | Ok (row :: _) =>
            match ref_from_result new_name
                    (bytea_field TextFormat <$> ref_oid row)
                    (ref_symbolic row) with
            | Failed _ => (Failed (-1), ROLLBACK c)
            | Done out =>
                let '(res, c) := COMMIT c in
                match res with
                | Error _ => (Failed (-1), ROLLBACK c)
                | Ok _ => (Done out, c)
                end
            end
        end
  end.

Definition pg_refdb_rename (backend : postgres_refdb_backend)
  (old_name new_name : bytes) (force : Z) (c : PGconn)
  : ret git_reference * PGconn :=
  let '(res, c) := BEGIN c in
  match res with
  | Error _ => (Failed (-1), c)
  | Ok _ =>
      if force =? 0 then
        let '(chk, c) :=
          PQexecParams c (count_ref (repo_id backend) new_name) in
        match chk with
        | Error _ => (Failed (-1), ROLLBACK c)
        | Ok n =>
            if 0 <? n then (Failed GIT_EEXISTS, ROLLBACK c)
            else rename_and_commit backend old_name new_name c
        end
      else
        let '(_, c) :=
          PQexecParams c (delete_ref (repo_id backend) new_name) in
        rename_and_commit backend old_name new_name c
  end.

(** The tests of [pg_refdb_del] against [old_id] and [old_target]. *)
Definition del_check (old_id old_target : option bytes) (row : ref_row)
  : option Z :=
  let bad_oid :=
    match old_id with
    | None => false
    | Some id =>
        match ref_oid row with
        | None => true
        | Some cur =>
            negb (Z.of_nat (length cur) =? GIT_OID_SHA1_SIZE)
            || negb (bool_decide (cur = Odb.oid_param id))
        end
    end in
  let bad_target :=
    match old_target with
    | None => false
    | Some target =>
        match ref_symbolic row with
        | None => true
        | Some cur => negb (bool_decide (cur = target))
        end
    end in
  if bad_oid then Some GIT_EEXISTS
  else if bad_target then Some GIT_EEXISTS
  else None.

Definition del_and_commit (backend : postgres_refdb_backend)
  (ref_name : bytes) (c : PGconn) : Z * PGconn :=
  let '(res, c) := PQexecParams c (delete_ref (repo_id backend) ref_name) in
  match res with
  | Error _ => (-1, ROLLBACK c)
  | Ok _ =>
      let '(_, c) :=
        PQexecParams c (delete_reflog (repo_id backend) ref_name) in
      let '(res, c) := COMMIT c in
      match res with
      | Error _ => (-1, ROLLBACK c)
      | Ok _ => (0, c)
      end
  end.

Definition pg_refdb_del (backend : postgres_refdb_backend)
  (ref_name : bytes) (old_id old_target : option bytes) (c : PGconn)
  : Z * PGconn :=
  let '(res, c) := BEGIN c in
  match res with
  | Error _ => (-1, c)
  | Ok _ =>
      if bool_decide (is_Some old_id) || bool_decide (is_Some old_target) then
        let '(sel, c) :=
          PQexecParams c (select_ref (repo_id backend) ref_name) in
        match sel with
        | Error _ => (-1, ROLLBACK c)
        | Ok [] => (GIT_ENOTFOUND, ROLLBACK c)
        | Ok (row :: _) =>
            match del_check old_id old_target row with
            | Some code => (code, ROLLBACK c)
            | None => del_and_commit backend ref_name c
            end
        end
      else del_and_commit backend ref_name c
  end.

Definition pg_refdb_lock (backend : postgres_refdb_backend)
  (refname : bytes) (c : PGconn) : ret pg_ref_lock * PGconn :=
  let lock := {| lock_key := hash_refname (repo_id backend) refname;
                 refname := refname |} in
  let '(res, c) := BEGIN c in
  match res with
  | Error _ => (Failed (-1), c)
  | Ok _ =>
      let '(res, c) := PQexecParams c (advisory_xact_lock (lock_key lock)) in
      match res with
      | Error _ => (Failed (-1), ROLLBACK c)
      | Ok _ => (Done lock, c)
      end
  end.

(** [pg_refdb_unlock]: [success] is 1 to write [ref], 2 to delete it, and
    anything else to discard; the transaction opened by [pg_refdb_lock] is
    committed when no step failed and rolled back otherwise. *)
Definition pg_refdb_unlock (backend : postgres_refdb_backend)
  (payload : pg_ref_lock) (success update_reflog : Z) (ref : git_reference)
  (sig : option git_signature) (message : option bytes) (c : PGconn)
  : Z * PGconn :=
  let '(error, c) :=
    if success =? 1 then
      let ref_name := git_reference_name ref in
      let '(res, c) :=
        PQexecParams c
          (upsert_ref (repo_id backend) ref_name (row_of_reference ref)) in
      match res with
      | Error _ => (-1, c)
      | Ok _ =>
          if negb (update_reflog =? 0) && bool_decide (is_Some sig)
          then write_reflog_entry backend ref_name None (new_oid_of ref)
                 sig message c
          else (0, c)
      end
    else if success =? 2 then
      let ref_name := git_reference_name ref in
      let '(res, c) :=
        PQexecParams c (delete_ref (repo_id backend) ref_name) in
      match res with
      | Error _ => (-1, c)
      | Ok _ =>
          let '(_, c) :=
            PQexecParams c (delete_reflog (repo_id backend) ref_name) in
          (0, c)
      end
    else (0, c) in
  if error =? 0 then (error, (COMMIT c).2) else (error, ROLLBACK c).

End Refdb.

(** ** backend/remote_helper.c: the [list] command

    Values of TEXT columns, and text-format results, hold no NUL byte: on
    them [strcmp] is equality of the byte lists, [strlen] their length, and
    [%s] prints all of them. *)

Module Helper.
Import Pg.

Definition LF : bytes := [x0a].

(** What a command leaves behind: the bytes it printed on standard output,
    or nothing when [die] ended the process. *)
Inductive outcome :=
| Printed (stdout : bytes)
| Died.

(** A row of the query of [cmd_list]: [name], [encode(oid, 'hex')] and
    [symbolic], the last two [None] where [PQgetisnull] holds. *)
Record list_row := {
  row_name : bytes;
  row_oid_hex : option bytes;
  row_symbolic : option bytes
}.

(** [SELECT name, encode(oid, 'hex'), symbolic FROM refs
     WHERE repo_id = $1 ORDER BY name] *)
Definition select_refs_hex (repo_id : Z) : statement (list list_row) :=
  fun db =>
    rbind (select_refs_ordered repo_id db)
      (fun '(rows, db') =>
         Ok (map (fun nr : bytes * ref_row =>
                    {| row_name := nr.1;
                       row_oid_hex := hex_encode <$> ref_oid nr.2;
                       row_symbolic := ref_symbolic nr.2 |}) rows, db')).

(** [!null && strlen(value) > 0] *)
Definition present (field : option bytes) : bool :=
  match field with
  | Some (_ :: _) => true
  | _ => false
  end.

(** The variables of [cmd_list]: what was printed so far, [head_oid] and
    [head_symbolic]. *)
Record list_vars := {
  printed : bytes;
  head_oid : option bytes;
  head_symbolic : option bytes
}.

(** The body of the first loop. *)
Definition list_step (v : list_vars) (r : list_row) : list_vars :=
  if bool_decide (row_name r = bs "HEAD") then
    if present (row_symbolic r) then
      {| printed := printed v; head_oid := head_oid v;
         head_symbolic := row_symbolic r |}
    else if present (row_oid_hex r) then
      {| printed := printed v; head_oid := row_oid_hex r;
         head_symbolic := head_symbolic v |}
    else v
  else if present (row_oid_hex r) then
    {| printed := printed v ++ default [] (row_oid_hex r) ++ bs " "
                  ++ row_name r ++ LF;
       head_oid := head_oid v; head_symbolic := head_symbolic v |}
  else v.

(** The second loop: the first row named [target] whose [oid] is not
    NULL gives [head_oid]. *)
Definition resolve_head (rows : list list_row) (target : bytes)
  : option bytes :=
  match List.find
          (fun r => bool_decide (row_name r = target)
                    && bool_decide (is_Some (row_oid_hex r))) rows with
  | Some r => row_oid_hex r
  | None => None
  end.

Definition cmd_list (repo_id : Z) (c : PGconn) : outcome * PGconn :=
  let '(res, c) := PQexecParams c (select_refs_hex repo_id) in
  match res with
  | Error _ => (Died, c)
  | Ok rows =>
      let v := fold_left list_step rows
                 {| printed := []; head_oid := None; head_symbolic := None |}
      in
      let out :=
        match head_symbolic v with
        | Some target =>
            let head_oid :=
              match resolve_head rows target with
              | Some h => Some h
              | None => head_oid v
              end in
            match head_oid with
            | Some _ => printed v ++ bs "@" ++ target ++ bs " HEAD" ++ LF
            | None => printed v
            end
        | None =>
            match head_oid v with
            | Some h => printed v ++ h ++ bs " HEAD" ++ LF
            | None => printed v
            end
        end in
      (Printed (out ++ LF), c)
  end.

(** The row of the query for a row of the table. *)
Definition to_list_row (nr : bytes * ref_row) : list_row :=
  {| row_name := nr.1;
     row_oid_hex := hex_encode <$> ref_oid nr.2;
     row_symbolic := ref_symbolic nr.2 |}.

(** *** The listing the protocol asks for *)

(** The refs of a repository, ordered by name. *)
Definition refs_of (repo_id : Z) (db : database) : list (bytes * ref_row) :=
  merge_sort name_le
    (map (fun kv : (Z * bytes) * ref_row => (kv.1.2, kv.2))
         (List.filter
            (fun kv : (Z * bytes) * ref_row => bool_decide (kv.1.1 = repo_id))
            (map_to_list (refs db)))).

(** The line of a direct ref other than [HEAD]; nothing for any other. *)
Definition ref_line (nr : bytes * ref_row) : bytes :=
  if bool_decide (nr.1 = bs "HEAD") then []
  else match ref_oid nr.2 with
       | Some oid => hex_encode oid ++ bs " " ++ nr.1 ++ LF
       | None => []
       end.

(** The line of [HEAD]: [@target HEAD] when it is symbolic and [target] is
    stored as a direct ref, [hex HEAD] when it is direct. *)
Definition head_line (repo_id : Z) (db : database) : bytes :=
  match refs db !! (repo_id, bs "HEAD") with
  | None => []
  | Some row =>
      match ref_symbolic row, ref_oid row with
      | Some target, _ =>
          match refs db !! (repo_id, target) with
          | Some {| ref_oid := Some _ |} =>
              bs "@" ++ target ++ bs " HEAD" ++ LF
          | _ => []
          end
      | None, Some oid => hex_encode oid ++ bs " HEAD" ++ LF
      | None, None => []
      end
  end.

Definition listing (repo_id : Z) (db : database) : bytes :=
  concat (map ref_line (refs_of repo_id db)) ++ head_line repo_id db ++ LF.

End Helper.

(** ** Data for the worked examples *)

Module Example.
Import Pg.

(** A database with the repository 1 and nothing else. *)
Definition db_empty_repo : database :=
  {| repositories := {[ 1 := bs "myrepo" ]};
     objects := ∅; refs := ∅; reflog := [] |}.

Definition conn_ok : PGconn :=
  {| stored := db_empty_repo; txn := Idle; faults := [] |}.

(** The same connection when the server fails the next statement. *)
Definition conn_failing : PGconn :=
  {| stored := db_empty_repo; txn := Idle; faults := [true] |}.

Definition pg1 : Odb.postgres_odb_backend := {| Odb.repo_id := 1 |}.

(** Repository 1 holding the blob [hello] under its OID. *)
Definition db_hello : database :=
  {| repositories := {[ 1 := bs "myrepo" ]};
     objects := {[ (1, GitOid.hello_oid) :=
                     {| obj_type := 3; obj_size := 5;
                        obj_content := bs "hello" |} ]};
     refs := ∅; reflog := [] |}.

Definition conn_hello : PGconn :=
  {| stored := db_hello; txn := Idle; faults := [] |}.

(** The OIDs [aa...], [bb...], [cc...] of the ref tests. *)
Definition oid_aa : bytes := repeat xaa 20.
Definition oid_bb : bytes := repeat xbb 20.
Definition oid_cc : bytes := repeat xcc 20.

(** Repository 1 with [refs/heads/main] at [aa...] and [HEAD] pointing to
    it. *)
Definition db_refs : database :=
  {| repositories := {[ 1 := bs "myrepo" ]};
     objects := ∅;
     refs := {[ (1, bs "refs/heads/main") :=
                  {| ref_oid := Some oid_aa; ref_symbolic := None |};
                (1, bs "HEAD") :=
                  {| ref_oid := None;
                     ref_symbolic := Some (bs "refs/heads/main") |} ]};
     reflog := [] |}.

Definition conn_refs : PGconn :=
  {| stored := db_refs; txn := Idle; faults := [] |}.

Definition refdb1 : Refdb.postgres_refdb_backend := {| Refdb.repo_id := 1 |}.

End Example.

(* ================================================================== *)
(** ** backend/odb_postgres.c: [foreach] *)

Module OdbForeach.
Import Pg Odb.

(** The loop of [pg_odb_foreach] over the rows of the result. The callback
    [cb] gets the OID copied from the row and its payload; it may use the
    connection, as the callbacks of the callers do, and its return value
    other than 0 ends the loop. *)
Fixpoint foreach_rows {S : Type}
  (cb : bytes -> S -> PGconn -> Z * S * PGconn)
  (rows : list bytes) (payload : S) (c : PGconn) : Z * S * PGconn :=
  match rows with
  | [] => (0, payload, c)
  | row :: rows' =>
      let '(error, payload, c) := cb (oid_param row) payload c in
      if negb (error =? 0) then (error, payload, c)
      else foreach_rows cb rows' payload c
  end.

Definition pg_odb_foreach {S : Type} (pg : postgres_odb_backend)
  (cb : bytes -> S -> PGconn -> Z * S * PGconn) (payload : S) (c : PGconn)
  : Z * S * PGconn :=
  let '(res, c) := PQexecParams c (select_oids (repo_id pg)) in
  match res with
  | Error _ => (-1, payload, c)
  | Ok rows => foreach_rows cb rows payload c
  end.

End OdbForeach.
(** ** What the operations leave alone *)

Module Frame.
Import Pg.

(** A property of the database that holds on a connection: of the
    committed database and of the working copy of an open transaction. *)
Definition conn_inv (P : database -> Prop) (c : PGconn) : Prop :=
  P (stored c) /\ match txn c with InTxn w => P w | _ => True end.

(** A statement that keeps a property of the database. *)
Definition keeps (P : database -> Prop) {R} (stmt : statement R) : Prop :=
  forall db r db', P db -> stmt db = Ok (r, db') -> P db'.

(** [db] is [db0] with at most a row added to [objects] under [key]: the
    other tables are the same and every object of [db0] is in [db]
    unchanged. *)
Definition objects_grow (key : Z * bytes) (db0 db : database) : Prop :=
  repositories db = repositories db0 /\ refs db = refs db0 /\
  reflog db = reflog db0 /\
  (forall k row, objects db0 !! k = Some row -> objects db !! k = Some row) /\
  (forall k, k <> key -> objects db !! k = objects db0 !! k).

(** [db] differs from [db0] at most in the refs and the reflog rows of the
    repository [repo]. *)
Definition same_outside (repo : Z) (db0 db : database) : Prop :=
  repositories db = repositories db0 /\ objects db = objects db0 /\
  (forall r name, r <> repo -> refs db !! (r, name) = refs db0 !! (r, name)) /\
  List.filter (fun row => negb (bool_decide (rl_repo_id row = repo)))
    (reflog db)
  = List.filter (fun row => negb (bool_decide (rl_repo_id row = repo)))
      (reflog db0).

(** [db] is the committed database of [c], or the database its session
    sees, up to refs and reflog rows of [repo]. *)
Definition near (repo : Z) (c : PGconn) (db : database) : Prop :=
  same_outside repo (stored c) db \/ same_outside repo (visible c) db.

End Frame.
(** ** backend/refdb_postgres.c: the iterator and the reflog callbacks *)

Module RefdbIter.
Import Pg Refdb.

Definition GIT_ITEROVER : Z := -31.

(** [typedef struct { git_reference_iterator parent;
    postgres_refdb_backend *backend; PGresult *result; int current;
    int total; } postgres_refdb_iterator;] the rows of [result] are those of
    a text-format query for [name, oid, symbolic]. *)
Record postgres_refdb_iterator := {
  iter_result : list (bytes * ref_row);
  current : Z;
  total : Z
}.

(** The pattern given to LIKE: the glob with every [*] replaced by [%]. *)
Definition like_of_glob (glob : bytes) : bytes :=
  map (fun ch => if Byte.eqb ch x2a then x25 else ch) (cstr glob).

(** [SELECT name, oid, symbolic FROM refs WHERE repo_id = $1
     AND name LIKE $2 ORDER BY name]; [like name pattern] stands for the
    LIKE operator of the server. *)
Definition select_refs_like (like : bytes -> bytes -> bool) (repo_id : Z)
  (pattern : bytes) : statement (list (bytes * ref_row)) :=
  fun db =>
    Ok (merge_sort name_le
          (map (fun kv : (Z * bytes) * ref_row => (kv.1.2, kv.2))
               (List.filter
                  (fun kv : (Z * bytes) * ref_row =>
                     bool_decide (kv.1.1 = repo_id) && like kv.1.2 pattern)
                  (map_to_list (refs db)))), db).

(** [pg_refdb_iterator]: [glob] is [None] for a null pointer. *)
Definition pg_refdb_iterator (like : bytes -> bytes -> bool)
  (backend : postgres_refdb_backend) (glob : option bytes) (c : PGconn)
  : ret postgres_refdb_iterator * PGconn :=
  let '(res, c) :=
    match glob with
    | Some g =>
        if (0 <? strlen g)%nat
        then PQexecParams c
               (select_refs_like like (repo_id backend) (like_of_glob g))
        else PQexecParams c (select_refs_ordered (repo_id backend))
    | None => PQexecParams c (select_refs_ordered (repo_id backend))
    end in
  match res with
  | Error _ => (Failed (-1), c)
  | Ok rows =>
      (Done {| iter_result := rows; current := 0;
               total := to_int (Z.of_nat (length rows)) |}, c)
  end.

(** [pg_refdb_iter_next]: the row is read with [ref_from_result] and no
    name override; the index moves on only when that succeeds. A [current]
    below [total] is the index of a row; for an index outside the result
    libpq reports every column as NULL. *)
Definition pg_refdb_iter_next (iter : postgres_refdb_iterator)
  : ret git_reference * postgres_refdb_iterator :=
  if current iter >=? total iter then (Failed GIT_ITEROVER, iter)
  else
    match iter_result iter !! Z.to_nat (current iter) with
    | None => (Failed (-1), iter)
    | Some (name, row) =>
        match ref_from_result name
                (bytea_field TextFormat <$> ref_oid row)
                (ref_symbolic row) with
        | Failed _ => (Failed (-1), iter)
        | Done ref =>
            (Done ref,
             {| iter_result := iter_result iter;
                current := to_int (current iter + 1);
                total := total iter |})
        end
    end.

(** [pg_refdb_iter_next_name]; a [current] below [total] is the index of
    a row. *)
Definition pg_refdb_iter_next_name (iter : postgres_refdb_iterator)
  : ret bytes * postgres_refdb_iterator :=
  if current iter >=? total iter then (Failed GIT_ITEROVER, iter)
  else
    match iter_result iter !! Z.to_nat (current iter) with
    | None => (Failed GIT_ITEROVER, iter)
    | Some (name, _) =>
        (Done name,
         {| iter_result := iter_result iter;
            current := to_int (current iter + 1);
            total := total iter |})
    end.

(** The names a caller gets by calling [next_name] until it does not
    return 0, at most [fuel] times. *)
Fixpoint next_names (fuel : nat) (iter : postgres_refdb_iterator)
  : list bytes :=
  match fuel with
  | O => []
  | S fuel' =>
      match pg_refdb_iter_next_name iter with
      | (Done name, iter') => name :: next_names fuel' iter'
      | (Failed _, _) => []
      end
  end.

(** The references a caller gets by calling [next] until it does not
    return 0, at most [fuel] times. *)
Fixpoint next_refs (fuel : nat) (iter : postgres_refdb_iterator)
  : list git_reference :=
  match fuel with
  | O => []
  | S fuel' =>
      match pg_refdb_iter_next iter with
      | (Done ref, iter') => ref :: next_refs fuel' iter'
      | (Failed _, _) => []
      end
  end.

End RefdbIter.

Module RefdbLog.
Import Pg Refdb.

(** [SELECT 1 FROM reflog WHERE repo_id = $1 AND ref_name = $2 LIMIT 1]:
    the number of rows. *)
Definition select_reflog_limit_1 (repo_id : Z) (name : bytes) : statement Z :=
  fun db =>
    Ok (if existsb
             (fun r => bool_decide (rl_repo_id r = repo_id
                                    /\ rl_ref_name r = name))
             (reflog db)
        then 1 else 0, db).

Definition pg_refdb_has_log (backend : postgres_refdb_backend)
  (refname : bytes) (c : PGconn) : Z * PGconn :=
  let '(res, c) :=
    PQexecParams c (select_reflog_limit_1 (repo_id backend) refname) in
  match res with
  | Error _ => (-1, c)
  | Ok n => (if 0 <? n then 1 else 0, c)
  end.

Definition pg_refdb_reflog_rename (backend : postgres_refdb_backend)
  (old_name new_name : bytes) (c : PGconn) : Z * PGconn :=
  let '(res, c) :=
    PQexecParams c (rename_reflog new_name (repo_id backend) old_name) in
  match res with
  | Error _ => (-1, c)
  | Ok _ => (0, c)
  end.

Definition pg_refdb_reflog_delete (backend : postgres_refdb_backend)
  (name : bytes) (c : PGconn) : Z * PGconn :=
  let '(res, c) :=
    PQexecParams c (delete_reflog (repo_id backend) name) in
  match res with
  | Error _ => (-1, c)
  | Ok _ => (0, c)
  end.

(** The rows of the reflog of a ref. *)
Definition reflog_of (repo_id : Z) (name : bytes) (db : database)
  : list reflog_row :=
  List.filter
    (fun r => bool_decide (rl_repo_id r = repo_id /\ rl_ref_name r = name))
    (reflog db).

End RefdbLog.
(** ** sql/functions/ref_manage.sql and the prefix read of
    object_read_write.sql *)

Module SqlRefs.
Import Pg.

(** SQL's three-valued logic: [None] is NULL (unknown). *)
Definition sql_not (a : option bool) : option bool := negb <$> a.

Definition sql_and (a b : option bool) : option bool :=
  match a, b with
  | Some false, _ | _, Some false => Some false
  | Some true, Some true => Some true
  | _, _ => None
  end.

Definition sql_or (a b : option bool) : option bool :=
  match a, b with
  | Some true, _ | _, Some true => Some true
  | Some false, Some false => Some false
  | _, _ => None
  end.

(** [a = b] and [a != b] on [bytea]: NULL when an operand is NULL. *)
Definition sql_eq (a b : option bytes) : option bool :=
  match a, b with
  | Some x, Some y => Some (bool_decide (x = y))
  | _, _ => None
  end.

Definition sql_ne (a b : option bytes) : option bool :=
  sql_not (sql_eq a b).

(** [a IS NULL] and [a IS NOT NULL] are never NULL. *)
Definition is_null {A} (a : option A) : option bool :=
  Some (negb (bool_decide (is_Some a))).
Definition is_not_null {A} (a : option A) : option bool :=
  Some (bool_decide (is_Some a)).

(** [IF cond THEN]: the branch is taken when [cond] is true, not when it is
    false or NULL. *)
Definition sql_true (a : option bool) : bool :=
  match a with Some true => true | _ => false end.

(** ['\x0000000000000000000000000000000000000000'::bytea] *)
Definition zero_oid : option bytes := Some (repeat x00 20).

(** [INSERT INTO refs (repo_id, name, oid) VALUES ($1, $2, $3)]: the
    column [symbolic] is NULL; the CHECK is tested before the primary key
    and the foreign key. *)
Definition insert_ref (repo_id : Z) (name : bytes) (oid : option bytes)
  : statement unit :=
  fun db =>
    let row := {| ref_oid := oid; ref_symbolic := None |} in
    if negb (refs_check row) then Error check_violation
    else
      match refs db !! (repo_id, name) with
      | Some _ => Error unique_violation
      | None =>
          match repositories db !! repo_id with
          | None => Error fk_violation
          | Some _ =>
              Ok (tt, set_refs db (<[(repo_id, name) := row]> (refs db)))
          end
      end.

(** [UPDATE refs SET oid = $3, symbolic = NULL
     WHERE repo_id = $1 AND name = $2] *)
Definition update_ref_oid (repo_id : Z) (name : bytes) (oid : option bytes)
  : statement unit :=
  fun db =>
    match refs db !! (repo_id, name) with
    | None => Ok (tt, db)
    | Some _ =>
        let row := {| ref_oid := oid; ref_symbolic := None |} in
        if negb (refs_check row) then Error check_violation
        else Ok (tt, set_refs db (<[(repo_id, name) := row]> (refs db)))
    end.

(** [git_ref_update(p_repo_id integer, p_name text, p_new_oid bytea,
    p_old_oid bytea DEFAULT NULL, p_force boolean DEFAULT false)
    RETURNS boolean]; [p_repo_id] and [p_name] are values, the other
    arguments may be NULL. *)
Definition git_ref_update (p_repo_id : Z) (p_name : bytes)
  (p_new_oid p_old_oid : option bytes) (p_force : option bool)
  : statement bool :=
  fun db =>
    match refs db !! (p_repo_id, p_name) with
    | None =>
        (* IF NOT FOUND *)
        if sql_true (sql_and (is_not_null p_old_oid)
                             (sql_ne p_old_oid zero_oid))
        then Ok (false, db)
        else
          rbind (insert_ref p_repo_id p_name p_new_oid db)
                (fun '(_, db') => Ok (true, db'))
    | Some row =>
        let v_current_oid := ref_oid row in
        if sql_true
             (sql_and
                (sql_and
                   (sql_and (sql_not p_force) (is_not_null p_old_oid))
                   (sql_ne p_old_oid zero_oid))
                (sql_ne v_current_oid p_old_oid))
        then Ok (false, db)
        else if sql_true (sql_or (is_null p_new_oid)
                                 (sql_eq p_new_oid zero_oid))
        then rbind (delete_ref p_repo_id p_name db)
                   (fun '(_, db') => Ok (true, db'))
        else rbind (update_ref_oid p_repo_id p_name p_new_oid db)
                   (fun '(_, db') => Ok (true, db'))
    end.

(** [git_ref_set_symbolic(p_repo_id integer, p_name text, p_target text)
    RETURNS void]: [INSERT INTO refs (repo_id, name, symbolic) VALUES (...)
    ON CONFLICT (repo_id, name) DO UPDATE SET oid = NULL,
    symbolic = p_target]. *)
Definition git_ref_set_symbolic (p_repo_id : Z) (p_name : bytes)
  (p_target : option bytes) : statement unit :=
  upsert_ref p_repo_id p_name {| ref_oid := None; ref_symbolic := p_target |}.

Definition negative_substring_length : pg_error :=
  ereport ERRCODE_INVALID_PARAMETER_VALUE
          "negative substring length not allowed".

(** [git_object_read_prefix(p_repo_id integer, p_prefix bytea,
    p_prefix_len integer)]: [v_prefix_bytes := p_prefix_len / 2] is the
    integer division, which truncates; rows are selected by
    [substring(o.oid FROM 1 FOR v_prefix_bytes)
     = substring(p_prefix FROM 1 FOR v_prefix_bytes)], and [substring]
    refuses a negative length. *)
Definition git_object_read_prefix (p_repo_id : Z) (p_prefix : bytes)
  (p_prefix_len : Z) : statement (list (bytes * object_row)) :=
  fun db =>
    let v_prefix_bytes := Z.quot p_prefix_len 2 in
    if v_prefix_bytes <? 0 then Error negative_substring_length
    else
      Ok (map (fun kv : (Z * bytes) * object_row => (kv.1.2, kv.2))
              (List.filter
                 (fun kv : (Z * bytes) * object_row =>
                    bool_decide
                      (kv.1.1 = p_repo_id /\
                       firstn (Z.to_nat v_prefix_bytes) kv.1.2
                       = firstn (Z.to_nat v_prefix_bytes) p_prefix))
                 (map_to_list (objects db))), db).

End SqlRefs.
(** ** ext/git_oid.c: the comparison operators *)

Module GitOidOps.
Import GitOid.

(** [memcmp(a, b, n)]: the bytes are compared as [unsigned char] up to the
    first two that differ, and the result is their difference, as the C
    library computes it (for [aa...] against [bb...] it is -17); it is 0
    when the [n] bytes are the same. The six operators test its sign;
    [git_oid_cmp] returns it as it is. *)
Fixpoint memcmp (a b : bytes) (n : nat) : Z :=
  match n with
  | O => 0
  | S n' =>
      let x := uchar (hd x00 a) in
      let y := uchar (hd x00 b) in
      if x =? y then memcmp (tl a) (tl b) n'
      else x - y
  end.

Definition git_oid_eq (a b : GitOid) : bool := memcmp a b 20 =? 0.
Definition git_oid_ne (a b : GitOid) : bool := negb (memcmp a b 20 =? 0).
Definition git_oid_lt (a b : GitOid) : bool := memcmp a b 20 <? 0.
Definition git_oid_le (a b : GitOid) : bool := memcmp a b 20 <=? 0.
Definition git_oid_gt (a b : GitOid) : bool := memcmp a b 20 >? 0.
Definition git_oid_ge (a b : GitOid) : bool := memcmp a b 20 >=? 0.
Definition git_oid_cmp (a b : GitOid) : Z := memcmp a b 20.

End GitOidOps.

(** ** The format [git_tree_entries_c] reads *)

Module TreeFormat.
Import TreeParse.

(** One entry of a tree object, as the comment of [git_tree_entries_c]
    gives it: the mode, a space, the name, a NUL byte, the 20 bytes of the
    OID. *)
Definition tree_record (e : tree_entry) : bytes :=
  mode e ++ [x20] ++ name e ++ [x00] ++ entry_oid e.

Definition tree_content (entries : list tree_entry) : bytes :=
  concat (map tree_record entries).

(** An entry whose fields can be told apart in that format. *)
Definition well_formed (e : tree_entry) : Prop :=
  (x20 ∉ mode e) /\ (x00 ∉ mode e) /\ (x00 ∉ name e) /\
  length (entry_oid e) = 20%nat.

End TreeFormat.

(** ** backend/remote_helper.c: the URL and the push lines *)

Module HelperParse.

(** The index of the last and of the first occurrence of [c] in [s]. *)
Fixpoint rindex (c : byte) (s : bytes) : option nat :=
  match s with
  | [] => None
  | x :: s' =>
      match rindex c s' with
      | Some i => Some (S i)
      | None => if Byte.eqb x c then Some O else None
      end
  end.

Fixpoint index (c : byte) (s : bytes) : option nat :=
  match s with
  | [] => None
  | x :: s' =>
      if Byte.eqb x c then Some O
      else match index c s' with
           | Some i => Some (S i)
           | None => None
           end
  end.

(** [strrchr(s, c)] and [strchr(s, c)] for a [c] other than NUL: the
    offset of the pointer returned, [None] for a null pointer. *)
Definition strrchr (s : bytes) (c : byte) : option nat := rindex c (cstr s).
Definition strchr (s : bytes) (c : byte) : option nat := index c (cstr s).

(** [parse_url]: the strings stored through [conninfo] and [reponame], or
    [None] when [die] ends the process. *)
Definition parse_url (url : bytes) : option (bytes * bytes) :=
  match strrchr url x2f with
  | None => None
  | Some O => None
  | Some ci_len =>
      let conninfo := firstn ci_len url in
      let reponame := cstr (skipn (S ci_len) url) in
      if (strlen reponame =? 0)%nat then None
      else Some (conninfo, reponame)
  end.

(** [typedef struct { char src[512]; char dst[512]; int force; }
    push_spec;] with the two arrays as the strings they hold. *)
Record push_spec := { src : bytes; dst : bytes; force : Z }.

(** [strncpy(out, s, sizeof(out) - 1); out[sizeof(out) - 1] = 0] for an
    array of 512 bytes. *)
Definition strncpy_511 (s : bytes) : bytes := firstn 511 (cstr s).

Definition parse_push_spec (raw : bytes) : push_spec :=
  let plus := Byte.eqb (hd x00 raw) x2b in
  let force := if plus then 1 else 0 in
  let p := if plus then tl raw else raw in
  match strchr p x3a with
  | None => {| src := []; dst := strncpy_511 p; force := force |}
  | Some src_len =>
      {| src := firstn (if (512 <=? src_len)%nat then 511 else src_len) p;
         dst := strncpy_511 (skipn (S src_len) p);
         force := force |}
  end.

End HelperParse.

(** ** The remote helper: the refs of a push *)

Module HelperPush.
Import Pg Refdb Helper HelperParse.

(** The body of the loop [Update refs] of [cmd_push], on what was printed
    so far and the connection. [resolve src] is the OID the local
    repository gives for the source ([git_reference_lookup] and
    [git_reference_resolve], or else [git_oid_fromstr]), [None] when
    neither does; the row stores [decode(oid_hex, 'hex')] for the
    [oid_hex] that [git_oid_tostr] writes, which is that OID.
    [PQerrorMessage] is the text the library keeps for a failed
    statement. *)
Definition push_ref (resolve : bytes -> option bytes)
  (PQerrorMessage : pg_error -> bytes) (repo_id : Z)
  (st : bytes * PGconn) (spec : push_spec) : bytes * PGconn :=
  let '(out, c) := st in
  if (strlen (src spec) =? 0)%nat then
    let '(_, c) := PQexecParams c (delete_ref repo_id (dst spec)) in
    (out ++ bs "ok " ++ dst spec ++ LF, c)
  else
    match resolve (src spec) with
    | None =>
        (out ++ bs "error " ++ dst spec ++ bs " cannot resolve '"
             ++ src spec ++ bs "'" ++ LF, c)
    | Some oid =>
        let '(res, c) :=
          PQexecParams c
            (upsert_ref repo_id (dst spec)
               {| ref_oid := Some oid; ref_symbolic := None |}) in
        match res with
        | Ok _ => (out ++ bs "ok " ++ dst spec ++ LF, c)
        | Error e =>
            (out ++ bs "error " ++ dst spec ++ bs " " ++ PQerrorMessage e
                 ++ LF, c)
        end
    end.

(** The block [Ensure HEAD exists]. *)
Definition ensure_head (repo_id : Z) (specs : list push_spec) (c : PGconn)
  : PGconn :=
  let '(res, c) := PQexecParams c (count_ref repo_id (bs "HEAD")) in
  match res, specs with
  | Ok 0, first :: _ =>
      (PQexecParams c
         (insert_ref_if_absent repo_id (bs "HEAD")
            {| ref_oid := None; ref_symbolic := Some (dst first) |})).2
  | _, _ => c
  end.

(** [cmd_push] from the comment [Update refs] on, for the specs read from
    the push lines: what it prints and the connection it leaves. *)
Definition cmd_push_refs (resolve : bytes -> option bytes)
  (PQerrorMessage : pg_error -> bytes) (repo_id : Z)
  (specs : list push_spec) (c : PGconn) : bytes * PGconn :=
  let '(out, c) :=
    fold_left (push_ref resolve PQerrorMessage repo_id) specs ([], c) in
  (out ++ LF, ensure_head repo_id specs c).

End HelperPush.

(** * Theorems *)
(* ================================================================== *)

Section OidCodec.
Import GitOid.

Lemma hex_to_nibble_spec (c : byte) :
  (0 <=? hex_to_nibble c) = is_hex_digit c.
Proof. destruct c; reflexivity. Qed.

Lemma hex_to_nibble_neg (c : byte) :
  (hex_to_nibble c <? 0) = negb (is_hex_digit c).
Proof. destruct c; reflexivity. Qed.

Lemma hex_to_nibble_tolower (c : byte) :
  hex_to_nibble (tolower c) = hex_to_nibble c.
Proof. destruct c; reflexivity. Qed.

Lemma hex_to_nibble_toupper (c : byte) :
  hex_to_nibble (toupper c) = hex_to_nibble c.
Proof. destruct c; reflexivity. Qed.

Lemma tolower_nul (c : byte) : Byte.eqb (tolower c) x00 = Byte.eqb c x00.
Proof. destruct c; reflexivity. Qed.

Lemma toupper_nul (c : byte) : Byte.eqb (toupper c) x00 = Byte.eqb c x00.
Proof. destruct c; reflexivity. Qed.

Lemma nibble_to_hex_lower (n : Z) : is_lower_hex_digit (nibble_to_hex n) = true.
Proof.
  unfold nibble_to_hex.
  assert (0 <= Z.land n 15 < 16) as Hr.
  { change 15 with (Z.ones 4). rewrite Z.land_ones by lia.
    apply Z.mod_pos_bound. lia. }
  assert (Z.to_nat (Z.land n 15) < 16)%nat as Hn by lia.
  revert Hn. generalize (Z.to_nat (Z.land n 15)). intros k Hk.
  do 16 (destruct k as [|k]; [reflexivity|]). lia.
Qed.

Lemma lower_hex_not_nul (c : byte) :
  is_lower_hex_digit c = true -> Byte.eqb c x00 = false.
Proof. destruct c; simpl; intros H; try reflexivity; discriminate H. Qed.

(** One byte survives printing and reading back. *)
Lemma byte_round_trip (b : byte) :
  let hi := hex_to_nibble (nibble_to_hex (Z.shiftr (uchar b) 4)) in
  let lo := hex_to_nibble (nibble_to_hex (Z.land (schar b) 15)) in
  (hi <? 0) || (lo <? 0) = false /\
  to_char (Z.lor (Z.shiftl hi 4) lo) = b.
Proof. destruct b; split; reflexivity. Qed.

Lemma strlen_le (s : bytes) : (strlen s <= length s)%nat.
Proof.
  induction s as [|c s IH]; simpl; [lia|].
  destruct (Byte.eqb c x00); simpl; lia.
Qed.

Lemma strlen_no_nul (s : bytes) :
  forallb (fun c => negb (Byte.eqb c x00)) s = true -> strlen s = length s.
Proof.
  induction s as [|c s IH]; simpl; [reflexivity|].
  destruct (Byte.eqb c x00); simpl; [discriminate|].
  intros H. f_equal. exact (IH H).
Qed.

Lemma strlen_map (f : byte -> byte) (s : bytes) :
  (forall c, Byte.eqb (f c) x00 = Byte.eqb c x00) ->
  strlen (map f s) = strlen s.
Proof.
  intros Hf. induction s as [|c s IH]; simpl; [reflexivity|].
  rewrite Hf. destruct (Byte.eqb c x00); [reflexivity|]. now rewrite IH.
Qed.

Lemma char_at_map (f : byte -> byte) (s : bytes) (i : nat) :
  f x00 = x00 -> char_at (map f s) i = f (char_at s i).
Proof.
  intros H0. unfold char_at. rewrite <- H0 at 1. apply map_nth.
Qed.

Lemma git_oid_in_loop_eq (str : bytes) (idx : list nat) (data : bytes) :
  git_oid_in_loop str idx data =
  if forallb (pair_ok str) idx
  then Ok (data ++ map (pair_byte str) idx)
  else Error invalid_hex.
Proof.
  revert data. induction idx as [|i idx IH]; intros data; simpl.
  - now rewrite app_nil_r.
  - rewrite !hex_to_nibble_neg. unfold pair_ok at 1.
    destruct (is_hex_digit (char_at str (i * 2))); simpl; [|reflexivity].
    destruct (is_hex_digit (char_at str (i * 2 + 1))); simpl; [|reflexivity].
    rewrite IH. rewrite <- app_assoc. reflexivity.
Qed.

Lemma git_oid_in_loop_ext (s1 s2 : bytes) (idx : list nat) (data : bytes) :
  (forall i, hex_to_nibble (char_at s1 i) = hex_to_nibble (char_at s2 i)) ->
  git_oid_in_loop s1 idx data = git_oid_in_loop s2 idx data.
Proof.
  intros H. revert data. induction idx as [|i idx IH]; intros data; simpl.
  - reflexivity.
  - rewrite !H. destruct (_ || _); [reflexivity|]. apply IH.
Qed.

(** All of the first [2 * n] characters are hexadecimal exactly when each of
    the [n] pairs the loop reads is. *)
Lemma forallb_pairs (str : bytes) (n : nat) :
  (2 * n <= length str)%nat ->
  forallb is_hex_digit (firstn (2 * n) str) = forallb (pair_ok str) (seq 0 n).
Proof.
  intros Hlen. apply eq_true_iff_eq.
  rewrite !forallb_forall. split.
  - intros H i Hi. apply in_seq in Hi. unfold pair_ok, char_at.
    apply andb_true_iff; split; apply H.
    + rewrite <- (firstn_skipn (2 * n) str) at 1.
      rewrite app_nth1 by (rewrite length_firstn; lia).
      apply nth_In. rewrite length_firstn. lia.
    + rewrite <- (firstn_skipn (2 * n) str) at 1.
      rewrite app_nth1 by (rewrite length_firstn; lia).
      apply nth_In. rewrite length_firstn. lia.
  - intros H c Hc.
    destruct (In_nth _ _ x00 Hc) as (k & Hk & <-).
    rewrite length_firstn in Hk.
    rewrite nth_firstn. destruct (k <? 2 * n)%nat eqn:E;
      [|apply Nat.ltb_ge in E; lia].
    assert (In (k / 2)%nat (seq 0 n)) as Hin.
    { apply in_seq. split; [lia|].
      assert (k / 2 < n)%nat by (apply Nat.Div0.div_lt_upper_bound; lia).
      lia. }
    specialize (H _ Hin). unfold pair_ok, char_at in H.
    apply andb_true_iff in H as [H1 H2].
    pose proof (Nat.div_mod_eq k 2) as Hdm.
    assert (k mod 2 < 2)%nat as Hm by (apply Nat.mod_upper_bound; lia).
    destruct (k mod 2)%nat as [|[|m]] eqn:Em; [| |lia].
    + replace k with (k / 2 * 2)%nat at 1 by lia. exact H1.
    + replace k with (k / 2 * 2 + 1)%nat at 1 by lia. exact H2.
Qed.

Lemma nth_flat_map_pair {A} (a b : nat -> A) (d : A) (s n i : nat) :
  (i < n)%nat ->
  nth (i * 2) (flat_map (fun j => [a j; b j]) (seq s n)) d = a (s + i)%nat /\
  nth (i * 2 + 1) (flat_map (fun j => [a j; b j]) (seq s n)) d = b (s + i)%nat.
Proof.
  revert s i. induction n as [|n IH]; intros s i Hi; [lia|].
  destruct i as [|i]; simpl.
  - rewrite Nat.add_0_r. split; reflexivity.
  - destruct (IH (S s) i) as [H1 H2]; [lia|].
    rewrite H1, H2. replace (S s + i)%nat with (s + S i)%nat by lia.
    split; reflexivity.
Qed.

Lemma map_nth_seq {A} (l : list A) (d : A) :
  map (fun i => nth i l d) (seq 0 (length l)) = l.
Proof.
  induction l as [|x l IH]; simpl; [reflexivity|].
  f_equal. rewrite <- seq_shift, map_map. exact IH.
Qed.

Lemma length_flat_map_pair {A B} (f : A -> list B) (l : list A) :
  (forall i, length (f i) = 2%nat) ->
  length (flat_map f l) = (2 * length l)%nat.
Proof.
  intros Hf. induction l as [|x l IH]; simpl; [reflexivity|].
  rewrite length_app, Hf, IH. lia.
Qed.

Lemma git_oid_out_length (oid : GitOid) : length (git_oid_out oid) = 40%nat.
Proof.
  unfold git_oid_out. rewrite length_flat_map_pair by reflexivity.
  rewrite length_seq. reflexivity.
Qed.

Lemma git_oid_out_lower (oid : GitOid) :
  forallb is_lower_hex_digit (git_oid_out oid) = true.
Proof.
  unfold git_oid_out. induction (seq 0 20) as [|i l IH]; simpl; [reflexivity|].
  rewrite !nibble_to_hex_lower. exact IH.
Qed.

Lemma git_oid_in_accepts (str : bytes) :
  is_ok (git_oid_in str) = true <->
  strlen str = 40%nat /\ forallb is_hex_digit (cstr str) = true.
Proof.
  unfold git_oid_in, cstr.
  destruct (Nat.eqb (strlen str) 40) eqn:E; simpl negb; cbv iota.
  - apply Nat.eqb_eq in E. rewrite E.
    pose proof (strlen_le str) as Hle.
    pose proof (forallb_pairs str 20) as Hp.
    change (2 * 20)%nat with 40%nat in Hp. rewrite Hp by lia.
    rewrite git_oid_in_loop_eq.
    destruct (forallb (pair_ok str) (seq 0 20)); simpl; intuition congruence.
  - apply Nat.eqb_neq in E. simpl. intuition congruence.
Qed.

Lemma git_oid_in_case (f : byte -> byte) (str : bytes) :
  f x00 = x00 ->
  (forall c, Byte.eqb (f c) x00 = Byte.eqb c x00) ->
  (forall c, hex_to_nibble (f c) = hex_to_nibble c) ->
  git_oid_in (map f str) = git_oid_in str.
Proof.
  intros H0 Hn Hh. unfold git_oid_in. rewrite strlen_map by exact Hn.
  destruct (negb _); [reflexivity|].
  apply git_oid_in_loop_ext. intros i. rewrite char_at_map by exact H0.
  apply Hh.
Qed.

Lemma git_oid_round_trip (oid : GitOid) :
  length oid = 20%nat -> git_oid_in (git_oid_out oid) = Ok oid.
Proof.
  intros Hlen. unfold git_oid_in.
  rewrite strlen_no_nul.
  2:{ pose proof (git_oid_out_lower oid) as H.
      rewrite forallb_forall in H. apply forallb_forall. intros c Hc.
      rewrite (lower_hex_not_nul c (H c Hc)). reflexivity. }
  rewrite git_oid_out_length. simpl negb. cbv iota.
  rewrite git_oid_in_loop_eq.
  assert (forall i, (i < 20)%nat ->
            pair_ok (git_oid_out oid) i = true /\
            pair_byte (git_oid_out oid) i = nth i oid x00) as Hpair.
  { intros i Hi. unfold pair_ok, pair_byte, char_at, git_oid_out.
    destruct (nth_flat_map_pair
                (fun j => nibble_to_hex (Z.shiftr (uchar (nth j oid x00)) 4))
                (fun j => nibble_to_hex (Z.land (schar (nth j oid x00)) 15))
                x00 0 20 i Hi) as [H1 H2].
    cbv beta in H1, H2. rewrite H1, H2. simpl Nat.add.
    destruct (byte_round_trip (nth i oid x00)) as [Hok Hb].
    cbv zeta in Hok, Hb. split; [|exact Hb].
    rewrite <- !hex_to_nibble_spec.
    apply orb_false_iff in Hok as [Ha Hl].
    apply Z.ltb_ge in Ha, Hl.
    apply andb_true_iff; split; apply Z.leb_le; assumption. }
  assert (forallb (pair_ok (git_oid_out oid)) (seq 0 20) = true) as ->.
  { apply forallb_forall. intros i Hi. apply in_seq in Hi.
    apply Hpair. lia. }
  cbn [app]. f_equal.
  transitivity (map (fun i => nth i oid x00) (seq 0 20)).
  - apply map_ext_in. intros i Hi. apply in_seq in Hi. apply Hpair. lia.
  - rewrite <- Hlen. apply map_nth_seq.
Qed.

(** C7. The OID codec. [git_oid_in] rejects a string whose length is not 40
    with the length error, rejects a 40-character string holding a character
    outside [0-9a-fA-F] with the hex error, and accepts exactly the strings
    of 40 hexadecimal characters; two strings that differ only in letter case
    parse alike; [git_oid_out] always prints 40 characters of [0-9a-f]; and
    reading back what was printed for a 20-byte OID gives that OID. *)
Theorem git_oid_codec (str str' : bytes) (oid : GitOid) :
  (strlen str <> 40%nat -> git_oid_in str = Error invalid_length) /\
  (strlen str = 40%nat ->
   (exists c, In c (cstr str) /\ is_hex_digit c = false) ->
   git_oid_in str = Error invalid_hex) /\
  (is_ok (git_oid_in str) = true <->
   strlen str = 40%nat /\ forallb is_hex_digit (cstr str) = true) /\
  (map tolower str = map tolower str' -> git_oid_in str = git_oid_in str') /\
  git_oid_in (map toupper str) = git_oid_in str /\
  length (git_oid_out oid) = 40%nat /\
  forallb is_lower_hex_digit (git_oid_out oid) = true /\
  (length oid = 20%nat -> git_oid_in (git_oid_out oid) = Ok oid).
Proof.
  assert (forall s, git_oid_in (map tolower s) = git_oid_in s) as Hlow.
  { intros s. apply git_oid_in_case;
      [reflexivity | exact tolower_nul | exact hex_to_nibble_tolower]. }
  split; [|split; [|split; [|split; [|split; [|split; [|split]]]]]].
  - intros Hlen. unfold git_oid_in.
    destruct (Nat.eqb (strlen str) 40) eqn:E; [|reflexivity].
    apply Nat.eqb_eq in E. contradiction.
  - intros Hlen (c & Hc & Hbad).
    destruct (git_oid_in str) as [o|e] eqn:E.
    + assert (is_ok (git_oid_in str) = true) as Hok by (rewrite E; reflexivity).
      apply git_oid_in_accepts in Hok as [_ Hall].
      rewrite forallb_forall in Hall. rewrite (Hall c Hc) in Hbad.
      discriminate.
    + revert E. unfold git_oid_in. rewrite Hlen. simpl negb. cbv iota.
      rewrite git_oid_in_loop_eq. destruct (forallb _ _); congruence.
  - apply git_oid_in_accepts.
  - intros Heq. rewrite <- (Hlow str), <- (Hlow str'), Heq. reflexivity.
  - apply git_oid_in_case;
      [reflexivity | exact toupper_nul | exact hex_to_nibble_toupper].
  - apply git_oid_out_length.
  - apply git_oid_out_lower.
  - apply git_oid_round_trip.
Qed.

Lemma git_oid_codec_witness :
  git_oid_in (bs "b6fc4c62") = Error invalid_length /\
  git_oid_in (bs "g6fc4c620b67d95f953a5c1c1230aaab5db5a1b0")
    = Error invalid_hex /\
  git_oid_in (bs "B6FC4C620B67D95F953A5C1C1230AAAB5DB5A1B0")
    = git_oid_in hello_hex /\
  git_oid_in (git_oid_out hello_oid) = Ok hello_oid.
Proof.
  destruct (git_oid_codec (bs "b6fc4c62") [] []) as (H1 & _).
  destruct (git_oid_codec (bs "g6fc4c620b67d95f953a5c1c1230aaab5db5a1b0")
              [] []) as (_ & H2 & _).
  destruct (git_oid_codec (bs "B6FC4C620B67D95F953A5C1C1230AAAB5DB5A1B0")
              hello_hex hello_oid) as (_ & _ & _ & H4 & _ & _ & _ & H8).
  split; [|split; [|split]].
  - apply H1. vm_compute. discriminate.
  - apply H2; [reflexivity|].
    exists "g"%byte. split; [left; reflexivity | reflexivity].
  - apply H4. reflexivity.
  - apply H8. reflexivity.
Defined.

End OidCodec.

Section ObjectHashing.
Import ObjectHash.

Example sha1_abc :
  GitOid.git_oid_out (Sha1.SHA1 (bs "abc"))
  = bs "a9993e364706816aba3e25717850c26c9cd0d89d".
Proof. vm_compute. reflexivity. Qed.

Example sha1_two_blocks :
  GitOid.git_oid_out
    (Sha1.SHA1 (bs "abcdbcdecdefdefgefghfghighijhijkijkljklmklmnlmnomnopnopq"))
  = bs "84983e441c3bd26ebaae4aa1f95129e5e54670f1".
Proof. vm_compute. reflexivity. Qed.

Lemma SHA1_length (msg : bytes) : length (Sha1.SHA1 msg) = 20%nat.
Proof. reflexivity. Qed.

Lemma to_int_small (z : Z) : 0 <= z <= INT_MAX -> to_int z = z.
Proof.
  unfold to_int, INT_MAX. intros H.
  rewrite Z.mod_small by lia. lia.
Qed.

Lemma dec_digits_length (fuel : nat) (k : nat) (n : Z) (acc : bytes) :
  (1 <= k)%nat -> 0 <= n < 10 ^ Z.of_nat k ->
  (length (dec_digits fuel n acc) <= length acc + k)%nat.
Proof.
  revert k n acc. induction fuel as [|fuel IH]; intros k n acc Hk Hn; simpl.
  - lia.
  - destruct (n / 10 =? 0) eqn:E; simpl; [lia|].
    apply Z.eqb_neq in E.
    assert (10 <= n) as H10.
    { destruct (Z_lt_le_dec n 10) as [Hlt|Hge]; [|exact Hge].
      rewrite Z.div_small in E by lia. contradiction. }
    destruct k as [|[|k]]; [lia | simpl in Hn; lia |].
    specialize (IH (S k) (n / 10) (to_char (48 + n mod 10) :: acc)).
    simpl length in IH.
    assert (0 <= n / 10 < 10 ^ Z.of_nat (S k)) as Hdiv.
    { split; [apply Z.div_pos; lia|].
      apply Z.div_lt_upper_bound; [lia|].
      replace (Z.of_nat (S (S k))) with (Z.succ (Z.of_nat (S k))) in Hn by lia.
      rewrite Z.pow_succ_r in Hn by lia. lia. }
    specialize (IH ltac:(lia) Hdiv). lia.
Qed.

Lemma decimal_length (n : Z) :
  0 <= n <= INT_MAX -> (length (decimal n) <= 10)%nat.
Proof.
  intros Hn. unfold decimal.
  pose proof (dec_digits_length (S (Z.to_nat (Z.log2 n))) 10 n []) as H.
  simpl length in H. apply H; [lia|]. unfold INT_MAX in Hn.
  change (10 ^ Z.of_nat 10) with 10000000000. lia.
Qed.

Lemma uchar_to_char (z : Z) : 0 <= z < 256 -> uchar (to_char z) = z.
Proof.
  intros Hz. unfold uchar, to_char. rewrite Z.mod_small by lia.
  destruct (Byte.of_N (Z.to_N z)) as [b|] eqn:E.
  - apply Byte.to_of_N in E. rewrite E. lia.
  - apply Byte.of_N_None_iff in E. lia.
Qed.

Lemma dec_value_digits (fuel : nat) (n : Z) (acc : bytes) :
  0 <= n < 2 ^ Z.of_nat fuel ->
  fold_left (fun a c => 10 * a + (uchar c - 48)) (dec_digits fuel n acc) 0
  = fold_left (fun a c => 10 * a + (uchar c - 48)) acc n.
Proof.
  revert n acc. induction fuel as [|fuel IH]; intros n acc Hn.
  - simpl in *. replace n with 0 by lia. reflexivity.
  - cbn [dec_digits].
    assert (0 <= n mod 10 < 10) as Hm by (apply Z.mod_pos_bound; lia).
    pose proof (Z.div_mod n 10 ltac:(lia)) as Hdm.
    destruct (n / 10 =? 0) eqn:E.
    + apply Z.eqb_eq in E. cbn [fold_left].
      rewrite uchar_to_char by lia. f_equal. lia.
    + rewrite IH.
      * cbn [fold_left]. rewrite uchar_to_char by lia. f_equal. lia.
      * split; [apply Z.div_pos; lia|].
        apply Z.div_lt_upper_bound; [lia|].
        replace (Z.of_nat (S fuel)) with (Z.succ (Z.of_nat fuel)) in Hn by lia.
        rewrite Z.pow_succ_r in Hn by lia. lia.
Qed.

(** [decimal] prints a number that reads back as itself. *)
Lemma dec_value_decimal (n : Z) : 0 <= n -> dec_value (decimal n) = n.
Proof.
  intros Hn. unfold dec_value, decimal. rewrite dec_value_digits; [reflexivity|].
  split; [exact Hn|].
  destruct (Z.eq_dec n 0) as [->|Hne]; [reflexivity|].
  rewrite Nat2Z.inj_succ, Z2Nat.id by apply Z.log2_nonneg.
  apply Z.log2_spec. lia.
Qed.

Lemma hash_with_type_name_eq (type_name content : bytes) :
  (length type_name <= 6)%nat ->
  Z.of_nat (length content) <= INT_MAX ->
  hash_with_type_name type_name content =
  Ok (Sha1.SHA1 (type_name ++ bs " " ++ decimal (Z.of_nat (length content))
                 ++ [x00] ++ content)).
Proof.
  intros Hname Hlen. unfold hash_with_type_name, snprintf_s_d.
  rewrite (to_int_small (Z.of_nat (length content))) by lia.
  unfold fmt_d. destruct (Z.of_nat (length content) <? 0) eqn:E;
    [apply Z.ltb_lt in E; lia|].
  pose proof (decimal_length (Z.of_nat (length content)) ltac:(lia)) as Hd.
  set (out := type_name ++ bs " " ++ decimal (Z.of_nat (length content))).
  assert (length out <= 17)%nat as Hout.
  { unfold out. rewrite !length_app. simpl length. lia. }
  rewrite (to_int_small (Z.of_nat (length out))) by (unfold INT_MAX; lia).
  rewrite (to_int_small (Z.of_nat (length out) + 1)) by (unfold INT_MAX; lia).
  unfold EVP_DigestFinal_ex, EVP_DigestUpdate, EVP_DigestInit_ex.
  rewrite (firstn_all2 (Sha1.SHA1 _)) by (rewrite SHA1_length; lia).
  replace (firstn (64 - 1) out) with out
    by (symmetry; apply firstn_all2; simpl; lia).
  replace (Z.to_nat (Z.of_nat (length out) + 1)) with (length (out ++ [x00]))
    by (rewrite length_app; simpl; lia).
  rewrite firstn_all. rewrite Nat2Z.id, firstn_all.
  unfold out. cbn [app]. rewrite <- !app_assoc. reflexivity.
Qed.

(** C1. The object hasher. For the type codes 1 to 4 and a content whose
    length fits C's [int], [git_object_hash_c] returns the SHA-1 of the type
    name, a space, the decimal length of the content (digits that read back
    as the length), a NUL byte and the content, and the digest is 20 bytes
    long; any other type code is refused with the
    invalid-type error; the blob [hello] hashes to b6fc4c62... and the empty
    blob to e69de29b.... *)
Theorem git_object_hash_c_spec (type : Z) (content : bytes) :
  (Z.of_nat (length content) <= INT_MAX ->
   (type = 1 ->
    git_object_hash_c type content = Ok (Sha1.SHA1 (preimage "commit" content)))
   /\ (type = 2 ->
    git_object_hash_c type content = Ok (Sha1.SHA1 (preimage "tree" content)))
   /\ (type = 3 ->
    git_object_hash_c type content = Ok (Sha1.SHA1 (preimage "blob" content)))
   /\ (type = 4 ->
    git_object_hash_c type content = Ok (Sha1.SHA1 (preimage "tag" content))))
  /\ (forall name, length (Sha1.SHA1 (preimage name content)) = 20%nat)
  /\ dec_value (decimal (Z.of_nat (length content))) = Z.of_nat (length content)
  /\ (~ (1 <= type <= 4) ->
      git_object_hash_c type content = Error (invalid_type type))
  /\ hex_of (git_object_hash_c 3 (bs "hello"))
     = Ok (bs "b6fc4c620b67d95f953a5c1c1230aaab5db5a1b0")
  /\ hex_of (git_object_hash_c 3 [])
     = Ok (bs "e69de29bb2d1d6434b8b29ae775ad8c2e48c5391").
Proof.
  split; [|split; [|split; [|split; [|split]]]].
  - intros Hlen.
    split; [|split; [|split]]; intros ->; unfold git_object_hash_c, preimage;
      simpl rbind; apply hash_with_type_name_eq; simpl; lia.
  - intros name. apply SHA1_length.
  - apply dec_value_decimal. lia.
  - intros Hty. unfold git_object_hash_c.
    destruct type as [|p|p]; [reflexivity| |reflexivity].
    destruct p as [[[|[]|]|[|[]|]|]|[[|[]|]|[|[]|]|]|]; try reflexivity; lia.
  - vm_compute. reflexivity.
  - vm_compute. reflexivity.
Qed.

Lemma git_object_hash_c_witness :
  git_object_hash_c 3 (bs "hello") = Ok (Sha1.SHA1 (preimage "blob" (bs "hello")))
  /\ git_object_hash_c 5 (bs "hello") = Error (invalid_type 5).
Proof.
  destruct (git_object_hash_c_spec 3 (bs "hello")) as (H1 & _).
  destruct (git_object_hash_c_spec 5 (bs "hello")) as (_ & _ & _ & H3 & _).
  split.
  - apply H1; [vm_compute; discriminate | reflexivity].
  - apply H3. lia.
Defined.

End ObjectHashing.

Section TreeParsing.
Import TreeParse.

Example tree_single_entry :
  git_tree_entries_c (bs "100644 hello.txt" ++ [x00] ++ GitOid.hello_oid)
  = Some (Ok [ {| mode := bs "100644"; name := bs "hello.txt";
                  entry_oid := GitOid.hello_oid |} ]).
Proof. vm_compute. reflexivity. Qed.

Example tree_one_byte_short :
  git_tree_entries_c
    (bs "100644 hello.txt" ++ [x00] ++ firstn 19 GitOid.hello_oid)
  = Some (Error truncated_oid).
Proof. vm_compute. reflexivity. Qed.

Lemma scan_bounds (c : byte) (l : bytes) (p : Z) :
  p <= scan c l p <= p + Z.of_nat (length l).
Proof.
  revert p. induction l as [|b l IH]; intros p; simpl scan.
  - simpl. lia.
  - destruct (Byte.eqb b c).
    + cbn [length]. lia.
    + specialize (IH (p + 1)). cbn [length]. lia.
Qed.

Lemma find_from_bounds (c : byte) (content : bytes) (p : Z) :
  0 <= p <= Z.of_nat (length content) ->
  p <= find_from c content p <= Z.of_nat (length content).
Proof.
  intros Hp. unfold find_from.
  pose proof (scan_bounds c (skipn (Z.to_nat p) content) p) as H.
  rewrite length_skipn in H. lia.
Qed.

Lemma oid_truncated_spec (null_pos n : Z) :
  0 <= null_pos -> null_pos + 21 <= INT_MAX ->
  oid_truncated null_pos n = true <-> n < null_pos + 21.
Proof.
  intros H0 Hmax. unfold oid_truncated.
  rewrite !to_int_small by lia.
  rewrite andb_true_iff, Z.geb_le, Z.gtb_lt. lia.
Qed.

Lemma length_sub (content : bytes) (off n : Z) :
  0 <= off -> 0 <= n -> off + n <= Z.of_nat (length content) ->
  length (sub content off n) = Z.to_nat n.
Proof.
  intros Ho Hn Hle. unfold sub.
  rewrite length_firstn, length_skipn. lia.
Qed.

(** One call on a state inside a content of admissible length, with the
    positions of the space and of the NUL named. *)
Lemma tree_next_eq (content : bytes) (p : Z) :
  let n := Z.of_nat (length content) in
  let space_pos := find_from x20 content p in
  let null_pos := find_from x00 content (space_pos + 1) in
  n <= MaxAllocSize -> 0 <= p < n ->
  tree_next {| data := content; pos := p |} =
  if space_pos >=? n then Error no_space
  else if null_pos >=? n then Error no_null
  else if null_pos + 21 >? n then Error truncated_oid
  else Ok (ReturnNext
             {| mode := cstr (sub content p (space_pos - p));
                name := cstr (sub content (space_pos + 1)
                                  (null_pos - space_pos - 1));
                entry_oid := sub content (null_pos + 1) 20 |}
             {| data := content; pos := null_pos + 21 |}).
Proof.
  intros n space_pos null_pos Hn Hp. unfold MaxAllocSize in Hn.
  unfold tree_next, len. cbn [data pos]. fold n.
  rewrite (to_int_small n) by (unfold INT_MAX; lia).
  destruct (p <? n) eqn:Hlt; [|apply Z.ltb_ge in Hlt; lia].
  pose proof (find_from_bounds x20 content p ltac:(lia)) as Hsp.
  fold n space_pos in Hsp |- *.
  destruct (space_pos >=? n) eqn:E1; [reflexivity|].
  rewrite Z.geb_leb in E1. apply Z.leb_gt in E1.
  rewrite (to_int_small (space_pos + 1)) by (unfold INT_MAX; lia).
  pose proof (find_from_bounds x00 content (space_pos + 1) ltac:(lia)) as Hnp.
  fold n null_pos in Hnp |- *.
  destruct (null_pos >=? n) eqn:E2; [reflexivity|].
  rewrite Z.geb_leb in E2. apply Z.leb_gt in E2.
  pose proof (oid_truncated_spec null_pos n ltac:(lia)
                ltac:(unfold INT_MAX; lia)) as Ht.
  destruct (oid_truncated null_pos n) eqn:E3.
  - destruct (null_pos + 21 >? n) eqn:E4; [reflexivity|].
    rewrite Z.gtb_ltb in E4. apply Z.ltb_ge in E4.
    destruct Ht as [Ht _]. specialize (Ht eq_refl). lia.
  - destruct (null_pos + 21 >? n) eqn:E4.
    + rewrite Z.gtb_ltb in E4. apply Z.ltb_lt in E4.
      destruct Ht as [_ Ht]. specialize (Ht E4). discriminate.
    + rewrite (to_int_small (space_pos - p)) by (unfold INT_MAX; lia).
      rewrite (to_int_small (null_pos - space_pos)) by (unfold INT_MAX; lia).
      rewrite (to_int_small (null_pos - space_pos - 1))
        by (unfold INT_MAX; lia).
      rewrite (to_int_small (null_pos + 1)) by (unfold INT_MAX; lia).
      rewrite (to_int_small (null_pos + 21)) by (unfold INT_MAX; lia).
      reflexivity.
Qed.

Lemma tree_rows_total (content : bytes) (fuel : nat) (p : Z) :
  Z.of_nat (length content) <= MaxAllocSize -> 0 <= p ->
  (Z.to_nat (Z.of_nat (length content) - p) < fuel)%nat ->
  exists r, tree_rows fuel {| data := content; pos := p |} = Some r /\
    forall rows, r = Ok rows ->
      Forall (fun row => length (entry_oid row) = 20%nat) rows.
Proof.
  intros Hn. revert p. induction fuel as [|fuel IH]; intros p Hp Hfuel; [lia|].
  cbn [tree_rows].
  destruct (Z_lt_le_dec p (Z.of_nat (length content))) as [Hlt|Hge].
  - rewrite tree_next_eq by lia.
    set (space_pos := find_from x20 content p).
    set (null_pos := find_from x00 content (space_pos + 1)).
    destruct (space_pos >=? _) eqn:E1;
      [eexists; split; [reflexivity|discriminate]|].
    destruct (null_pos >=? _) eqn:E2;
      [eexists; split; [reflexivity|discriminate]|].
    destruct (null_pos + 21 >? _) eqn:E3;
      [eexists; split; [reflexivity|discriminate]|].
    rewrite Z.geb_leb in E1, E2. apply Z.leb_gt in E1, E2.
    rewrite Z.gtb_ltb in E3. apply Z.ltb_ge in E3.
    pose proof (find_from_bounds x20 content p ltac:(lia)) as Hsp.
    pose proof (find_from_bounds x00 content (space_pos + 1)
                  ltac:(fold space_pos; lia)) as Hnp.
    fold space_pos in Hsp, Hnp. fold null_pos in Hnp.
    destruct (IH (null_pos + 21) ltac:(lia) ltac:(lia)) as (r & Hr & Hall).
    rewrite Hr. destruct r as [rows|e].
    + eexists; split; [reflexivity|]. intros rows' [= <-].
      constructor; [|apply Hall; reflexivity].
      cbn [entry_oid]. rewrite length_sub by lia. reflexivity.
    + eexists; split; [reflexivity|discriminate].
  - unfold tree_next, len. cbn [data pos].
    unfold MaxAllocSize in Hn.
    rewrite to_int_small by (unfold INT_MAX; lia).
    destruct (p <? _) eqn:E; [apply Z.ltb_lt in E; lia|].
    eexists; split; [reflexivity|]. intros rows [= <-]. constructor.
Qed.

(** C6. The OID tail of a tree entry. In a content no longer than a [bytea]
    can be, at a position where the space and the NUL of the entry are
    found, the parser fails with the truncated-OID error exactly when fewer
    than 20 bytes remain after the NUL, and accepts the entry exactly when
    [null_pos + 21 <= length]; an accepted entry carries the 20 bytes after
    the NUL and the next call starts 21 bytes after it; the two-part bounds
    check of the source equals [null_pos + 21 > length], so a record one
    byte short is refused; and the whole call sequence ends, every row it
    returns holding a 20-byte OID. *)
Theorem tree_entry_oid_bounds (content : bytes) :
  Z.of_nat (length content) <= MaxAllocSize ->
  (forall p,
     let n := Z.of_nat (length content) in
     let st := {| data := content; pos := p |} in
     let space_pos := find_from x20 content p in
     let null_pos := find_from x00 content (space_pos + 1) in
     0 <= p < n -> space_pos < n -> null_pos < n ->
     (tree_next st = Error truncated_oid <-> n - (null_pos + 1) < 20) /\
     (is_ok (tree_next st) = true <-> null_pos + 21 <= n) /\
     (n = null_pos + 20 -> tree_next st = Error truncated_oid) /\
     (null_pos + 21 <= n ->
      exists row,
        tree_next st
        = Ok (ReturnNext row {| data := content; pos := null_pos + 21 |}) /\
        entry_oid row = sub content (null_pos + 1) 20 /\
        length (entry_oid row) = 20%nat)) /\
  (forall null_pos n,
     0 <= null_pos < n -> n <= MaxAllocSize ->
     oid_truncated null_pos n = (null_pos + 21 >? n)) /\
  (exists r,
     git_tree_entries_c content = Some r /\
     forall rows, r = Ok rows ->
       Forall (fun row => length (entry_oid row) = 20%nat) rows).
Proof.
  intros Hn. split; [|split].
  - intros p n st space_pos null_pos Hp Hsp Hnp. unfold st.
    rewrite tree_next_eq by (fold n; lia).
    fold n space_pos null_pos.
    destruct (space_pos >=? n) eqn:E1;
      [rewrite Z.geb_leb in E1; apply Z.leb_le in E1; lia|].
    destruct (null_pos >=? n) eqn:E2;
      [rewrite Z.geb_leb in E2; apply Z.leb_le in E2; lia|].
    pose proof (find_from_bounds x20 content p ltac:(lia)) as Hb1.
    fold space_pos in Hb1.
    pose proof (find_from_bounds x00 content (space_pos + 1) ltac:(lia)) as Hb2.
    fold null_pos in Hb2.
    destruct (null_pos + 21 >? n) eqn:E3; rewrite Z.gtb_ltb in E3.
    + apply Z.ltb_lt in E3. cbn [is_ok].
      split; [|split; [|split]];
        [split; [lia|reflexivity] | split; [discriminate|lia]
         | reflexivity | lia].
    + apply Z.ltb_ge in E3. cbn [is_ok].
      split; [|split; [|split]];
        [split; [discriminate|lia] | split; [lia|reflexivity] | lia |].
      intros _. eexists. split; [reflexivity|]. cbn [entry_oid].
      split; [reflexivity|].
      fold n in Hn. unfold MaxAllocSize in Hn.
      rewrite length_sub by lia. reflexivity.
  - intros null_pos n Hnp Hmax. unfold MaxAllocSize in Hmax.
    pose proof (oid_truncated_spec null_pos n ltac:(lia)
                  ltac:(unfold INT_MAX; lia)) as Ht.
    destruct (oid_truncated null_pos n), (null_pos + 21 >? n) eqn:E;
      rewrite Z.gtb_ltb in E; try reflexivity.
    + apply Z.ltb_ge in E. destruct Ht as [Ht _].
      specialize (Ht eq_refl). lia.
    + apply Z.ltb_lt in E. destruct Ht as [_ Ht].
      specialize (Ht E). discriminate.
  - apply tree_rows_total; [exact Hn|lia|lia].
Qed.

Lemma tree_entry_oid_bounds_witness :
  tree_next {| data := bs "100644 hello.txt" ++ [x00]
                       ++ firstn 19 GitOid.hello_oid;
               pos := 0 |}
  = Error truncated_oid.
Proof.
  destruct (tree_entry_oid_bounds
              (bs "100644 hello.txt" ++ [x00] ++ firstn 19 GitOid.hello_oid))
    as (Hstep & _).
  - vm_compute. discriminate.
  - destruct (Hstep 0) as (_ & _ & H & _).
    + vm_compute. split; [discriminate|reflexivity].
    + vm_compute. reflexivity.
    + vm_compute. reflexivity.
    + apply H. vm_compute. reflexivity.
Defined.

End TreeParsing.

Section ObjectStore.
Import Pg Odb.

Lemma PQexecParams_fails {R} (c : PGconn) (stmt : statement R) :
  statement_fails c = true -> exists e, (PQexecParams c stmt).1 = Error e.
Proof.
  unfold statement_fails, PQexecParams.
  destruct (next_fault c) as [fault rest]. cbn [fst].
  destruct (txn c); intros H; try subst fault; eexists; reflexivity.
Qed.

(** A statement that reads only, sent when nothing fails. *)
Lemma PQexecParams_select {R} (c : PGconn) (q : database -> R) :
  statement_fails c = false ->
  PQexecParams c (fun db => Ok (q db, db))
  = (Ok (q (visible c)),
     {| stored := stored c; txn := txn c; faults := (next_fault c).2 |}).
Proof.
  unfold statement_fails, PQexecParams, visible.
  destruct (next_fault c) as [fault rest]. cbn [fst snd].
  destruct (txn c); intros H; try subst fault; try discriminate; reflexivity.
Qed.

(** C10. [pg_odb_exists] hides a storage failure. When the query fails at
    the database level, [exists] returns 0, which is also what it returns,
    when the query succeeds, for an object that is not stored; [read] on the
    same failing connection returns the error code -1 instead. *)
Theorem pg_odb_exists_hides_failure
    (pg : postgres_odb_backend) (oid : bytes) (c : PGconn) :
  (statement_fails c = true ->
   (pg_odb_exists pg oid c).1 = 0 /\
   (pg_odb_read pg oid c).1 = Failed (-1)) /\
  (statement_fails c = false ->
   objects (visible c) !! (repo_id pg, oid_param oid) = None ->
   (pg_odb_exists pg oid c).1 = 0 /\
   (pg_odb_read pg oid c).1 = Failed GIT_ENOTFOUND) /\
  (statement_fails c = false ->
   is_Some (objects (visible c) !! (repo_id pg, oid_param oid)) ->
   (pg_odb_exists pg oid c).1 = 1).
Proof.
  split; [|split].
  - intros Hf. unfold pg_odb_exists, pg_odb_read.
    destruct (PQexecParams_fails c
                (select_object (repo_id pg) (oid_param oid)) Hf) as [e He].
    destruct (PQexecParams c _) as [res c']. cbn [fst] in He. subst res.
    split; reflexivity.
  - intros Hok Hnone. unfold pg_odb_exists, pg_odb_read, select_object.
    rewrite (PQexecParams_select c
               (fun db => match objects db !! (repo_id pg, oid_param oid) with
                          | Some row => [row] | None => [] end)) by exact Hok.
    rewrite Hnone. split; reflexivity.
  - intros Hok [row Hrow]. unfold pg_odb_exists, select_object.
    rewrite (PQexecParams_select c
               (fun db => match objects db !! (repo_id pg, oid_param oid) with
                          | Some row => [row] | None => [] end)) by exact Hok.
    rewrite Hrow. reflexivity.
Qed.

Lemma pg_odb_exists_hides_failure_witness :
  (pg_odb_exists Example.pg1 GitOid.hello_oid Example.conn_failing).1 = 0 /\
  (pg_odb_exists Example.pg1 GitOid.hello_oid Example.conn_ok).1 = 0.
Proof.
  destruct (pg_odb_exists_hides_failure Example.pg1 GitOid.hello_oid
              Example.conn_failing) as (H1 & _).
  destruct (pg_odb_exists_hides_failure Example.pg1 GitOid.hello_oid
              Example.conn_ok) as (_ & H2 & _).
  split.
  - apply H1. reflexivity.
  - apply H2; reflexivity.
Defined.

Lemma PQexecParams_ok {R} (c : PGconn) (stmt : statement R) :
  statement_fails c = false ->
  PQexecParams c stmt =
  match stmt (visible c) with
  | Ok (r, db') => (Ok r, after_ok c db')
  | Error e => (Error e, after_error c)
  end.
Proof.
  unfold statement_fails, PQexecParams, visible, after_ok, after_error.
  destruct (next_fault c) as [fault rest]. cbn [fst snd].
  destruct (txn c); intros H; try subst fault; try discriminate;
    destruct (stmt _) as [[r db']|e]; reflexivity.
Qed.

Lemma reliable_next_fault (c : PGconn) :
  reliable c = true ->
  (next_fault c).1 = false /\ forallb negb (next_fault c).2 = true.
Proof.
  unfold reliable, next_fault. destruct (faults c) as [|f fs]; simpl.
  - intros _. split; reflexivity.
  - intros H. apply andb_true_iff in H as [Hf Hfs].
    destruct f; [discriminate|]. split; [reflexivity|exact Hfs].
Qed.

Lemma reliable_not_failing (c : PGconn) :
  reliable c = true -> txn c <> Aborted -> statement_fails c = false.
Proof.
  intros Hr Ht. unfold statement_fails.
  destruct (txn c); [| |contradiction]; apply reliable_next_fault, Hr.
Qed.

Lemma after_ok_props (c : PGconn) (db : database) :
  reliable c = true -> txn c <> Aborted ->
  reliable (after_ok c db) = true /\ txn (after_ok c db) <> Aborted /\
  visible (after_ok c db) = db.
Proof.
  intros Hr Ht. destruct (reliable_next_fault c Hr) as [_ Hrest].
  unfold after_ok, reliable, visible.
  destruct (txn c); [| |contradiction]; cbn; (split; [exact Hrest|]);
    split; (discriminate || reflexivity).
Qed.

(** The rows stored under one primary key. *)
Lemma filter_key_absent {K V} `{EqDecision K} (k : K) (l : list (K * V)) :
  k ∉ l.*1 ->
  List.filter (fun kv : K * V => bool_decide (kv.1 = k)) l = [].
Proof.
  induction l as [|[k' v'] l IH]; intros Hnot; [reflexivity|].
  cbn [List.filter fst]. rewrite fmap_cons in Hnot. cbn [fst] in Hnot.
  apply not_elem_of_cons in Hnot as [Hne Hnot].
  rewrite bool_decide_eq_false_2 by congruence. apply IH, Hnot.
Qed.

Lemma filter_key_unique {K V} `{EqDecision K} (k : K) (v : V)
    (l : list (K * V)) :
  NoDup l.*1 -> (k, v) ∈ l ->
  List.filter (fun kv : K * V => bool_decide (kv.1 = k)) l = [(k, v)].
Proof.
  induction l as [|[k' v'] l IH]; intros Hnd Hin.
  - apply elem_of_nil in Hin. contradiction.
  - rewrite fmap_cons in Hnd. cbn [fst] in Hnd.
    apply NoDup_cons in Hnd as [Hnot Hnd].
    cbn [List.filter fst].
    apply elem_of_cons in Hin as [Heq|Hin].
    + injection Heq as <- <-.
      rewrite bool_decide_eq_true_2 by reflexivity.
      f_equal. apply filter_key_absent, Hnot.
    + rewrite bool_decide_eq_false_2.
      * apply IH; assumption.
      * intros ->. apply Hnot.
        apply list_elem_of_fmap. exists (k, v). split; [reflexivity|exact Hin].
Qed.

Lemma count_objects_stored (repo : Z) (oid : bytes) (db : database) :
  is_Some (objects db !! (repo, oid)) -> count_objects repo oid db = 1%nat.
Proof.
  intros [row Hrow]. unfold count_objects.
  rewrite (filter_key_unique (repo, oid) row).
  - reflexivity.
  - apply NoDup_fst_map_to_list.
  - apply elem_of_map_to_list. exact Hrow.
Qed.

Lemma insert_object_stored (repo : Z) (oid : bytes) (row : object_row)
    (db : database) :
  is_Some (repositories db !! repo) ->
  exists db',
    insert_object repo oid row db = Ok (tt, db') /\
    is_Some (objects db' !! (repo, oid)) /\
    repositories db' = repositories db /\
    insert_object repo oid row db' = Ok (tt, db').
Proof.
  intros [nm Hrepo]. unfold insert_object.
  destruct (objects db !! (repo, oid)) as [old|] eqn:E.
  - exists db. rewrite E. eauto.
  - rewrite Hrepo. eexists. split; [reflexivity|].
    cbn [objects set_objects repositories].
    rewrite lookup_insert_eq. eauto.
Qed.

Lemma pg_odb_write_ok (pg : postgres_odb_backend) (oid data : bytes)
    (type : Z) (c : PGconn) :
  reliable c = true -> txn c <> Aborted ->
  is_Some (repositories (visible c) !! repo_id pg) ->
  exists db',
    pg_odb_write pg oid data type c = (0, after_ok c db') /\
    is_Some (objects db' !! (repo_id pg, oid_param oid)) /\
    repositories db' = repositories (visible c) /\
    (is_Some (objects (visible c) !! (repo_id pg, oid_param oid)) ->
     db' = visible c).
Proof.
  intros Hr Ht Hrepo. unfold pg_odb_write.
  rewrite PQexecParams_ok by (apply reliable_not_failing; assumption).
  match goal with
  | |- context [insert_object ?r ?o ?row ?d] =>
      destruct (insert_object_stored r o row d Hrepo)
        as (db' & Hins & Hsome & Hrep & _);
      rewrite Hins; exists db'; repeat split; try assumption;
      intros [old Hold]; revert Hins; unfold insert_object; rewrite Hold;
      congruence
  end.
Qed.

(** C5. Object insertion is idempotent on [(repo_id, oid)]. Through the
    backend's [write], on a connection where no statement fails and whose
    repository exists: both of two writes of the same object return 0, the
    second leaves the database as the first left it, and one row is stored
    under the key. Through the SQL function [git_object_write], for a type
    code from 1 to 4 in an existing repository: both calls return the same
    OID, the hash of the object, the second changes nothing, and one row is
    stored under the key. *)
Theorem object_insert_idempotent
    (pg : postgres_odb_backend) (oid data : bytes) (type : Z) (c : PGconn)
    (p_repo_id p_type : Z) (p_content : bytes) (db : database) :
  (reliable c = true -> txn c <> Aborted ->
   is_Some (repositories (visible c) !! repo_id pg) ->
   let w1 := pg_odb_write pg oid data type c in
   let w2 := pg_odb_write pg oid data type w1.2 in
   w1.1 = 0 /\ w2.1 = 0 /\
   visible w2.2 = visible w1.2 /\ stored w2.2 = stored w1.2 /\
   count_objects (repo_id pg) (oid_param oid) (visible w2.2) = 1%nat) /\
  (1 <= p_type <= 4 -> is_Some (repositories db !! p_repo_id) ->
   exists v_oid db1,
     Sql.git_object_hash p_type p_content = Some v_oid /\
     Sql.git_object_write p_repo_id p_type p_content db = Ok (v_oid, db1) /\
     Sql.git_object_write p_repo_id p_type p_content db1 = Ok (v_oid, db1) /\
     count_objects p_repo_id v_oid db1 = 1%nat).
Proof.
  split.
  - intros Hr Ht Hrepo w1 w2.
    destruct (pg_odb_write_ok pg oid data type c Hr Ht Hrepo)
      as (db1 & Hw1 & Hsome1 & Hrep1 & _).
    destruct (after_ok_props c db1 Hr Ht) as (Hr1 & Ht1 & Hv1).
    assert (is_Some (repositories (visible (after_ok c db1)) !! repo_id pg))
      as Hrepo1 by (rewrite Hv1, Hrep1; exact Hrepo).
    destruct (pg_odb_write_ok pg oid data type (after_ok c db1) Hr1 Ht1 Hrepo1)
      as (db2 & Hw2 & Hsome2 & _ & Hsame).
    rewrite Hv1 in Hsame. specialize (Hsame Hsome1). subst db2.
    destruct (after_ok_props (after_ok c db1) db1 Hr1 Ht1) as (_ & _ & Hv2).
    subst w2 w1. rewrite Hw1. cbn [fst snd]. rewrite Hw2. cbn [fst snd].
    rewrite Hv2, Hv1.
    split; [reflexivity|]. split; [reflexivity|]. split; [reflexivity|].
    split; [|apply count_objects_stored, Hsome1].
    unfold after_ok. destruct (txn c); [| |contradiction]; reflexivity.
  - intros Hty Hrepo.
    assert (exists v_oid, Sql.git_object_hash p_type p_content = Some v_oid)
      as [v_oid Hhash].
    { unfold Sql.git_object_hash, Sql.git_type_name.
      destruct p_type as [|q|q]; [lia| |lia].
      destruct q as [[[|[]|]|[|[]|]|]|[[|[]|]|[|[]|]|]|];
        try lia; eexists; reflexivity. }
    unfold Sql.git_object_write. rewrite Hhash.
    match goal with
    | |- context [insert_object ?r ?o ?row db] =>
        destruct (insert_object_stored r o row db Hrepo)
          as (db1 & Hins & Hsome & _ & Hagain)
    end.
    exists v_oid, db1. rewrite Hins, Hagain. cbn [rbind].
    split; [reflexivity|]. split; [reflexivity|]. split; [reflexivity|].
    apply count_objects_stored, Hsome.
Qed.

Lemma object_insert_idempotent_witness :
  (let w1 := pg_odb_write Example.pg1 GitOid.hello_oid (bs "hello") 3
               Example.conn_ok in
   let w2 := pg_odb_write Example.pg1 GitOid.hello_oid (bs "hello") 3 w1.2 in
   w1.1 = 0 /\ w2.1 = 0 /\
   visible w2.2 = visible w1.2 /\ stored w2.2 = stored w1.2 /\
   count_objects 1 GitOid.hello_oid (visible w2.2) = 1%nat) /\
  (exists v_oid db1,
     Sql.git_object_hash 3 (bs "hello") = Some v_oid /\
     Sql.git_object_write 1 3 (bs "hello") Example.db_empty_repo
     = Ok (v_oid, db1) /\
     Sql.git_object_write 1 3 (bs "hello") db1 = Ok (v_oid, db1) /\
     count_objects 1 v_oid db1 = 1%nat).
Proof.
  destruct (object_insert_idempotent Example.pg1 GitOid.hello_oid
              (bs "hello") 3 Example.conn_ok 1 3 (bs "hello")
              Example.db_empty_repo) as [H1 H2].
  split.
  - apply H1; [reflexivity | discriminate | vm_compute; eauto].
  - apply H2; [lia | vm_compute; eauto].
Defined.

Lemma NoDup_all_equal {A} (x : A) (l : list A) :
  NoDup l -> In x l -> (forall y, In y l -> y = x) -> l = [x].
Proof.
  intros Hnd Hin Hall. destruct l as [|a l]; [destruct Hin|].
  assert (a = x) as -> by (apply Hall; left; reflexivity).
  destruct l as [|b l]; [reflexivity|].
  assert (b = x) as -> by (apply Hall; right; left; reflexivity).
  apply NoDup_cons in Hnd as [Hnot _]. exfalso. apply Hnot. left.
Qed.

(** The rows the prefix query selects, in terms of the table. *)
Lemma prefix_rows_spec (repo : Z) (n : Z) (prefix : bytes) (db : database) :
  let rows := List.filter (prefix_matches repo n prefix)
                (map_to_list (objects db)) in
  NoDup rows /\
  forall k row,
    In (k, row) rows <->
    objects db !! k = Some row /\ k.1 = repo /\
    firstn (Z.to_nat n) k.2 = prefix.
Proof.
  intros rows. split.
  - apply NoDup_ListNoDup, List.NoDup_filter, NoDup_ListNoDup,
      NoDup_map_to_list.
  - intros k row. unfold rows. rewrite filter_In, <- list_elem_of_In.
    rewrite elem_of_map_to_list. unfold prefix_matches. cbn [fst snd].
    rewrite bool_decide_eq_true. tauto.
Qed.

(** [pg_odb_read_prefix] below the full length. The number [n] of leading
    bytes compared is the hex length halved and rounded up; with no stored
    OID of the repository agreeing with the short OID on them the result is
    not-found, with two it is ambiguous, and with exactly one it is that
    object's OID, type, size and content. *)
Theorem pg_odb_read_prefix_short
    (pg : postgres_odb_backend) (short_oid : bytes) (prefix_len : Z)
    (c : PGconn) :
  1 <= prefix_len < 40 -> statement_fails c = false ->
  let n := Z.to_nat ((prefix_len + 1) / 2) in
  let matching (oid : bytes) (row : object_row) :=
    objects (visible c) !! (repo_id pg, oid) = Some row /\
    firstn n oid = firstn n short_oid in
  prefix_len <= 2 * Z.of_nat n < prefix_len + 2 /\
  ((forall oid row, ~ matching oid row) ->
   (pg_odb_read_prefix pg short_oid prefix_len c).1 = Failed GIT_ENOTFOUND) /\
  (forall oid1 row1 oid2 row2,
     matching oid1 row1 -> matching oid2 row2 -> oid1 <> oid2 ->
     (pg_odb_read_prefix pg short_oid prefix_len c).1
     = Failed GIT_EAMBIGUOUS) /\
  (forall oid row,
     matching oid row ->
     (forall oid' row', matching oid' row' -> oid' = oid) ->
     (pg_odb_read_prefix pg short_oid prefix_len c).1
     = Done {| out_oid := Some (oid_param oid);
               object := object_of_row row |}).
Proof.
  intros Hlen Hok n matching.
  assert (byte_len_of prefix_len = (prefix_len + 1) / 2) as Hbl.
  { unfold byte_len_of. apply to_int_small. unfold INT_MAX.
    split; [apply Z.div_pos; lia|].
    apply Z.lt_le_incl, Z.div_lt_upper_bound; lia. }
  assert ((pg_odb_read_prefix pg short_oid prefix_len c).1 =
          match List.filter
                  (prefix_matches (repo_id pg) ((prefix_len + 1) / 2)
                     (firstn n short_oid))
                  (map_to_list (objects (visible c))) with
          | [] => Failed GIT_ENOTFOUND
          | [(k, row)] => Done {| out_oid := Some (oid_param k.2);
                                  object := object_of_row row |}
          | _ :: _ :: _ => Failed GIT_EAMBIGUOUS
          end) as ->.
  { unfold pg_odb_read_prefix.
    destruct (prefix_len =? GIT_OID_SHA1_HEXSIZE) eqn:E;
      [apply Z.eqb_eq in E; unfold GIT_OID_SHA1_HEXSIZE in E; lia|].
    rewrite Hbl. fold n. unfold select_objects_by_prefix.
    rewrite (PQexecParams_select c
               (fun db =>
                  map (fun kv : (Z * bytes) * object_row => (kv.1.2, kv.2))
                      (List.filter
                         (prefix_matches (repo_id pg) ((prefix_len + 1) / 2)
                            (firstn n short_oid))
                         (map_to_list (objects db))))) by exact Hok.
    destruct (List.filter _ _) as [|[k1 r1] [|[k2 r2] l]]; reflexivity. }
  destruct (prefix_rows_spec (repo_id pg) ((prefix_len + 1) / 2)
              (firstn n short_oid) (visible c)) as [Hnd Hin].
  cbv zeta in Hnd, Hin. fold n in Hin.
  assert (forall k row,
            In (k, row)
               (List.filter
                  (prefix_matches (repo_id pg) ((prefix_len + 1) / 2)
                     (firstn n short_oid))
                  (map_to_list (objects (visible c)))) <->
            k.1 = repo_id pg /\ matching k.2 row) as Hin'.
  { intros [r o] row. rewrite Hin. unfold matching. cbn [fst snd].
    split.
    - intros (H1 & -> & H3). auto.
    - intros (-> & H1 & H3). auto. }
  clear Hin.
  revert Hnd Hin'. generalize (List.filter
                  (prefix_matches (repo_id pg) ((prefix_len + 1) / 2)
                     (firstn n short_oid))
                  (map_to_list (objects (visible c)))).
  intros rows Hnd Hin.
  split; [|split; [|split]].
  - unfold n. rewrite Z2Nat.id by (apply Z.div_pos; lia).
    Z.div_mod_to_equations. lia.
  - intros Hnone. destruct rows as [|[k row] rows]; [reflexivity|].
    exfalso. apply (Hnone k.2 row). apply Hin. left. reflexivity.
  - intros oid1 row1 oid2 row2 H1 H2 Hne.
    assert (In ((repo_id pg, oid1), row1) rows) as Hi1
      by (apply Hin; split; [reflexivity|exact H1]).
    assert (In ((repo_id pg, oid2), row2) rows) as Hi2
      by (apply Hin; split; [reflexivity|exact H2]).
    destruct rows as [|[k1 r1] [|[k2 r2] l]]; [destruct Hi1| |reflexivity].
    destruct Hi1 as [E1|[]]. destruct Hi2 as [E2|[]]. congruence.
  - intros oid row Hm Huniq.
    rewrite (NoDup_all_equal ((repo_id pg, oid), row) rows).
    + reflexivity.
    + exact Hnd.
    + apply Hin. split; [reflexivity|exact Hm].
    + intros [[r o] row'] Hy. apply Hin in Hy as [Hr Hm'].
      cbn [fst snd] in Hr, Hm'. subst r.
      assert (o = oid) as -> by (eapply Huniq; exact Hm').
      destruct Hm as [Hl1 _], Hm' as [Hl2 _]. congruence.
Qed.

Lemma pg_odb_read_prefix_short_witness :
  (pg_odb_read_prefix Example.pg1 GitOid.hello_oid 7 Example.conn_hello).1
  = Done {| out_oid := Some GitOid.hello_oid;
            object := {| data_p := bs "hello"; len_p := 5; type_p := 3 |} |}
  /\
  (pg_odb_read_prefix Example.pg1 Example.oid_aa 7 Example.conn_hello).1
  = Failed GIT_ENOTFOUND.
Proof.
  split.
  - destruct (pg_odb_read_prefix_short Example.pg1 GitOid.hello_oid 7
                Example.conn_hello) as (_ & _ & _ & H);
      [lia | reflexivity |].
    apply (H GitOid.hello_oid
             {| obj_type := 3; obj_size := 5; obj_content := bs "hello" |}).
    + split; reflexivity.
    + intros oid' row' [Hl _]. cbn in Hl.
      apply lookup_singleton_Some in Hl as [Hk _]. congruence.
  - destruct (pg_odb_read_prefix_short Example.pg1 Example.oid_aa 7
                Example.conn_hello) as (_ & H & _);
      [lia | reflexivity |].
    apply H. intros oid row [Hl Hp]. cbn in Hl.
    apply lookup_singleton_Some in Hl as [Hk _].
    injection Hk as <-. vm_compute in Hp. discriminate.
Defined.

(** What the full-length path of [pg_odb_read_prefix] returns: the outcome
    of [pg_odb_read], with [out_oid] not written. *)
Lemma pg_odb_read_prefix_full (pg : postgres_odb_backend) (short_oid : bytes)
    (c : PGconn) :
  (pg_odb_read_prefix pg short_oid GIT_OID_SHA1_HEXSIZE c).1 =
  match (pg_odb_read pg short_oid c).1 with
  | Done obj => Done {| out_oid := None; object := obj |}
  | Failed code => Failed code
  end.
Proof.
  unfold pg_odb_read_prefix. rewrite Z.eqb_refl.
  destruct (pg_odb_read pg short_oid c) as [[obj|code] c']; reflexivity.
Qed.

(** C3, at the input where the code departs from the claim: a full-length
    lookup of a stored object returns its type, size and content but leaves
    [out_oid] unwritten, while the same lookup one digit shorter, and
    [pg_odb_exists_prefix] at full length, do return the OID. *)
Theorem pg_odb_read_prefix_full_length_leaves_oid :
  (pg_odb_read_prefix Example.pg1 GitOid.hello_oid 40 Example.conn_hello).1
  = Done {| out_oid := None;
            object := {| data_p := bs "hello"; len_p := 5; type_p := 3 |} |}
  /\
  (pg_odb_read_prefix Example.pg1 GitOid.hello_oid 39 Example.conn_hello).1
  = Done {| out_oid := Some GitOid.hello_oid;
            object := {| data_p := bs "hello"; len_p := 5; type_p := 3 |} |}
  /\
  (pg_odb_exists_prefix Example.pg1 GitOid.hello_oid 40 Example.conn_hello).1
  = Done GitOid.hello_oid.
Proof. vm_compute. repeat split. Qed.

End ObjectStore.

Section RefStore.
Import Pg Refdb.


Lemma keeps_xor_read {R} (q : database -> R) :
  keeps_xor (fun db => Ok (q db, db)).
Proof. intros db r db' H [= _ <-]. exact H. Qed.

Lemma keeps_xor_select_ref repo name : keeps_xor (select_ref repo name).
Proof. apply keeps_xor_read. Qed.

Lemma keeps_xor_count_ref repo name : keeps_xor (count_ref repo name).
Proof. apply keeps_xor_read. Qed.

Lemma keeps_xor_advisory key : keeps_xor (advisory_xact_lock key).
Proof. intros db r db' H [= _ <-]. exact H. Qed.

Lemma keeps_xor_upsert_ref repo name row : keeps_xor (upsert_ref repo name row).
Proof.
  intros db r db' H. unfold upsert_ref.
  destruct (refs_check row) eqn:Hc; cbn [negb]; [|discriminate].
  destruct (refs db !! (repo, name)), (repositories db !! repo);
    try discriminate; intros [= _ <-]; unfold refs_xor; cbn [refs set_refs];
    apply map_Forall_insert_2; assumption.
Qed.

Lemma keeps_xor_delete_ref repo name : keeps_xor (delete_ref repo name).
Proof.
  intros db r db' H. unfold delete_ref.
  destruct (refs db !! (repo, name)); intros [= _ <-]; [|exact H].
  unfold refs_xor. cbn [refs set_refs]. apply map_Forall_delete, H.
Qed.

Lemma keeps_xor_rename_ref new repo old : keeps_xor (rename_ref new repo old).
Proof.
  intros db r db' H. unfold rename_ref.
  destruct (refs db !! (repo, old)) as [row|] eqn:Hold;
    [|intros [= _ <-]; exact H].
  destruct (bool_decide (new = old)); [intros [= _ <-]; exact H|].
  destruct (refs db !! (repo, new)); [discriminate|].
  intros [= _ <-]. unfold refs_xor. cbn [refs set_refs].
  apply map_Forall_insert_2.
  - exact (H _ _ Hold).
  - apply map_Forall_delete, H.
Qed.

Lemma keeps_xor_insert_reflog row : keeps_xor (insert_reflog row).
Proof.
  intros db r db' H. unfold insert_reflog.
  destruct (repositories db !! rl_repo_id row); [|discriminate].
  intros [= _ <-]. exact H.
Qed.

Lemma keeps_xor_delete_reflog repo name : keeps_xor (delete_reflog repo name).
Proof. intros db r db' H [= _ <-]. exact H. Qed.

Lemma keeps_xor_rename_reflog new repo old :
  keeps_xor (rename_reflog new repo old).
Proof. intros db r db' H [= _ <-]. exact H. Qed.

Create HintDb refs_xor_db.
#[local] Hint Resolve keeps_xor_select_ref keeps_xor_count_ref
  keeps_xor_advisory keeps_xor_upsert_ref keeps_xor_delete_ref
  keeps_xor_rename_ref keeps_xor_insert_reflog keeps_xor_delete_reflog
  keeps_xor_rename_reflog : refs_xor_db.






















Lemma PQexecParams_in_txn {R} (c0 c : PGconn) (stmt : statement R) :
  in_txn_of c0 c -> in_txn_of c0 (PQexecParams c stmt).2.
Proof.
  intros [Hs Ht]. unfold PQexecParams, in_txn_of.
  destruct (next_fault c) as [fault rest].
  destruct (txn c) as [|w|]; [contradiction| |].
  - destruct fault; [split; [exact Hs|discriminate]|].
    destruct (stmt w) as [[r w']|e]; split; (exact Hs || discriminate).
  - split; [exact Hs|discriminate].
Qed.

Lemma rolled_back_ROLLBACK (c0 c : PGconn) (code : Z) :
  in_txn_of c0 c -> rolled_back c0 (code, ROLLBACK c).
Proof. intros [Hs _] _. split; [exact Hs|reflexivity]. Qed.

Lemma rolled_back_zero (c0 c : PGconn) : rolled_back c0 (0, c).
Proof. intros H. contradiction. Qed.

Ltac txn_step c0 :=
  match goal with
  | H : in_txn_of c0 ?c |- context [PQexecParams ?c ?stmt] =>
      let Hc := fresh "Hc" in
      pose proof (PQexecParams_in_txn c0 c stmt H) as Hc;
      destruct (PQexecParams c stmt) as [[?|?] ?]; cbn [snd] in Hc
  end.

Ltac txn_case :=
  match goal with
  | |- rolled_back _ (match ?x with _ => _ end) => destruct x
  | |- rolled_back _ (if ?x then _ else _) => destruct x
  | |- in_txn_of _ (snd (match ?x with _ => _ end)) => destruct x
  | |- in_txn_of _ (snd (if ?x then _ else _)) => destruct x
  end.

Ltac txn_done :=
  first [ apply rolled_back_ROLLBACK; assumption
        | apply rolled_back_zero
        | cbn [snd]; assumption ].

Lemma write_reflog_entry_in_txn c0 backend ref_name old_oid new_oid who
    message c :
  in_txn_of c0 c ->
  in_txn_of c0
    (write_reflog_entry backend ref_name old_oid new_oid who message c).2.
Proof.
  intros H. unfold write_reflog_entry.
  repeat first [ solve [txn_done] | txn_step c0 | txn_case ].
Qed.

Lemma COMMIT_in_txn (c0 c : PGconn) :
  in_txn_of c0 c ->
  match COMMIT c with
  | (Ok _, c') => True
  | (Error _, c') => in_txn_of c0 c'
  end.
Proof.
  intros [Hs Ht]. unfold COMMIT. destruct (next_fault c) as [[] rest].
  - split; [exact Hs|exact Ht].
  - exact I.
Qed.

Lemma write_upsert_and_commit_rolled_back c0 backend ref who message old c :
  in_txn_of c0 c ->
  rolled_back c0 (write_upsert_and_commit backend ref who message old c).
Proof.
  intros H. unfold write_upsert_and_commit.
  txn_step c0; [|txn_done].
  pose proof (write_reflog_entry_in_txn c0 backend (git_reference_name ref)
                old (new_oid_of ref) who message _ Hc) as Hr.
  destruct (write_reflog_entry _ _ _ _ _ _ _) as [error c2]. cbn [snd] in Hr.
  destruct (error <? 0); [txn_done|].
  pose proof (COMMIT_in_txn c0 c2 Hr) as Hcm.
  destruct (COMMIT c2) as [[?|?] c3]; txn_done.
Qed.

Lemma write_cas_check_in_txn c0 backend ref_name old old_target c :
  in_txn_of c0 c ->
  in_txn_of c0 (write_cas_check backend ref_name old old_target c).2.
Proof.
  intros H. unfold write_cas_check.
  repeat first [ solve [txn_done] | txn_step c0 | txn_case ].
Qed.

Lemma BEGIN_in_txn (c : PGconn) :
  match BEGIN c with
  | (Ok _, c') => in_txn_of c c'
  | (Error _, c') => stored c' = stored c /\ txn c' = txn c
  end.
Proof.
  unfold BEGIN. destruct (next_fault c) as [[] rest];
    destruct (txn c); split; (reflexivity || discriminate).
Qed.

(** Whatever fails, a write that reports a failure has committed nothing
    and, started outside a transaction, leaves none open. *)
Lemma pg_refdb_write_rolled_back backend ref force who message old old_target
    c :
  let w := pg_refdb_write backend ref force who message old old_target c in
  w.1 <> 0 -> stored w.2 = stored c /\ (txn c = Idle -> txn w.2 = Idle).
Proof.
  cbv zeta. unfold pg_refdb_write.
  pose proof (BEGIN_in_txn c) as Hb.
  destruct (BEGIN c) as [[?|?] c1].
  - assert (forall out, rolled_back c out ->
              out.1 <> 0 -> stored out.2 = stored c /\
                            (txn c = Idle -> txn out.2 = Idle)) as Hweak.
    { intros out Hout Hne. destruct (Hout Hne) as [H1 H2]. auto. }
    apply Hweak.
    destruct (force =? 0);
      [|apply write_upsert_and_commit_rolled_back; assumption].
    pose proof (write_cas_check_in_txn c backend (git_reference_name ref)
                  old old_target c1 Hb) as Hk.
    destruct (write_cas_check _ _ _ _ _) as [[code|] c2]; cbn [snd] in Hk.
    + txn_done.
    + apply write_upsert_and_commit_rolled_back; assumption.
  - cbn [fst snd]. intros _. destruct Hb as [H1 H2].
    split; [exact H1|]. intros Hi. rewrite H2. exact Hi.
Qed.

Lemma BEGIN_ok (c : PGconn) :
  reliable c = true -> txn c = Idle ->
  exists c1,
    BEGIN c = (Ok tt, c1) /\ reliable c1 = true /\
    txn c1 = InTxn (stored c) /\ stored c1 = stored c.
Proof.
  intros Hr Ht. destruct (reliable_next_fault c Hr) as [Hf Hrest].
  unfold BEGIN. destruct (next_fault c) as [fault rest].
  cbn [fst snd] in Hf, Hrest. subst fault. rewrite Ht.
  eexists. split; [reflexivity|]. repeat split. exact Hrest.
Qed.

(** Inside a transaction with working copy [w], with no failure ahead. *)
Lemma PQexecParams_in_work {R} (c : PGconn) (w w' : database)
    (stmt : statement R) (r : R) :
  reliable c = true -> txn c = InTxn w -> stmt w = Ok (r, w') ->
  exists c',
    PQexecParams c stmt = (Ok r, c') /\ reliable c' = true /\
    txn c' = InTxn w' /\ stored c' = stored c.
Proof.
  intros Hr Ht Hs. destruct (reliable_next_fault c Hr) as [Hf Hrest].
  unfold PQexecParams. destruct (next_fault c) as [fault rest].
  cbn [fst snd] in Hf, Hrest. subst fault. rewrite Ht, Hs.
  eexists. split; [reflexivity|]. repeat split. exact Hrest.
Qed.

Lemma COMMIT_in_work (c : PGconn) (w : database) :
  reliable c = true -> txn c = InTxn w ->
  exists c', COMMIT c = (Ok tt, c') /\ stored c' = w /\ txn c' = Idle.
Proof.
  intros Hr Ht. destruct (reliable_next_fault c Hr) as [Hf Hrest].
  unfold COMMIT. destruct (next_fault c) as [fault rest].
  cbn [fst snd] in Hf. subst fault. rewrite Ht.
  eexists. split; [reflexivity|]. split; reflexivity.
Qed.

Lemma write_cas_check_in_work backend ref_name old old_target c w :
  reliable c = true -> txn c = InTxn w ->
  exists c',
    write_cas_check backend ref_name old old_target c
    = (cas_verdict old old_target (refs w !! (repo_id backend, ref_name)), c')
    /\ reliable c' = true /\ txn c' = InTxn w /\ stored c' = stored c.
Proof.
  intros Hr Ht. unfold write_cas_check.
  destruct (PQexecParams_in_work c w w
              (select_ref (repo_id backend) ref_name) _ Hr Ht eq_refl)
    as (c' & -> & Hr' & Ht' & Hs').
  exists c'. split; [|auto].
  unfold cas_verdict.
  destruct (refs w !! (repo_id backend, ref_name)) as [row|];
    destruct (_ || _); try reflexivity.
  destruct (write_check_old old row); reflexivity.
Qed.

Lemma refs_check_row_of_reference (ref : git_reference) :
  refs_check (row_of_reference ref) = true.
Proof. destruct ref; reflexivity. Qed.

Lemma write_upsert_and_commit_in_work backend ref who message old c w :
  reliable c = true -> txn c = InTxn w ->
  is_Some (repositories w !! repo_id backend) ->
  exists c',
    write_upsert_and_commit backend ref who message old c = (0, c') /\
    txn c' = Idle /\
    refs (stored c') !! (repo_id backend, git_reference_name ref)
    = Some (row_of_reference ref).
Proof.
  intros Hr Ht [nm Hrepo]. unfold write_upsert_and_commit.
  set (w1 := set_refs w (<[(repo_id backend, git_reference_name ref)
                            := row_of_reference ref]> (refs w))).
  assert (upsert_ref (repo_id backend) (git_reference_name ref)
            (row_of_reference ref) w = Ok (tt, w1)) as Hup.
  { unfold upsert_ref. rewrite refs_check_row_of_reference, Hrepo.
    cbn [negb]. destruct (refs w !! _); reflexivity. }
  destruct (PQexecParams_in_work c w w1 _ _ Hr Ht Hup)
    as (c1 & -> & Hr1 & Ht1 & _).
  assert (exists c2 w2,
            write_reflog_entry backend (git_reference_name ref) old
              (new_oid_of ref) who message c1 = (0, c2) /\
            reliable c2 = true /\ txn c2 = InTxn w2 /\ refs w2 = refs w1)
    as (c2 & w2 & -> & Hr2 & Ht2 & Hrefs).
  { unfold write_reflog_entry. destruct who as [who|].
    - match goal with
      | |- context [insert_reflog ?row] =>
          destruct (PQexecParams_in_work c1 w1
                      (set_reflog w1 (reflog w1 ++ [row]))
                      (insert_reflog row) tt Hr1 Ht1)
            as (c2 & -> & Hr2 & Ht2 & _)
      end.
      { unfold insert_reflog. cbn [rl_repo_id]. unfold w1.
        cbn [repositories set_refs]. rewrite Hrepo. reflexivity. }
      exists c2. eexists. split; [reflexivity|].
      split; [exact Hr2|]. split; [exact Ht2|reflexivity].
    - exists c1, w1. auto. }
  cbn [Z.ltb Z.compare].
  destruct (COMMIT_in_work c2 w2 Hr2 Ht2) as (c3 & -> & Hs3 & Ht3).
  exists c3. split; [reflexivity|]. split; [exact Ht3|].
  rewrite Hs3, Hrefs. unfold w1. cbn [refs set_refs].
  apply lookup_insert_eq.
Qed.

(** A write without [force] returns what the compare-and-swap block
    decided; when the block lets it pass, it stores the reference. *)
Lemma pg_refdb_write_no_force backend ref who message old old_target c :
  reliable c = true -> txn c = Idle ->
  let w := pg_refdb_write backend ref 0 who message old old_target c in
  match cas_verdict old old_target
          (refs (stored c) !! (repo_id backend, git_reference_name ref)) with
  | Some code => w.1 = code
  | None =>
      is_Some (repositories (stored c) !! repo_id backend) ->
      w.1 = 0 /\ txn w.2 = Idle /\
      refs (stored w.2) !! (repo_id backend, git_reference_name ref)
      = Some (row_of_reference ref)
  end.
Proof.
  intros Hr Ht. cbv zeta. unfold pg_refdb_write.
  destruct (BEGIN_ok c Hr Ht) as (c1 & -> & Hr1 & Ht1 & Hs1).
  cbn [Z.eqb].
  destruct (write_cas_check_in_work backend (git_reference_name ref) old
              old_target c1 (stored c) Hr1 Ht1)
    as (c2 & -> & Hr2 & Ht2 & Hs2).
  destruct (cas_verdict _ _ _) as [code|]; [reflexivity|].
  intros Hrepo.
  destruct (write_upsert_and_commit_in_work backend ref who message old c2
              (stored c) Hr2 Ht2 Hrepo) as (c3 & -> & Ht3 & Hrow).
  auto.
Qed.

(** C2, as amended. A write without [force], on a connection where no
    statement fails and no transaction is open. With [old] or [old_target]
    supplied and the ref not stored it returns GIT_ENOTFOUND. With the ref
    stored: with neither supplied it returns GIT_EEXISTS; with [old]
    supplied it returns -1 when the ref is symbolic and GIT_EEXISTS when its
    OID differs; with only [old_target] supplied it returns -1 when the ref
    is direct and GIT_EEXISTS when its target differs; when the value
    supplied matches, it returns 0 and stores the reference. A value
    mismatch and an existing ref thus share one code, and the three codes
    are distinct. And whatever fails, a write that does not return 0 has
    committed nothing and, started outside a transaction, leaves none
    open. *)
Theorem pg_refdb_write_cas
    (backend : postgres_refdb_backend) (ref : git_reference)
    (who : option git_signature) (message old old_target : option bytes)
    (c : PGconn) :
  let key := (repo_id backend, git_reference_name ref) in
  let w := pg_refdb_write backend ref 0 who message old old_target c in
  (reliable c = true -> txn c = Idle ->
   (refs (stored c) !! key = None ->
    is_Some old \/ is_Some old_target -> w.1 = GIT_ENOTFOUND) /\
   (forall row, refs (stored c) !! key = Some row ->
      (old = None -> old_target = None -> w.1 = GIT_EEXISTS) /\
      (forall id, old = Some id ->
         (ref_oid row = None -> w.1 = GIT_ERROR) /\
         (forall cur, ref_oid row = Some cur -> cur <> Odb.oid_param id ->
                      w.1 = GIT_EEXISTS)) /\
      (forall target, old = None -> old_target = Some target ->
         (ref_symbolic row = None -> w.1 = GIT_ERROR) /\
         (forall cur, ref_symbolic row = Some cur -> cur <> target ->
                      w.1 = GIT_EEXISTS)) /\
      (is_Some (repositories (stored c) !! repo_id backend) ->
       (forall id, old = Some id -> old_target = None ->
                   length id = 20%nat -> ref_oid row = Some id ->
                   w.1 = 0 /\
                   refs (stored w.2) !! key = Some (row_of_reference ref)) /\
       (forall target, old = None -> old_target = Some target ->
                       ref_symbolic row = Some target ->
                       w.1 = 0 /\
                       refs (stored w.2) !! key
                       = Some (row_of_reference ref))))) /\
  (GIT_EEXISTS <> GIT_ENOTFOUND /\ GIT_EEXISTS <> GIT_ERROR /\
   GIT_ENOTFOUND <> GIT_ERROR) /\
  (w.1 <> 0 -> stored w.2 = stored c /\ (txn c = Idle -> txn w.2 = Idle)).
Proof.
  intros key w. split; [|split].
  - intros Hr Ht.
    pose proof (pg_refdb_write_no_force backend ref who message old
                  old_target c Hr Ht) as Hw.
    cbv zeta in Hw. fold key w in Hw. split.
    + intros Hnone Hsome. rewrite Hnone in Hw. unfold cas_verdict in Hw.
      destruct Hsome as [Hs|Hs];
        rewrite (bool_decide_eq_true_2 _ Hs) in Hw;
        rewrite ?orb_true_r in Hw; exact Hw.
    + intros row Hrow. rewrite Hrow in Hw. unfold cas_verdict in Hw.
      split; [|split; [|split]].
      * intros -> ->. exact Hw.
      * intros id ->. cbn in Hw. split.
        -- intros Hnull. rewrite Hnull in Hw. exact Hw.
        -- intros cur Hcur Hne. rewrite Hcur in Hw.
           rewrite (bool_decide_eq_false_2 _ Hne) in Hw.
           cbn [negb] in Hw. rewrite orb_true_r in Hw. exact Hw.
      * intros target -> ->. cbn in Hw. split.
        -- intros Hnull. rewrite Hnull in Hw. exact Hw.
        -- intros cur Hcur Hne. rewrite Hcur in Hw.
           rewrite (bool_decide_eq_false_2 _ Hne) in Hw. exact Hw.
      * intros Hrepo. split.
        -- intros id -> -> Hlen Hcur. cbn in Hw. rewrite Hcur in Hw.
           assert (Odb.oid_param id = id) as Hid.
           { unfold Odb.oid_param.
             change (Z.to_nat GIT_OID_SHA1_SIZE) with 20%nat.
             apply firstn_all2. rewrite Hlen. reflexivity. }
           rewrite Hid, Hlen in Hw.
           rewrite bool_decide_eq_true_2 in Hw by reflexivity.
           cbn in Hw. destruct (Hw Hrepo) as (H1 & _ & H3). auto.
        -- intros target -> -> Hcur. cbn in Hw. rewrite Hcur in Hw.
           rewrite bool_decide_eq_true_2 in Hw by reflexivity.
           cbn in Hw. destruct (Hw Hrepo) as (H1 & _ & H3). auto.
  - repeat split; discriminate.
  - apply pg_refdb_write_rolled_back.
Qed.

(** C2, as stated, fails: no two distinct codes [ValueChanged] and
    [AlreadyExists] fit what the write returns for a stored direct ref whose
    OID differs from [old], for a stored symbolic ref when [old] is
    supplied, and for a stored ref when nothing is supplied. *)
Lemma pg_refdb_write_cas_counterexample :
  ~ (exists ValueChanged AlreadyExists : Z,
       ValueChanged <> AlreadyExists /\
       (pg_refdb_write Example.refdb1
          (Direct (bs "refs/heads/main") Example.oid_bb) 0 None None
          (Some Example.oid_cc) None Example.conn_refs).1 = ValueChanged /\
       (pg_refdb_write Example.refdb1
          (Direct (bs "HEAD") Example.oid_bb) 0 None None
          (Some Example.oid_aa) None Example.conn_refs).1 = ValueChanged /\
       (pg_refdb_write Example.refdb1
          (Direct (bs "refs/heads/main") Example.oid_bb) 0 None None
          None None Example.conn_refs).1 = AlreadyExists).
Proof.
  intros (vc & ae & Hne & H1 & H2 & H3).
  vm_compute in H1, H2, H3. congruence.
Qed.

Lemma pg_refdb_write_cas_witness :
  (pg_refdb_write Example.refdb1
     (Direct (bs "refs/heads/main") Example.oid_bb) 0 None None
     (Some Example.oid_cc) None Example.conn_refs).1 = GIT_EEXISTS /\
  (pg_refdb_write Example.refdb1
     (Direct (bs "refs/heads/main") Example.oid_bb) 0 None None
     (Some Example.oid_aa) None Example.conn_refs).1 = 0.
Proof.
  destruct (pg_refdb_write_cas Example.refdb1
              (Direct (bs "refs/heads/main") Example.oid_bb) None None
              (Some Example.oid_cc) None Example.conn_refs) as (H1 & _).
  destruct (pg_refdb_write_cas Example.refdb1
              (Direct (bs "refs/heads/main") Example.oid_bb) None None
              (Some Example.oid_aa) None Example.conn_refs) as (H2 & _).
  specialize (H1 eq_refl eq_refl). specialize (H2 eq_refl eq_refl).
  destruct H1 as (_ & H1). destruct H2 as (_ & H2).
  specialize (H1 {| ref_oid := Some Example.oid_aa; ref_symbolic := None |}
                 eq_refl).
  specialize (H2 {| ref_oid := Some Example.oid_aa; ref_symbolic := None |}
                 eq_refl).
  split.
  - destruct H1 as (_ & H1 & _). destruct (H1 _ eq_refl) as (_ & H).
    apply (H Example.oid_aa); [reflexivity|]. vm_compute. discriminate.
  - destruct H2 as (_ & _ & _ & H2).
    destruct H2 as (H2 & _); [vm_compute; eauto|].
    apply (H2 Example.oid_aa); reflexivity.
Defined.

Example ref_cas_scenario :
  let main := bs "refs/heads/main" in
  let w1 := pg_refdb_write Example.refdb1 (Direct main Example.oid_aa) 0
              None None None None Example.conn_ok in
  let w2 := pg_refdb_write Example.refdb1 (Direct main Example.oid_bb) 0
              None None (Some Example.oid_aa) None w1.2 in
  let w3 := pg_refdb_write Example.refdb1 (Direct main Example.oid_aa) 0
              None None (Some Example.oid_cc) None w2.2 in
  let w4 := pg_refdb_write Example.refdb1 (Direct main Example.oid_aa) 1
              None None (Some Example.oid_cc) None w3.2 in
  w1.1 = 0 /\ w2.1 = 0 /\ w3.1 = GIT_EEXISTS /\
  refs (stored w3.2) !! (1, main)
  = Some {| ref_oid := Some Example.oid_bb; ref_symbolic := None |} /\
  w4.1 = 0 /\
  refs (stored w4.2) !! (1, main)
  = Some {| ref_oid := Some Example.oid_aa; ref_symbolic := None |}.
Proof. cbv zeta. repeat split; vm_compute; reflexivity. Qed.

(** What a statement that succeeded has done. *)
Lemma PQexecParams_Ok_inv {R} (c c' : PGconn) (stmt : statement R) (r : R) :
  PQexecParams c stmt = (Ok r, c') ->
  txn c' <> Aborted /\
  exists db', stmt (visible c) = Ok (r, db') /\ visible c' = db'.
Proof.
  unfold PQexecParams, visible. destruct (next_fault c) as [fault rest].
  destruct (txn c) as [|w|]; [| |discriminate].
  - destruct fault; [discriminate|].
    destruct (stmt (stored c)) as [[r' db']|e]; [|discriminate].
    intros [= <- <-]. cbn. split; [discriminate|eauto].
  - destruct fault; [discriminate|].
    destruct (stmt w) as [[r' db']|e]; [|discriminate].
    intros [= <- <-]. cbn. split; [discriminate|eauto].
Qed.

Lemma COMMIT_Ok_inv (c c' : PGconn) (u : unit) :
  COMMIT c = (Ok u, c') -> txn c' = Idle /\ stored c' = visible c.
Proof.
  unfold COMMIT, visible. destruct (next_fault c) as [[] rest];
    [discriminate|].
  intros [= _ <-]. cbn. split; [reflexivity|]. destruct (txn c); reflexivity.
Qed.

Lemma write_reflog_entry_zero backend ref_name old_oid new_oid who message
    c :
  let w := write_reflog_entry backend ref_name old_oid new_oid who message c in
  (w.1 = 0 \/ w.1 = -1) /\
  (w.1 = 0 -> txn c <> Aborted -> txn w.2 <> Aborted /\
              refs (visible w.2) = refs (visible c)).
Proof.
  cbv zeta. unfold write_reflog_entry. destruct who as [who|].
  - destruct (PQexecParams c _) as [[[]|e] c'] eqn:E; cbn [fst snd].
    + split; [left; reflexivity|]. intros _ _.
      apply PQexecParams_Ok_inv in E as (Ht & db' & Hs & Hv).
      split; [exact Ht|]. rewrite Hv. revert Hs. unfold insert_reflog.
      destruct (repositories _ !! _); [|discriminate].
      intros [= <-]. reflexivity.
    + split; [right; reflexivity|discriminate].
  - cbn [fst snd]. split; [left; reflexivity|auto].
Qed.

(** A write that returns 0 has committed the row of the reference. *)
Lemma write_upsert_and_commit_zero backend ref who message old c :
  let w := write_upsert_and_commit backend ref who message old c in
  w.1 = 0 ->
  txn w.2 = Idle /\
  refs (stored w.2) !! (repo_id backend, git_reference_name ref)
  = Some (row_of_reference ref).
Proof.
  cbv zeta. unfold write_upsert_and_commit.
  destruct (PQexecParams c _) as [[[]|e] c1] eqn:E1; [|discriminate].
  apply PQexecParams_Ok_inv in E1 as (Ht1 & db1 & Hs1 & Hv1).
  assert (refs db1 !! (repo_id backend, git_reference_name ref)
          = Some (row_of_reference ref)) as Hrow.
  { revert Hs1. unfold upsert_ref.
    destruct (negb _); [discriminate|].
    destruct (refs (visible c) !! (repo_id backend, git_reference_name ref));
      destruct (repositories (visible c) !! repo_id backend);
      try discriminate;
      intros [= <-]; cbn [refs set_refs]; apply lookup_insert_eq. }
  pose proof (write_reflog_entry_zero backend (git_reference_name ref) old
                (new_oid_of ref) who message c1) as [Hcode Hz].
  cbv zeta in Hcode, Hz.
  destruct (write_reflog_entry _ _ _ _ _ _ c1) as [error c2].
  cbn [fst snd] in Hcode, Hz.
  destruct Hcode as [-> | ->]; [|discriminate].
  cbn [Z.ltb Z.compare].
  destruct (Hz eq_refl Ht1) as [Ht2 Hv2].
  destruct (COMMIT c2) as [[[]|e] c3] eqn:E3; [|discriminate].
  intros _. cbn [snd]. apply COMMIT_Ok_inv in E3 as [Ht3 Hs3].
  split; [exact Ht3|]. rewrite Hs3, Hv2, Hv1. exact Hrow.
Qed.

Lemma write_cas_check_code backend ref_name old old_target c code c' :
  write_cas_check backend ref_name old old_target c = (Some code, c') ->
  code <> 0.
Proof.
  unfold write_cas_check.
  destruct (PQexecParams c _) as [[rows|e] c1]; [|intros [= <- _]; discriminate].
  destruct (_ || _).
  - destruct rows as [|row rows]; [intros [= <- _]; discriminate|].
    unfold write_check_old, write_check_old_target.
    destruct old as [o|].
    + destruct (ref_oid row); [|intros [= <- _]; discriminate].
      destruct (_ || _); [intros [= <- _]; discriminate|].
      destruct old_target; [|discriminate].
      destruct (ref_symbolic row); [|intros [= <- _]; discriminate].
      destruct (negb _); [intros [= <- _]; discriminate|discriminate].
    + destruct old_target; [|discriminate].
      destruct (ref_symbolic row); [|intros [= <- _]; discriminate].
      destruct (negb _); [intros [= <- _]; discriminate|discriminate].
  - destruct (0 <? _); [intros [= <- _]; discriminate|discriminate].
Qed.

Lemma pg_refdb_write_zero backend ref force who message old old_target c :
  let w := pg_refdb_write backend ref force who message old old_target c in
  w.1 = 0 ->
  txn w.2 = Idle /\
  refs (stored w.2) !! (repo_id backend, git_reference_name ref)
  = Some (row_of_reference ref).
Proof.
  cbv zeta. unfold pg_refdb_write.
  destruct (BEGIN c) as [[[]|e] c1]; [|discriminate].
  destruct (force =? 0); [|apply write_upsert_and_commit_zero].
  destruct (write_cas_check _ _ _ _ c1) as [[code|] c2] eqn:E.
  - apply write_cas_check_code in E. cbn [fst]. contradiction.
  - apply write_upsert_and_commit_zero.
Qed.

Lemma write_reflog_entry_in_work backend ref_name old_oid new_oid who
    message c w :
  reliable c = true -> txn c = InTxn w ->
  is_Some (repositories w !! repo_id backend) ->
  exists c' w',
    write_reflog_entry backend ref_name old_oid new_oid who message c
    = (0, c') /\
    reliable c' = true /\ txn c' = InTxn w' /\ stored c' = stored c /\
    refs w' = refs w /\
    match who with
    | None => reflog w' = reflog w
    | Some _ =>
        exists entry,
          reflog w' = reflog w ++ [entry] /\
          rl_repo_id entry = repo_id backend /\
          rl_ref_name entry = ref_name /\
          rl_old_oid entry = reflog_oid_param old_oid /\
          rl_new_oid entry = reflog_oid_param new_oid /\
          rl_message entry = message
    end.
Proof.
  intros Hr Ht [nm Hrepo]. unfold write_reflog_entry.
  destruct who as [who|].
  - match goal with
    | |- context [insert_reflog ?row] =>
        destruct (PQexecParams_in_work c w
                    (set_reflog w (reflog w ++ [row]))
                    (insert_reflog row) tt Hr Ht)
          as (c2 & -> & Hr2 & Ht2 & Hs2)
    end.
    { unfold insert_reflog. cbn [rl_repo_id]. rewrite Hrepo. reflexivity. }
    exists c2. eexists. split; [reflexivity|].
    split; [exact Hr2|]. split; [exact Ht2|]. split; [exact Hs2|].
    split; [reflexivity|]. eexists. split; [reflexivity|].
    repeat split.
  - exists c, w. repeat split; auto.
Qed.








End RefStore.

Section RemoteHelper.
Import Pg Helper.

Example cmd_list_example :
  (cmd_list 1 Example.conn_refs).1
  = Printed (bs "aaaaaaaaaaaaaaaaaaaaaaaaaaaaaaaaaaaaaaaa refs/heads/main"
             ++ LF ++ bs "@refs/heads/main HEAD" ++ LF ++ LF).
Proof. vm_compute. reflexivity. Qed.

(** The refs of a repository as the query returns them: one entry for each
    row of the table, no name twice. *)
Lemma refs_of_spec (repo_id : Z) (db : database) :
  (forall name row,
     (name, row) ∈ refs_of repo_id db <->
     refs db !! (repo_id, name) = Some row) /\
  NoDup (refs_of repo_id db).*1.
Proof.
  unfold refs_of.
  set (sel := List.filter
                (fun kv : (Z * bytes) * ref_row =>
                   bool_decide (kv.1.1 = repo_id))
                (map_to_list (refs db))).
  assert (forall kv, kv ∈ sel <->
            refs db !! kv.1 = Some kv.2 /\ kv.1.1 = repo_id) as Hsel.
  { intros [k v]. unfold sel. rewrite list_elem_of_In, filter_In.
    rewrite <- list_elem_of_In, elem_of_map_to_list, bool_decide_eq_true.
    reflexivity. }
  assert (NoDup sel) as Hnd.
  { apply NoDup_ListNoDup, List.NoDup_filter, NoDup_ListNoDup,
      NoDup_map_to_list. }
  split.
  - intros name row. rewrite merge_sort_Permutation.
    rewrite list_elem_of_fmap. split.
    + intros ([[r n] v] & [= -> ->] & Hin). apply Hsel in Hin as [Hl Hr].
      cbn [fst snd] in *. subst r. exact Hl.
    + intros Hl. exists ((repo_id, name), row). split; [reflexivity|].
      apply Hsel. split; [exact Hl|reflexivity].
  - rewrite merge_sort_Permutation. rewrite <- list_fmap_compose.
    apply NoDup_fmap_2_strong; [|exact Hnd].
    intros [[r1 n1] v1] [[r2 n2] v2] H1 H2 Heq. cbn in Heq. subst n2.
    apply Hsel in H1 as [Hl1 Hr1]. apply Hsel in H2 as [Hl2 Hr2].
    cbn [fst snd] in *. subst r1 r2. congruence.
Qed.

Lemma hex_encode_nil (b : bytes) : hex_encode b = [] -> b = [].
Proof. destruct b; [reflexivity|discriminate]. Qed.

Lemma present_hex (o : option bytes) :
  o <> Some [] -> present (hex_encode <$> o) = bool_decide (is_Some o).
Proof.
  intros Hne. destruct o as [[|b o]|]; [contradiction|reflexivity|reflexivity].
Qed.

(** The first loop over rows none of which is [HEAD]. *)
Lemma fold_list_step_no_head (R : list (bytes * ref_row)) (v : list_vars) :
  bs "HEAD" ∉ R.*1 ->
  (forall nr, nr ∈ R -> ref_oid nr.2 <> Some []) ->
  fold_left list_step (map to_list_row R) v =
  {| printed := printed v ++ concat (map ref_line R);
     head_oid := head_oid v; head_symbolic := head_symbolic v |}.
Proof.
  revert v. induction R as [|[name row] R IH]; intros v Hno Hoid.
  - cbn. rewrite app_nil_r. destruct v; reflexivity.
  - rewrite fmap_cons in Hno. apply not_elem_of_cons in Hno as [Hne Hno].
    cbn [fst] in Hne.
    assert (list_step v (to_list_row (name, row)) =
            {| printed := printed v ++ ref_line (name, row);
               head_oid := head_oid v; head_symbolic := head_symbolic v |})
      as Hstep.
    { unfold list_step, ref_line, to_list_row.
      cbn [row_name row_oid_hex row_symbolic fst snd].
      rewrite !bool_decide_eq_false_2 by congruence.
      rewrite present_hex by (apply (Hoid (name, row)); left).
      destruct (ref_oid row) as [o|]; cbn; [reflexivity|].
      rewrite app_nil_r. destruct v; reflexivity. }
    cbn [map fold_left concat]. rewrite Hstep, IH.
    2: exact Hno.
    2: { intros nr Hin. apply Hoid. right. exact Hin. }
    cbn [printed head_oid head_symbolic]. rewrite <- app_assoc. reflexivity.
Qed.

Lemma resolve_head_spec (R : list (bytes * ref_row)) (target : bytes) :
  is_Some (resolve_head (map to_list_row R) target) <->
  exists row, (target, row) ∈ R /\ is_Some (ref_oid row).
Proof.
  unfold resolve_head.
  destruct (List.find _ _) as [r|] eqn:E.
  - apply find_some in E as [Hin Hp].
    apply andb_true_iff in Hp as [Hn Ho].
    apply bool_decide_eq_true in Hn, Ho.
    apply in_map_iff in Hin as ([name row] & <- & Hin).
    cbn [to_list_row row_name row_oid_hex fst snd] in *. subst name.
    split; [|intros _; exact Ho].
    intros _. exists row. split; [apply list_elem_of_In, Hin|].
    destruct (ref_oid row); [eauto|destruct Ho; discriminate].
  - split; [intros [x Hx]; discriminate|].
    intros (row & Hin & [o Ho]). exfalso.
    pose proof (find_none _ _ E (to_list_row (target, row))) as Hf.
    cbn [to_list_row row_name row_oid_hex fst snd] in Hf.
    rewrite Ho in Hf. rewrite bool_decide_eq_true_2 in Hf by reflexivity.
    rewrite bool_decide_eq_true_2 in Hf by (cbn; eauto).
    specialize (Hf ltac:(apply in_map, list_elem_of_In, Hin)).
    discriminate.
Qed.

Lemma select_refs_hex_eq (repo_id : Z) (db : database) :
  select_refs_hex repo_id db = Ok (map to_list_row (refs_of repo_id db), db).
Proof. reflexivity. Qed.

(** The variables after the first loop. *)
Lemma fold_list_step_eq (repo_id : Z) (db : database) :
  (forall name row,
     refs db !! (repo_id, name) = Some row -> ref_oid row <> Some []) ->
  (forall row,
     refs db !! (repo_id, bs "HEAD") = Some row ->
     ref_symbolic row <> Some []) ->
  fold_left list_step (map to_list_row (refs_of repo_id db))
    {| printed := []; head_oid := None; head_symbolic := None |} =
  {| printed := concat (map ref_line (refs_of repo_id db));
     head_oid :=
       match refs db !! (repo_id, bs "HEAD") with
       | Some {| ref_oid := Some oid; ref_symbolic := None |} =>
           Some (hex_encode oid)
       | _ => None
       end;
     head_symbolic :=
       match refs db !! (repo_id, bs "HEAD") with
       | Some row => ref_symbolic row
       | None => None
       end |}.
Proof.
  intros Hoid Hsym.
  destruct (refs_of_spec repo_id db) as [Hin Hnd].
  assert (forall nr, nr ∈ refs_of repo_id db -> ref_oid nr.2 <> Some [])
    as Hoid'.
  { intros [name row] Hnr. apply Hin in Hnr. exact (Hoid _ _ Hnr). }
  destruct (refs db !! (repo_id, bs "HEAD")) as [hrow|] eqn:Hhead.
  - specialize (Hsym hrow eq_refl).
    apply Hin in Hhead as Hmem.
    apply list_elem_of_split in Hmem as (l1 & l2 & HR).
    rewrite HR in Hnd, Hoid' |- *.
    rewrite fmap_app, fmap_cons in Hnd. cbn [fst] in Hnd.
    apply NoDup_app in Hnd as (_ & Hdisj & Hnd2).
    apply NoDup_cons in Hnd2 as [Hno2 _].
    assert (bs "HEAD" ∉ l1.*1) as Hno1.
    { intros Hx. apply (Hdisj _ Hx). left. }
    assert (forall nr, nr ∈ l1 -> ref_oid nr.2 <> Some []) as Hoid1.
    { intros nr Hnr. apply Hoid'. apply elem_of_app. left. exact Hnr. }
    assert (forall nr, nr ∈ l2 -> ref_oid nr.2 <> Some []) as Hoid2.
    { intros nr Hnr. apply Hoid'. apply elem_of_app. right. right.
      exact Hnr. }
    assert (ref_oid hrow <> Some []) as Hho.
    { apply (Hoid' (bs "HEAD", hrow)). apply elem_of_app. right. left. }
    assert (ref_line (bs "HEAD", hrow) = []) as Hline.
    { unfold ref_line. cbn [fst].
      rewrite bool_decide_eq_true_2 by reflexivity. reflexivity. }
    rewrite !map_app, concat_app, fold_left_app.
    cbn [map fold_left concat]. rewrite Hline. cbn [app].
    rewrite (fold_list_step_no_head l1 _ Hno1 Hoid1).
    cbn [printed head_oid head_symbolic app].
    rewrite (fold_list_step_no_head l2 _ Hno2 Hoid2).
    unfold list_step, to_list_row.
    cbn [row_name row_oid_hex row_symbolic fst snd].
    rewrite bool_decide_eq_true_2 by reflexivity.
    rewrite present_hex by exact Hho.
    destruct hrow as [ho hs]. cbn [ref_oid ref_symbolic] in *.
    destruct hs as [[|b t]|]; [contradiction| |].
    + cbn [present printed head_oid head_symbolic].
      destruct ho; reflexivity.
    + cbn [present]. destruct ho as [o|].
      * rewrite bool_decide_eq_true_2 by eauto. reflexivity.
      * rewrite bool_decide_eq_false_2 by (intros [x Hx]; discriminate).
        reflexivity.
  - rewrite fold_list_step_no_head.
    + reflexivity.
    + intros Hx. apply list_elem_of_fmap in Hx as ([name row] & Hn & Hnr).
      cbn [fst] in Hn. subst name. apply Hin in Hnr. congruence.
    + exact Hoid'.
Qed.

(** C8. The [list] command. When its query succeeds, on a ref table whose
    stored OIDs and whose symbolic target of [HEAD] are not empty, [cmd_list]
    prints exactly the listing: for each direct ref other than [HEAD], in
    the order of the names, the line [<hex-oid> <name>]; then the line of
    [HEAD], which is [@<target> HEAD] when [HEAD] is symbolic and its target
    is stored as a direct ref, [<hex-oid> HEAD] when [HEAD] is direct, and
    absent otherwise; then an empty line. The refs listed are those of the
    repository's rows, each once. When the query fails, the helper dies. *)
Theorem cmd_list_listing (repo_id : Z) (c : PGconn) :
  (statement_fails c = false ->
   (forall name row,
      refs (visible c) !! (repo_id, name) = Some row ->
      ref_oid row <> Some []) ->
   (forall row,
      refs (visible c) !! (repo_id, bs "HEAD") = Some row ->
      ref_symbolic row <> Some []) ->
   (cmd_list repo_id c).1 = Printed (listing repo_id (visible c))) /\
  (forall name row,
     (name, row) ∈ refs_of repo_id (visible c) <->
     refs (visible c) !! (repo_id, name) = Some row) /\
  NoDup (refs_of repo_id (visible c)).*1 /\
  (statement_fails c = true -> (cmd_list repo_id c).1 = Died).
Proof.
  destruct (refs_of_spec repo_id (visible c)) as [Hin Hnd].
  split; [|split; [exact Hin|split; [exact Hnd|]]].
  - intros Hok Hoid Hsym. unfold cmd_list.
    rewrite PQexecParams_ok by exact Hok.
    rewrite select_refs_hex_eq. cbn [fst].
    rewrite (fold_list_step_eq repo_id (visible c) Hoid Hsym).
    cbn [printed head_oid head_symbolic]. unfold listing, head_line.
    f_equal.
    pose proof (fun t => resolve_head_spec (refs_of repo_id (visible c)) t)
      as Hres.
    generalize dependent (concat (map ref_line (refs_of repo_id (visible c)))).
    intros L.
    destruct (refs (visible c) !! (repo_id, bs "HEAD")) as [[ho hs]|];
      [|reflexivity].
    cbn [ref_oid ref_symbolic].
    destruct hs as [target|].
    + specialize (Hres target).
      destruct (refs (visible c) !! (repo_id, target)) as [[to ts]|] eqn:Ht.
      * apply Hin in Ht.
        destruct to as [o|].
        -- destruct Hres as [_ Hres].
           destruct Hres as [h ->]; [eexists; split; [exact Ht|cbn; eauto]|].
           rewrite <- !app_assoc. reflexivity.
        -- destruct (resolve_head _ _) as [h|] eqn:Er.
           ++ destruct Hres as [Hres _].
              destruct Hres as (row' & Hrow' & Hsome); [eauto|].
              apply Hin in Hrow'. apply Hin in Ht.
              rewrite Ht in Hrow'. injection Hrow' as <-.
              destruct Hsome as [x Hx]. discriminate.
           ++ destruct ho; reflexivity.
      * destruct (resolve_head _ _) as [h|] eqn:Er.
        -- destruct Hres as [Hres _].
           destruct Hres as (row' & Hrow' & _); [eauto|].
           apply Hin in Hrow'. congruence.
        -- destruct ho; reflexivity.
    + destruct ho as [o|]; [|reflexivity].
      rewrite <- !app_assoc. reflexivity.
  - intros Hf. unfold cmd_list.
    destruct (PQexecParams_fails c (select_refs_hex repo_id) Hf) as [e He].
    destruct (PQexecParams c _) as [res c']. cbn [fst] in He. subst res.
    reflexivity.
Qed.

Lemma cmd_list_listing_witness :
  (cmd_list 1 Example.conn_refs).1
  = Printed (listing 1 Example.db_refs).
Proof.
  destruct (cmd_list_listing 1 Example.conn_refs) as (H & _).
  apply H.
  - reflexivity.
  - intros name row Hrow. cbn in Hrow.
    apply lookup_insert_Some in Hrow as [[_ <-]|[_ Hrow]]; [discriminate|].
    apply lookup_singleton_Some in Hrow as [_ <-]. discriminate.
  - intros row Hrow. cbn in Hrow.
    apply lookup_insert_Some in Hrow as [[Hk _]|[_ Hrow]];
      [discriminate Hk|].
    apply lookup_singleton_Some in Hrow as [_ <-]. discriminate.
Defined.

Example listing_example :
  listing 1 Example.db_refs
  = bs "aaaaaaaaaaaaaaaaaaaaaaaaaaaaaaaaaaaaaaaa refs/heads/main"
    ++ LF ++ bs "@refs/heads/main HEAD" ++ LF ++ LF.
Proof. vm_compute. reflexivity. Qed.

End RemoteHelper.

Section ObjectStoreLookups.
Import Pg Odb OdbForeach Frame.

Lemma to_int16_small (z : Z) : -32768 <= z <= 32767 -> to_int16 z = z.
Proof.
  intros H. unfold to_int16.
  change (2 ^ 15) with 32768. change (2 ^ 16) with 65536.
  rewrite Z.mod_small by lia. lia.
Qed.

Lemma to_size_t_small (z : Z) : 0 <= z <= INT_MAX -> to_size_t z = z.
Proof.
  intros H. unfold to_size_t. unfold INT_MAX in H.
  apply Z.mod_small. change (2 ^ 64) with 18446744073709551616. lia.
Qed.

(** The three exact lookups on a connection whose next statement does not
    fail, in terms of the row stored under the key. *)
Lemma exact_lookups (pg : postgres_odb_backend) (oid : bytes) (c : PGconn) :
  statement_fails c = false ->
  let row := objects (visible c) !! (repo_id pg, oid_param oid) in
  (pg_odb_read pg oid c).1
  = match row with
    | Some r => Done (object_of_row r)
    | None => Failed GIT_ENOTFOUND
    end /\
  (pg_odb_read_header pg oid c).1
  = match row with
    | Some r => Done (to_size_t (obj_size r), obj_type r)
    | None => Failed GIT_ENOTFOUND
    end /\
  (pg_odb_exists pg oid c).1 = match row with Some _ => 1 | None => 0 end.
Proof.
  intros Hok. cbv zeta.
  unfold pg_odb_read, pg_odb_read_header, pg_odb_exists.
  rewrite !PQexecParams_ok by exact Hok. unfold select_object.
  destruct (objects (visible c) !! (repo_id pg, oid_param oid));
    repeat split; reflexivity.
Qed.

(** Writing an object and reading it back. On a connection where no
    statement fails and whose repository exists, [write] returns 0; then
    [read], [read_header] and [exists] find an object under the OID: the
    one written when the OID was free, and the one stored before when it
    was taken, which the write leaves as it is. *)
Theorem pg_odb_write_then_read
    (pg : postgres_odb_backend) (oid data : bytes) (type : Z) (c : PGconn) :
  reliable c = true -> txn c <> Aborted ->
  is_Some (repositories (visible c) !! repo_id pg) ->
  Z.of_nat (length data) <= INT_MAX -> -32768 <= type <= 32767 ->
  let w := pg_odb_write pg oid data type c in
  let found :=
    match objects (visible c) !! (repo_id pg, oid_param oid) with
    | Some old => object_of_row old
    | None => {| data_p := data; len_p := Z.of_nat (length data);
                 type_p := type |}
    end in
  w.1 = 0 /\
  (pg_odb_read pg oid w.2).1 = Done found /\
  (pg_odb_read_header pg oid w.2).1 = Done (len_p found, type_p found) /\
  (pg_odb_exists pg oid w.2).1 = 1.
Proof.
  intros Hr Ht Hrepo Hlen Hty. cbv zeta.
  assert (statement_fails c = false) as Hok
    by (apply reliable_not_failing; assumption).
  unfold pg_odb_write. rewrite PQexecParams_ok by exact Hok.
  unfold insert_object.
  destruct (objects (visible c) !! (repo_id pg, oid_param oid))
    as [old|] eqn:Eold.
  - cbn [fst snd].
    destruct (after_ok_props c (visible c) Hr Ht) as (Hr1 & Ht1 & Hv1).
    destruct (exact_lookups pg oid (after_ok c (visible c))
                (reliable_not_failing _ Hr1 Ht1)) as (H1 & H2 & H3).
    rewrite Hv1, Eold in H1, H2, H3.
    rewrite H1, H2, H3. repeat split.
  - destruct Hrepo as [nm Hrepo]. rewrite Hrepo. cbn [fst snd].
    match goal with
    | |- context [after_ok c ?d] => set (db' := d)
    end.
    destruct (after_ok_props c db' Hr Ht) as (Hr1 & Ht1 & Hv1).
    destruct (exact_lookups pg oid (after_ok c db')
                (reliable_not_failing _ Hr1 Ht1)) as (H1 & H2 & H3).
    rewrite Hv1 in H1, H2, H3. subst db'.
    cbn [objects set_objects] in H1, H2, H3.
    rewrite lookup_insert_eq in H1, H2, H3.
    rewrite H1, H2, H3. unfold object_of_row.
    cbn [obj_size obj_type obj_content data_p len_p type_p].
    assert (to_int (Z.of_nat (length data)) = Z.of_nat (length data)) as Hi
      by (apply to_int_small; lia).
    rewrite Hi, Nat2Z.id, firstn_all.
    rewrite to_size_t_small by lia. rewrite to_int16_small by lia.
    repeat split.
Qed.

Lemma pg_odb_write_then_read_witness :
  (pg_odb_write Example.pg1 GitOid.hello_oid (bs "hello") 3
     Example.conn_ok).1 = 0 /\
  (pg_odb_read Example.pg1 GitOid.hello_oid
     (pg_odb_write Example.pg1 GitOid.hello_oid (bs "hello") 3
        Example.conn_ok).2).1
  = Done {| data_p := bs "hello"; len_p := 5; type_p := 3 |}.
Proof.
  destruct (pg_odb_write_then_read Example.pg1 GitOid.hello_oid (bs "hello")
              3 Example.conn_ok) as (H1 & H2 & _).
  - reflexivity.
  - discriminate.
  - vm_compute. eauto.
  - vm_compute. discriminate.
  - lia.
  - split; [exact H1|exact H2].
Defined.

(** The lookups of the object store agree. On a connection whose next
    statement does not fail, [exists] returns 1 exactly when [read] finds
    an object, [read_header] returns the size and type [read] returns, and
    [exists_prefix] at the full length returns the OID asked for exactly
    when [read] finds it. At any other length [exists_prefix] returns what
    [read_prefix] returns, the OID or the error code. When the statement
    fails, [read] returns -1, while [exists] returns 0 and [exists_prefix]
    at the full length returns not-found. *)
Theorem odb_lookups_agree
    (pg : postgres_odb_backend) (oid : bytes) (prefix_len : Z) (c : PGconn) :
  (statement_fails c = false ->
   ((pg_odb_exists pg oid c).1 = 1 <->
    exists o, (pg_odb_read pg oid c).1 = Done o) /\
   (pg_odb_read_header pg oid c).1
   = match (pg_odb_read pg oid c).1 with
     | Done o => Done (len_p o, type_p o)
     | Failed code => Failed code
     end /\
   (pg_odb_exists_prefix pg oid GIT_OID_SHA1_HEXSIZE c).1
   = match (pg_odb_read pg oid c).1 with
     | Done _ => Done (oid_param oid)
     | Failed _ => Failed GIT_ENOTFOUND
     end) /\
  (prefix_len <> GIT_OID_SHA1_HEXSIZE ->
   (pg_odb_exists_prefix pg oid prefix_len c).1
   = match (pg_odb_read_prefix pg oid prefix_len c).1 with
     | Done o => match out_oid o with
                 | Some full => Done full
                 | None => Failed (-1)
                 end
     | Failed code => Failed code
     end /\
   forall o, (pg_odb_read_prefix pg oid prefix_len c).1 = Done o ->
             is_Some (out_oid o)) /\
  (statement_fails c = true ->
   (pg_odb_read pg oid c).1 = Failed (-1) /\
   (pg_odb_exists pg oid c).1 = 0 /\
   (pg_odb_exists_prefix pg oid GIT_OID_SHA1_HEXSIZE c).1
   = Failed GIT_ENOTFOUND /\
   (prefix_len <> GIT_OID_SHA1_HEXSIZE ->
    (pg_odb_exists_prefix pg oid prefix_len c).1 = Failed (-1))).
Proof.
  split; [|split].
  - intros Hok. destruct (exact_lookups pg oid c Hok) as (H1 & H2 & H3).
    unfold pg_odb_exists_prefix. cbn [Z.eqb GIT_OID_SHA1_HEXSIZE Pos.eqb].
    destruct (pg_odb_exists pg oid c) as [found c1] eqn:E.
    cbn [fst] in H3. rewrite H1, H2.
    destruct (objects (visible c) !! (repo_id pg, oid_param oid)) as [r|];
      subst found; cbn [fst Z.eqb].
    + split; [split; [eauto|reflexivity]|]. split; reflexivity.
    + split; [split; [discriminate|intros [o Ho]; discriminate]|].
      split; reflexivity.
  - intros Hne. unfold pg_odb_exists_prefix, pg_odb_read_prefix.
    apply Z.eqb_neq in Hne. rewrite Hne.
    destruct (PQexecParams c _) as [[rows|e] c1].
    + destruct rows as [|[o1 r1] [|? ?]]; cbn [fst out_oid];
        (split; [reflexivity|]); intros o; try discriminate.
      intros [= <-]. cbn [out_oid]. eauto.
    + cbn [fst]. split; [reflexivity|discriminate].
  - intros Hf. unfold pg_odb_read, pg_odb_exists_prefix, pg_odb_exists.
    cbn [Z.eqb GIT_OID_SHA1_HEXSIZE Pos.eqb].
    destruct (PQexecParams_fails c
                (select_object (repo_id pg) (oid_param oid)) Hf) as [e He].
    destruct (PQexecParams c (select_object _ _)) as [res c1].
    cbn [fst] in He. subst res. cbn [fst Z.eqb].
    repeat (split; [reflexivity|]).
    intros Hne. apply Z.eqb_neq in Hne. rewrite Hne.
    match goal with
    | |- context [PQexecParams c ?q] =>
        destruct (PQexecParams_fails c q Hf) as [e' He'];
        destruct (PQexecParams c q) as [res c2]
    end.
    cbn [fst] in He'. subst res. reflexivity.
Qed.

Lemma odb_lookups_agree_witness :
  (pg_odb_read_header Example.pg1 GitOid.hello_oid Example.conn_hello).1
  = Done (5, 3) /\
  (pg_odb_exists_prefix Example.pg1 GitOid.hello_oid 40 Example.conn_hello).1
  = Done GitOid.hello_oid /\
  (pg_odb_exists_prefix Example.pg1 GitOid.hello_oid 7 Example.conn_hello).1
  = Done GitOid.hello_oid /\
  (pg_odb_exists_prefix Example.pg1 GitOid.hello_oid 40
     Example.conn_failing).1 = Failed GIT_ENOTFOUND.
Proof.
  destruct (odb_lookups_agree Example.pg1 GitOid.hello_oid 7
              Example.conn_hello) as (H1 & H2 & _).
  destruct (odb_lookups_agree Example.pg1 GitOid.hello_oid 7
              Example.conn_failing) as (_ & _ & H3).
  destruct (H1 eq_refl) as (_ & Hh & Hp).
  destruct H2 as [H2 _]; [discriminate|].
  destruct (H3 eq_refl) as (_ & _ & Hf & _).
  split; [exact (eq_trans Hh eq_refl)|].
  split; [exact (eq_trans Hp eq_refl)|].
  split; [exact (eq_trans H2 eq_refl)|exact Hf].
Defined.

(** The OIDs the query of [foreach] selects. *)
Lemma select_oids_spec (repo : Z) (db : database) :
  exists oids,
    select_oids repo db = Ok (oids, db) /\
    NoDup oids /\
    forall oid, oid ∈ oids <-> is_Some (objects db !! (repo, oid)).
Proof.
  unfold select_oids. eexists. split; [reflexivity|].
  set (sel := List.filter
                (fun kv : (Z * bytes) * object_row =>
                   bool_decide (kv.1.1 = repo))
                (map_to_list (objects db))).
  assert (forall kv, kv ∈ sel <->
            objects db !! kv.1 = Some kv.2 /\ kv.1.1 = repo) as Hsel.
  { intros [k v]. unfold sel. rewrite list_elem_of_In, filter_In.
    rewrite <- list_elem_of_In, elem_of_map_to_list, bool_decide_eq_true.
    reflexivity. }
  assert (NoDup sel) as Hnd.
  { apply NoDup_ListNoDup, List.NoDup_filter, NoDup_ListNoDup,
      NoDup_map_to_list. }
  split.
  - apply NoDup_fmap_2_strong; [|exact Hnd].
    intros [[r1 n1] v1] [[r2 n2] v2] H1 H2 Heq. cbn in Heq. subst n2.
    apply Hsel in H1 as [Hl1 Hr1]. apply Hsel in H2 as [Hl2 Hr2].
    cbn [fst snd] in *. subst r1 r2. congruence.
  - intros oid. rewrite list_elem_of_fmap. split.
    + intros ([[r n] v] & -> & Hin). apply Hsel in Hin as [Hl Hr].
      cbn [fst snd] in *. subst r. eauto.
    + intros [row Hl]. exists ((repo, oid), row). split; [reflexivity|].
      apply Hsel. split; [exact Hl|reflexivity].
Qed.

(** The loop of [foreach] stops at the first callback that does not return
    0, with its return value. *)
Lemma foreach_rows_stop {S : Type}
    (cb : bytes -> S -> PGconn -> Z * S * PGconn)
    (before : list bytes) (oid : bytes) (after : list bytes)
    (payload p1 p2 : S) (c c1 c2 : PGconn) (error : Z) :
  foreach_rows cb before payload c = (0, p1, c1) ->
  cb (oid_param oid) p1 c1 = (error, p2, c2) -> error <> 0 ->
  foreach_rows cb (before ++ oid :: after) payload c = (error, p2, c2).
Proof.
  revert payload c. induction before as [|o l IH]; intros payload c.
  - cbn [foreach_rows app]. intros [= <- <-] Hcb Hne. rewrite Hcb.
    apply Z.eqb_neq in Hne. rewrite Hne. reflexivity.
  - cbn [foreach_rows app].
    destruct (cb (oid_param o) payload c) as [[e p] c'].
    destruct (e =? 0) eqn:E; cbn [negb].
    + apply IH.
    + intros [= -> _ _]. discriminate.
Qed.

(** [foreach]. When its query succeeds, the callback is run over the OIDs
    stored for the repository, each of them once and no other, up to the
    first OID at which it does not return 0: that value is then what
    [foreach] returns, and the callback is not run on the OIDs after it.
    When the query fails, [foreach] returns -1 and the callback is not
    run. *)
Theorem pg_odb_foreach_visits {S : Type}
    (pg : postgres_odb_backend)
    (cb : bytes -> S -> PGconn -> Z * S * PGconn) (payload : S)
    (c : PGconn) :
  (statement_fails c = false ->
   exists oids c0,
     NoDup oids /\
     (forall oid,
        oid ∈ oids <-> is_Some (objects (visible c) !! (repo_id pg, oid))) /\
     stored c0 = stored c /\ txn c0 = txn c /\
     pg_odb_foreach pg cb payload c = foreach_rows cb oids payload c0 /\
     forall before oid after p1 c1 error p2 c2,
       oids = before ++ oid :: after ->
       foreach_rows cb before payload c0 = (0, p1, c1) ->
       cb (oid_param oid) p1 c1 = (error, p2, c2) -> error <> 0 ->
       pg_odb_foreach pg cb payload c = (error, p2, c2)) /\
  (statement_fails c = true ->
   exists c0, pg_odb_foreach pg cb payload c = (-1, payload, c0)).
Proof.
  split.
  - intros Hok. unfold pg_odb_foreach.
    rewrite PQexecParams_ok by exact Hok.
    destruct (select_oids_spec (repo_id pg) (visible c))
      as (oids & -> & Hnd & Hin).
    exists oids, (after_ok c (visible c)).
    split; [exact Hnd|]. split; [exact Hin|].
    split; [unfold after_ok, visible; destruct (txn c); reflexivity|].
    split; [unfold after_ok, visible; destruct (txn c); reflexivity|].
    split; [reflexivity|].
    intros before oid after p1 c1 error p2 c2 -> H0 Hcb Hne.
    apply (foreach_rows_stop cb before oid after payload p1 p2 _ c1 c2 error);
      assumption.
  - intros Hf. unfold pg_odb_foreach.
    destruct (PQexecParams_fails c (select_oids (repo_id pg)) Hf) as [e He].
    destruct (PQexecParams c _) as [res c0]. cbn [fst] in He. subst res.
    exists c0. reflexivity.
Qed.

Lemma pg_odb_foreach_visits_witness :
  exists oids c0,
    NoDup oids /\
    pg_odb_foreach Example.pg1 (fun oid (seen : list bytes) c => (0, oid :: seen, c))
      [] Example.conn_hello
    = foreach_rows (fun oid (seen : list bytes) c => (0, oid :: seen, c))
        oids [] c0.
Proof.
  destruct (pg_odb_foreach_visits Example.pg1
              (fun oid (seen : list bytes) c => (0, oid :: seen, c)) []
              Example.conn_hello) as [H _].
  destruct (H eq_refl) as (oids & c0 & Hnd & _ & _ & _ & Heq & _).
  exists oids, c0. split; [exact Hnd|exact Heq].
Defined.

(** The object store only adds. Whatever the connection and whatever
    fails, [write] leaves every committed object as it is, those of other
    repositories included, adds at most the row of its key, and does not
    touch the repositories, the refs or the reflog; when it returns 0 the
    same holds of what the session sees. *)
Theorem pg_odb_write_only_adds
    (pg : postgres_odb_backend) (oid data : bytes) (type : Z) (c : PGconn) :
  let w := pg_odb_write pg oid data type c in
  let key := (repo_id pg, oid_param oid) in
  objects_grow key (stored c) (stored w.2) /\
  (w.1 = 0 -> objects_grow key (visible c) (visible w.2)).
Proof.
  assert (forall db, objects_grow (repo_id pg, oid_param oid) db db) as Hrefl.
  { intros db. repeat split; auto. }
  assert (forall db row db',
            insert_object (repo_id pg) (oid_param oid) row db = Ok (tt, db') ->
            objects_grow (repo_id pg, oid_param oid) db db') as Hins.
  { intros db row db'. unfold insert_object.
    destruct (objects db !! (repo_id pg, oid_param oid)) eqn:E.
    - intros [= <-]. apply Hrefl.
    - destruct (repositories db !! repo_id pg); [|discriminate].
      intros [= <-]. repeat split; cbn [objects set_objects]; auto.
      + intros k r Hk. rewrite lookup_insert_ne by congruence. exact Hk.
      + intros k Hk. apply lookup_insert_ne. congruence. }
  cbv zeta. unfold pg_odb_write, PQexecParams, visible.
  destruct (next_fault c) as [fault rest].
  destruct (txn c) as [|w|]; cbn [fst snd stored txn].
  - destruct fault; cbn [fst snd stored txn];
      [split; [apply Hrefl|discriminate]|].
    match goal with
    | |- context [insert_object ?r ?o ?row ?d] =>
        pose proof (Hins d row) as Hi;
        destruct (insert_object r o row d) as [[[] db']|e]
    end; cbn [fst snd stored txn].
    + split; [|intros _]; apply Hi; reflexivity.
    + split; [apply Hrefl|discriminate].
  - destruct fault; cbn [fst snd stored txn];
      [split; [apply Hrefl|discriminate]|].
    match goal with
    | |- context [insert_object ?r ?o ?row ?d] =>
        pose proof (Hins d row) as Hi;
        destruct (insert_object r o row d) as [[[] db']|e]
    end; cbn [fst snd stored txn].
    + split; [apply Hrefl|intros _; apply Hi; reflexivity].
    + split; [apply Hrefl|discriminate].
  - split; [apply Hrefl|discriminate].
Qed.

Lemma pg_odb_write_only_adds_witness :
  objects_grow (1, GitOid.hello_oid) (stored Example.conn_hello)
    (stored (pg_odb_write Example.pg1 GitOid.hello_oid (bs "other") 3
               Example.conn_hello).2).
Proof.
  destruct (pg_odb_write_only_adds Example.pg1 GitOid.hello_oid (bs "other")
              3 Example.conn_hello) as [H _].
  exact H.
Defined.

End ObjectStoreLookups.

Section RefStoreFrame.
Import Pg Refdb Frame RefdbLog.

(** A property [P] of the database that the statements of the ref store
    keep, for the repository [repo]. *)
Variable P : database -> Prop.
Variable repo : Z.
Hypothesis P_upsert_ref : forall name row, keeps P (upsert_ref repo name row).
Hypothesis P_delete_ref : forall name, keeps P (delete_ref repo name).
Hypothesis P_rename_ref :
  forall new old, keeps P (rename_ref new repo old).
Hypothesis P_insert_reflog :
  forall row, rl_repo_id row = repo -> keeps P (insert_reflog row).
Hypothesis P_delete_reflog : forall name, keeps P (delete_reflog repo name).
Hypothesis P_rename_reflog :
  forall new old, keeps P (rename_reflog new repo old).

Lemma keeps_read {R} (q : database -> R) : keeps P (fun db => Ok (q db, db)).
Proof. intros db r db' H [= _ <-]. exact H. Qed.

Lemma keeps_select_ref r name : keeps P (select_ref r name).
Proof. apply keeps_read. Qed.

Lemma keeps_count_ref r name : keeps P (count_ref r name).
Proof. apply keeps_read. Qed.

Lemma keeps_advisory key : keeps P (advisory_xact_lock key).
Proof. apply keeps_read. Qed.

Lemma keeps_select_reflog r name : keeps P (select_reflog_limit_1 r name).
Proof. apply keeps_read. Qed.

Lemma PQexecParams_inv {R} (c : PGconn) (stmt : statement R) :
  conn_inv P c -> keeps P stmt -> conn_inv P (PQexecParams c stmt).2.
Proof.
  intros [Hs Ht] Hk. unfold PQexecParams.
  destruct (next_fault c) as [fault rest].
  destruct (txn c) as [|w|].
  - destruct fault; [split; [exact Hs|exact I]|].
    destruct (stmt (stored c)) as [[r db']|e] eqn:E; cbn.
    + split; [exact (Hk _ _ _ Hs E)|exact I].
    + split; [exact Hs|exact I].
  - destruct fault; [split; [exact Hs|exact I]|].
    destruct (stmt w) as [[r w']|e] eqn:E; cbn.
    + split; [exact Hs|exact (Hk _ _ _ Ht E)].
    + split; [exact Hs|exact I].
  - split; [exact Hs|exact I].
Qed.

Lemma BEGIN_inv (c : PGconn) : conn_inv P c -> conn_inv P (BEGIN c).2.
Proof.
  intros [Hs Ht]. unfold BEGIN. destruct (next_fault c) as [[] rest];
    destruct (txn c); cbn; split; solve [exact I | assumption].
Qed.

Lemma COMMIT_inv (c : PGconn) : conn_inv P c -> conn_inv P (COMMIT c).2.
Proof.
  intros [Hs Ht]. unfold COMMIT. destruct (next_fault c) as [[] rest]; cbn.
  - split; assumption.
  - split; [|exact I]. destruct (txn c); assumption.
Qed.

Lemma ROLLBACK_inv (c : PGconn) : conn_inv P c -> conn_inv P (ROLLBACK c).
Proof. intros [Hs _]. split; [exact Hs|exact I]. Qed.

Ltac inv_keeps :=
  first [ apply keeps_select_ref | apply keeps_count_ref
        | apply keeps_advisory | apply keeps_select_reflog
        | apply P_upsert_ref | apply P_delete_ref | apply P_rename_ref
        | apply P_delete_reflog | apply P_rename_reflog
        | apply P_insert_reflog; reflexivity ].

Ltac inv_step :=
  match goal with
  | H : conn_inv P ?c |- context [PQexecParams ?c ?stmt] =>
      let Hc := fresh "Hc" in
      assert (conn_inv P (PQexecParams c stmt).2) as Hc
        by (apply PQexecParams_inv; [exact H|inv_keeps]);
      destruct (PQexecParams c stmt) as [[?|?] ?]; cbn [snd] in Hc
  | H : conn_inv P ?c |- context [BEGIN ?c] =>
      let Hc := fresh "Hc" in
      pose proof (BEGIN_inv c H) as Hc;
      destruct (BEGIN c) as [[?|?] ?]; cbn [snd] in Hc
  | H : conn_inv P ?c |- context [COMMIT ?c] =>
      let Hc := fresh "Hc" in
      pose proof (COMMIT_inv c H) as Hc;
      destruct (COMMIT c) as [[?|?] ?]; cbn [snd] in Hc
  end.

Ltac inv_done :=
  cbn [snd];
  first [ assumption | apply ROLLBACK_inv; assumption ].

Ltac inv_case :=
  match goal with
  | |- conn_inv P (snd (match ?x with _ => _ end)) => destruct x
  | |- conn_inv P (snd (if ?x then _ else _)) => destruct x
  end.

Ltac inv_auto := repeat first [ solve [inv_done] | inv_step | inv_case ].

Variable backend : postgres_refdb_backend.
Hypothesis backend_repo : repo_id backend = repo.

Lemma write_reflog_entry_inv ref_name old_oid new_oid who message c :
  conn_inv P c ->
  conn_inv P
    (write_reflog_entry backend ref_name old_oid new_oid who message c).2.
Proof.
  intros H. unfold write_reflog_entry. rewrite backend_repo. inv_auto.
Qed.

Lemma write_upsert_and_commit_inv ref who message old c :
  conn_inv P c ->
  conn_inv P (write_upsert_and_commit backend ref who message old c).2.
Proof.
  intros H. unfold write_upsert_and_commit. rewrite backend_repo.
  inv_step; [|inv_done].
  pose proof (write_reflog_entry_inv (git_reference_name ref) old
                (new_oid_of ref) who message _ Hc) as Hr.
  destruct (write_reflog_entry _ _ _ _ _ _ _) as [error c2].
  cbn [snd] in Hr. inv_auto.
Qed.

Lemma write_cas_check_inv ref_name old old_target c :
  conn_inv P c ->
  conn_inv P (write_cas_check backend ref_name old old_target c).2.
Proof. intros H. unfold write_cas_check. inv_auto. Qed.

Lemma pg_refdb_write_inv ref force who message old old_target c :
  conn_inv P c ->
  conn_inv P (pg_refdb_write backend ref force who message old old_target c).2.
Proof.
  intros H. unfold pg_refdb_write. inv_step; [|inv_done].
  destruct (force =? 0); [|apply write_upsert_and_commit_inv; assumption].
  pose proof (write_cas_check_inv (git_reference_name ref) old old_target
                _ Hc) as Hk.
  destruct (write_cas_check _ _ _ _ _) as [[code|] c2]; cbn [snd] in Hk.
  - inv_done.
  - apply write_upsert_and_commit_inv; assumption.
Qed.

Lemma rename_and_commit_inv old_name new_name c :
  conn_inv P c ->
  conn_inv P (rename_and_commit backend old_name new_name c).2.
Proof.
  intros H. unfold rename_and_commit. rewrite backend_repo. inv_auto.
Qed.

Lemma pg_refdb_rename_inv old_name new_name force c :
  conn_inv P c ->
  conn_inv P (pg_refdb_rename backend old_name new_name force c).2.
Proof.
  intros H. unfold pg_refdb_rename. inv_step; [|inv_done].
  destruct (force =? 0).
  - inv_step; [|inv_done].
    inv_case; [inv_done|].
    apply rename_and_commit_inv; assumption.
  - rewrite backend_repo. inv_step;
      apply rename_and_commit_inv; assumption.
Qed.

Lemma del_and_commit_inv ref_name c :
  conn_inv P c -> conn_inv P (del_and_commit backend ref_name c).2.
Proof. intros H. unfold del_and_commit. rewrite backend_repo. inv_auto. Qed.

Lemma pg_refdb_del_inv ref_name old_id old_target c :
  conn_inv P c ->
  conn_inv P (pg_refdb_del backend ref_name old_id old_target c).2.
Proof.
  intros H. unfold pg_refdb_del. inv_step; [|inv_done].
  destruct (_ || _); [|apply del_and_commit_inv; assumption].
  inv_step; [|inv_done].
  inv_case; [inv_done|].
  inv_case; [inv_done|].
  apply del_and_commit_inv; assumption.
Qed.

Lemma pg_refdb_lock_inv refname c :
  conn_inv P c -> conn_inv P (pg_refdb_lock backend refname c).2.
Proof. intros H. unfold pg_refdb_lock. inv_auto. Qed.

Lemma pg_refdb_unlock_inv payload success update_reflog ref sig message c :
  conn_inv P c ->
  conn_inv P
    (pg_refdb_unlock backend payload success update_reflog ref sig message c).2.
Proof.
  intros H. unfold pg_refdb_unlock.
  assert (forall (ec : Z * PGconn),
            conn_inv P ec.2 ->
            conn_inv P
              (let '(error, c') := ec in
               if error =? 0 then (error, (COMMIT c').2)
               else (error, ROLLBACK c')).2) as Hend.
  { intros [error c'] Hc'. cbn [snd] in Hc'.
    destruct (error =? 0); cbn [snd];
      [apply COMMIT_inv|apply ROLLBACK_inv]; assumption. }
  apply Hend. rewrite backend_repo.
  destruct (success =? 1); [|destruct (success =? 2)].
  - inv_step; [|inv_done].
    inv_case; [|inv_done].
    apply write_reflog_entry_inv; assumption.
  - inv_auto.
  - inv_done.
Qed.

Lemma pg_refdb_reflog_rename_inv old_name new_name c :
  conn_inv P c ->
  conn_inv P (pg_refdb_reflog_rename backend old_name new_name c).2.
Proof.
  intros H. unfold pg_refdb_reflog_rename. rewrite backend_repo. inv_auto.
Qed.

Lemma pg_refdb_reflog_delete_inv name c :
  conn_inv P c -> conn_inv P (pg_refdb_reflog_delete backend name c).2.
Proof.
  intros H. unfold pg_refdb_reflog_delete. rewrite backend_repo. inv_auto.
Qed.

End RefStoreFrame.

Section RefStoreIsolation.
Import Pg Refdb Frame RefdbLog.

Lemma same_outside_refl (repo : Z) (db : database) : same_outside repo db db.
Proof. repeat split; auto. Qed.

Lemma same_outside_set_refs (repo : Z) (db0 db : database)
    (r : gmap (Z * bytes) ref_row) :
  same_outside repo db0 db ->
  (forall r' name, r' <> repo -> r !! (r', name) = refs db !! (r', name)) ->
  same_outside repo db0 (set_refs db r).
Proof.
  intros (H1 & H2 & H3 & H4) Hr. repeat split; cbn; auto.
  intros r' name Hne. rewrite Hr by exact Hne. apply H3, Hne.
Qed.

Lemma same_outside_set_reflog (repo : Z) (db0 db : database)
    (l : list reflog_row) :
  same_outside repo db0 db ->
  List.filter (fun row => negb (bool_decide (rl_repo_id row = repo))) l
  = List.filter (fun row => negb (bool_decide (rl_repo_id row = repo)))
      (reflog db) ->
  same_outside repo db0 (set_reflog db l).
Proof.
  intros (H1 & H2 & H3 & H4) Hl. repeat split; cbn; auto.
  rewrite Hl. exact H4.
Qed.

Lemma same_outside_upsert_ref repo db0 name row :
  keeps (same_outside repo db0) (upsert_ref repo name row).
Proof.
  intros db r db' H. unfold upsert_ref.
  destruct (negb (refs_check row)); [discriminate|].
  assert (same_outside repo db0
            (set_refs db (<[(repo, name):=row]> (refs db)))) as Hset.
  { apply same_outside_set_refs; [exact H|].
    intros r' n Hne. apply lookup_insert_ne. congruence. }
  destruct (refs db !! (repo, name)), (repositories db !! repo);
    try discriminate; intros [= _ <-]; exact Hset.
Qed.

Lemma same_outside_delete_ref repo db0 name :
  keeps (same_outside repo db0) (delete_ref repo name).
Proof.
  intros db r db' H. unfold delete_ref.
  destruct (refs db !! (repo, name)); intros [= _ <-]; [|exact H].
  apply same_outside_set_refs; [exact H|].
  intros r' n Hne. apply lookup_delete_ne. congruence.
Qed.

Lemma same_outside_rename_ref repo db0 new old :
  keeps (same_outside repo db0) (rename_ref new repo old).
Proof.
  intros db r db' H. unfold rename_ref.
  destruct (refs db !! (repo, old)); [|intros [= _ <-]; exact H].
  destruct (bool_decide (new = old)); [intros [= _ <-]; exact H|].
  destruct (refs db !! (repo, new)); [discriminate|].
  intros [= _ <-]. apply same_outside_set_refs; [exact H|].
  intros r' n Hne. rewrite lookup_insert_ne by congruence.
  apply lookup_delete_ne. congruence.
Qed.

Lemma same_outside_insert_reflog repo db0 row :
  rl_repo_id row = repo -> keeps (same_outside repo db0) (insert_reflog row).
Proof.
  intros Hrow db r db' H. unfold insert_reflog.
  destruct (repositories db !! rl_repo_id row); [|discriminate].
  intros [= _ <-]. apply same_outside_set_reflog; [exact H|].
  rewrite List.filter_app. cbn [List.filter].
  rewrite bool_decide_eq_true_2 by exact Hrow. cbn [negb].
  apply app_nil_r.
Qed.

Lemma same_outside_delete_reflog repo db0 name :
  keeps (same_outside repo db0) (delete_reflog repo name).
Proof.
  intros db r db' H [= _ <-]. apply same_outside_set_reflog; [exact H|].
  induction (reflog db) as [|row l IH]; [reflexivity|].
  cbn [List.filter].
  destruct (bool_decide (rl_repo_id row = repo /\ rl_ref_name row = name))
    eqn:E; cbn [negb].
  - apply bool_decide_eq_true in E as [Er _].
    rewrite (bool_decide_eq_true_2 _ Er). cbn [negb]. exact IH.
  - cbn [List.filter]. destruct (negb _); [f_equal|]; exact IH.
Qed.

Lemma same_outside_rename_reflog repo db0 new old :
  keeps (same_outside repo db0) (rename_reflog new repo old).
Proof.
  intros db r db' H [= _ <-]. apply same_outside_set_reflog; [exact H|].
  induction (reflog db) as [|row l IH]; [reflexivity|].
  cbn [List.filter map].
  destruct (bool_decide (rl_repo_id row = repo /\ rl_ref_name row = old))
    eqn:E.
  - apply bool_decide_eq_true in E as [Er _]. cbn [rl_repo_id].
    rewrite (bool_decide_eq_true_2 _ Er). cbn [negb]. exact IH.
  - destruct (negb _); [f_equal|]; exact IH.
Qed.

Ltac frame_keeps :=
  first [ eassumption | reflexivity
        | apply same_outside_upsert_ref | apply same_outside_delete_ref
        | apply same_outside_rename_ref | apply same_outside_insert_reflog
        | apply same_outside_delete_reflog
        | apply same_outside_rename_reflog ].

Lemma keeps_or {R} (P Q : database -> Prop) (stmt : statement R) :
  keeps P stmt -> keeps Q stmt -> keeps (fun db => P db \/ Q db) stmt.
Proof.
  intros HP HQ db r db' [H|H] Hs; [left; exact (HP _ _ _ H Hs)|].
  right. exact (HQ _ _ _ H Hs).
Qed.

(** Every connection holds databases that are the committed database or
    the working copy. *)
Lemma conn_inv_near (repo : Z) (c : PGconn) : conn_inv (near repo c) c.
Proof.
  split; [left; apply same_outside_refl|].
  unfold near, visible. destruct (txn c); [exact I| |exact I].
  right. apply same_outside_refl.
Qed.

Ltac near_keeps :=
  first [ apply conn_inv_near
        | reflexivity
        | intros; apply keeps_or; frame_keeps; try eassumption ].

(** The ref store stays inside its repository. Take any connection, with
    or without an open transaction, whatever that transaction holds and
    whatever fails. After an operation of the backend of one repository,
    the committed database and the working copy of a transaction still
    open are each the committed database before or the working copy
    before (a COMMIT inside the operation commits what the transaction
    held, a ROLLBACK discards it), up to refs and reflog rows of the
    backend's repository: the repositories, the objects, and the refs and
    reflog rows of every other repository are those of one of the two. On
    an idle connection the committed database after [write], [rename] or
    [del] thus differs from the one before at most in rows of the
    repository. And along any sequence of operations: a connection whose
    databases agree with some [db0] outside the repository keeps
    agreeing with it. *)
Theorem refdb_stays_in_repository
    (backend : postgres_refdb_backend) (c : PGconn)
    (ref : git_reference) (force : Z) (who : option git_signature)
    (message old old_target : option bytes) (old_name new_name : bytes)
    (payload : pg_ref_lock) (success update_reflog : Z) :
  let inv := conn_inv (near (repo_id backend) c) in
  let inv_of db0 := conn_inv (same_outside (repo_id backend) db0) in
  (inv (pg_refdb_write backend ref force who message old old_target c).2 /\
   inv (pg_refdb_rename backend old_name new_name force c).2 /\
   inv (pg_refdb_del backend old_name old old_target c).2 /\
   inv (pg_refdb_lock backend old_name c).2 /\
   inv (pg_refdb_unlock backend payload success update_reflog ref who
          message c).2 /\
   inv (pg_refdb_reflog_rename backend old_name new_name c).2 /\
   inv (pg_refdb_reflog_delete backend old_name c).2) /\
  (txn c = Idle ->
   same_outside (repo_id backend) (stored c)
     (stored (pg_refdb_write backend ref force who message old old_target
                c).2) /\
   same_outside (repo_id backend) (stored c)
     (stored (pg_refdb_rename backend old_name new_name force c).2) /\
   same_outside (repo_id backend) (stored c)
     (stored (pg_refdb_del backend old_name old old_target c).2)) /\
  (forall db0,
     inv_of db0 c ->
     inv_of db0
       (pg_refdb_write backend ref force who message old old_target c).2 /\
     inv_of db0 (pg_refdb_rename backend old_name new_name force c).2 /\
     inv_of db0 (pg_refdb_del backend old_name old old_target c).2 /\
     inv_of db0 (pg_refdb_lock backend old_name c).2 /\
     inv_of db0
       (pg_refdb_unlock backend payload success update_reflog ref who
          message c).2 /\
     inv_of db0 (pg_refdb_reflog_rename backend old_name new_name c).2 /\
     inv_of db0 (pg_refdb_reflog_delete backend old_name c).2).
Proof.
  assert (forall db1 c1,
            conn_inv (same_outside (repo_id backend) db1) c1 ->
            conn_inv (same_outside (repo_id backend) db1)
              (pg_refdb_write backend ref force who message old old_target
                 c1).2 /\
            conn_inv (same_outside (repo_id backend) db1)
              (pg_refdb_rename backend old_name new_name force c1).2 /\
            conn_inv (same_outside (repo_id backend) db1)
              (pg_refdb_del backend old_name old old_target c1).2 /\
            conn_inv (same_outside (repo_id backend) db1)
              (pg_refdb_lock backend old_name c1).2 /\
            conn_inv (same_outside (repo_id backend) db1)
              (pg_refdb_unlock backend payload success update_reflog ref who
                 message c1).2 /\
            conn_inv (same_outside (repo_id backend) db1)
              (pg_refdb_reflog_rename backend old_name new_name c1).2 /\
            conn_inv (same_outside (repo_id backend) db1)
              (pg_refdb_reflog_delete backend old_name c1).2) as Hall.
  { intros db1 c1 H.
    split; [|split; [|split; [|split; [|split; [|split]]]]].
    - eapply pg_refdb_write_inv; frame_keeps.
    - eapply pg_refdb_rename_inv; frame_keeps.
    - eapply pg_refdb_del_inv; frame_keeps.
    - eapply pg_refdb_lock_inv; frame_keeps.
    - eapply pg_refdb_unlock_inv; frame_keeps.
    - eapply pg_refdb_reflog_rename_inv; frame_keeps.
    - eapply pg_refdb_reflog_delete_inv; frame_keeps. }
  cbv zeta. split; [|split].
  - unfold near.
    split; [|split; [|split; [|split; [|split; [|split]]]]].
    + eapply pg_refdb_write_inv; near_keeps.
    + eapply pg_refdb_rename_inv; near_keeps.
    + eapply pg_refdb_del_inv; near_keeps.
    + eapply pg_refdb_lock_inv; near_keeps.
    + eapply pg_refdb_unlock_inv; near_keeps.
    + eapply pg_refdb_reflog_rename_inv; near_keeps.
    + eapply pg_refdb_reflog_delete_inv; near_keeps.
  - intros Hidle.
    assert (conn_inv (same_outside (repo_id backend) (stored c)) c) as Hc.
    { split; [apply same_outside_refl|rewrite Hidle; exact I]. }
    destruct (Hall (stored c) c Hc) as ([Hw _] & [Hr _] & [Hd _] & _).
    auto.
  - intros db0. apply Hall.
Qed.

(** A connection whose open transaction has written the blob [hello],
    not yet committed. *)
Lemma refdb_stays_in_repository_witness :
  near 1
    {| stored := Example.db_empty_repo; txn := InTxn Example.db_hello;
       faults := [] |}
    (stored (pg_refdb_write Example.refdb1
               (Direct (bs "refs/heads/main") Example.oid_bb) 1 None None
               None None
               {| stored := Example.db_empty_repo;
                  txn := InTxn Example.db_hello; faults := [] |}).2) /\
  same_outside 1 Example.db_refs
    (stored (pg_refdb_del Example.refdb1 (bs "refs/heads/main") None None
               Example.conn_refs).2).
Proof.
  split.
  - destruct (refdb_stays_in_repository Example.refdb1
                {| stored := Example.db_empty_repo;
                   txn := InTxn Example.db_hello; faults := [] |}
                (Direct (bs "refs/heads/main") Example.oid_bb) 1 None None
                None None (bs "refs/heads/main") (bs "refs/heads/trunk")
                {| lock_key := 0; refname := [] |} 0 0) as [[[Hw _] _] _].
    exact Hw.
  - destruct (refdb_stays_in_repository Example.refdb1 Example.conn_refs
                (Direct (bs "refs/heads/main") Example.oid_bb) 1 None None
                None None (bs "refs/heads/main") (bs "refs/heads/trunk")
                {| lock_key := 0; refname := [] |} 0 0) as (_ & H & _).
    destruct (H eq_refl) as (_ & _ & Hd). exact Hd.
Defined.

End RefStoreIsolation.

Section RefStoreRoundTrips.
Import Pg Odb Refdb RefdbLog.

(** [lookup] and [exists] on a connection whose next statement does not
    fail, in terms of the row stored under the name. *)
Lemma pg_refdb_lookup_row backend ref_name c :
  statement_fails c = false ->
  (pg_refdb_lookup backend ref_name c).1
  = match refs (visible c) !! (repo_id backend, ref_name) with
    | None => Failed GIT_ENOTFOUND
    | Some row => ref_from_result ref_name (ref_oid row) (ref_symbolic row)
    end /\
  (pg_refdb_exists backend ref_name c).1
  = Done (match refs (visible c) !! (repo_id backend, ref_name) with
          | Some _ => 1
          | None => 0
          end).
Proof.
  intros Hok. unfold pg_refdb_lookup, pg_refdb_exists.
  rewrite !PQexecParams_ok by exact Hok. unfold select_ref.
  destruct (refs (visible c) !! (repo_id backend, ref_name)) as [row|];
    cbn [fst]; split; try reflexivity.
  destruct (ref_oid row); reflexivity.
Qed.

(** Writing a reference and looking it up. Whatever the connection, a
    [write] that returns 0 has committed the reference and left no
    transaction open; [exists] then returns 1 and [lookup] returns the
    reference written, when their query does not fail. *)
Theorem pg_refdb_write_then_lookup
    (backend : postgres_refdb_backend) (ref : git_reference) (force : Z)
    (who : option git_signature) (message old old_target : option bytes)
    (c : PGconn) :
  let w := pg_refdb_write backend ref force who message old old_target c in
  let ref_name := git_reference_name ref in
  w.1 = 0 ->
  match ref with
  | Direct _ oid => length oid = 20%nat
  | Symbolic _ _ => True
  end ->
  txn w.2 = Idle /\
  refs (stored w.2) !! (repo_id backend, ref_name)
  = Some (row_of_reference ref) /\
  (statement_fails w.2 = false ->
   (pg_refdb_exists backend ref_name w.2).1 = Done 1 /\
   (pg_refdb_lookup backend ref_name w.2).1 = Done ref).
Proof.
  cbv zeta. intros Hz Hlen.
  destruct (pg_refdb_write_zero backend ref force who message old old_target
              c Hz) as [Ht Hrow].
  split; [exact Ht|]. split; [exact Hrow|].
  intros Hok.
  destruct (pg_refdb_lookup_row backend (git_reference_name ref) _ Hok)
    as [Hl He].
  unfold visible in Hl, He. rewrite Ht, Hrow in Hl, He.
  split; [exact He|]. rewrite Hl.
  destruct ref as [name oid|name target]; cbn.
  - unfold oid_param. change (Z.to_nat GIT_OID_SHA1_SIZE) with 20%nat.
    rewrite firstn_all2 by lia. rewrite Hlen. reflexivity.
  - reflexivity.
Qed.

Lemma pg_refdb_write_then_lookup_witness :
  (pg_refdb_lookup Example.refdb1 (bs "refs/heads/main")
     (pg_refdb_write Example.refdb1
        (Direct (bs "refs/heads/main") Example.oid_bb) 1 None None None None
        Example.conn_refs).2).1
  = Done (Direct (bs "refs/heads/main") Example.oid_bb).
Proof.
  destruct (pg_refdb_write_then_lookup Example.refdb1
              (Direct (bs "refs/heads/main") Example.oid_bb) 1 None None
              None None Example.conn_refs) as (_ & _ & H).
  - vm_compute. reflexivity.
  - reflexivity.
  - apply H. vm_compute. reflexivity.
Defined.

(** Steps on a connection with no failure ahead. *)
Lemma PQexecParams_idle {R} (c : PGconn) (db' : database)
    (stmt : statement R) (r : R) :
  reliable c = true -> txn c = Idle -> stmt (stored c) = Ok (r, db') ->
  exists c',
    PQexecParams c stmt = (Ok r, c') /\ reliable c' = true /\
    txn c' = Idle /\ stored c' = db'.
Proof.
  intros Hr Ht Hs. destruct (reliable_next_fault c Hr) as [Hf Hrest].
  unfold PQexecParams. destruct (next_fault c) as [fault rest].
  cbn [fst snd] in Hf, Hrest. subst fault. rewrite Ht, Hs.
  eexists. split; [reflexivity|]. repeat split. exact Hrest.
Qed.

Lemma PQexecParams_in_work_error {R} (c : PGconn) (w : database)
    (stmt : statement R) (e : pg_error) :
  reliable c = true -> txn c = InTxn w -> stmt w = Error e ->
  exists c',
    PQexecParams c stmt = (Error e, c') /\ reliable c' = true /\
    txn c' = Aborted /\ stored c' = stored c.
Proof.
  intros Hr Ht Hs. destruct (reliable_next_fault c Hr) as [Hf Hrest].
  unfold PQexecParams. destruct (next_fault c) as [fault rest].
  cbn [fst snd] in Hf, Hrest. subst fault. rewrite Ht, Hs.
  eexists. split; [reflexivity|]. repeat split. exact Hrest.
Qed.

Lemma COMMIT_reliable (c : PGconn) :
  reliable c = true ->
  exists c',
    COMMIT c = (Ok tt, c') /\ reliable c' = true /\ txn c' = Idle /\
    stored c' = visible c.
Proof.
  intros Hr. destruct (reliable_next_fault c Hr) as [Hf Hrest].
  unfold COMMIT, visible. destruct (next_fault c) as [fault rest].
  cbn [fst snd] in Hf, Hrest. subst fault.
  eexists. split; [reflexivity|]. split; [exact Hrest|].
  split; [reflexivity|]. cbn. destruct (txn c); reflexivity.
Qed.

Lemma ROLLBACK_reliable (c : PGconn) :
  reliable c = true ->
  reliable (ROLLBACK c) = true /\ txn (ROLLBACK c) = Idle /\
  stored (ROLLBACK c) = stored c.
Proof.
  intros Hr. destruct (reliable_next_fault c Hr) as [_ Hrest].
  unfold ROLLBACK. repeat split. exact Hrest.
Qed.

Lemma del_and_commit_reliable backend ref_name c w :
  reliable c = true -> txn c = InTxn w ->
  exists c' n w1 w2,
    del_and_commit backend ref_name c = (0, c') /\
    reliable c' = true /\ txn c' = Idle /\
    delete_ref (repo_id backend) ref_name w = Ok (n, w1) /\
    delete_reflog (repo_id backend) ref_name w1 = Ok (tt, w2) /\
    stored c' = w2.
Proof.
  intros Hr Ht. unfold del_and_commit.
  assert (exists n w1, delete_ref (repo_id backend) ref_name w = Ok (n, w1))
    as (n & w1 & Hd).
  { unfold delete_ref. destruct (refs w !! _); eauto. }
  destruct (PQexecParams_in_work c w w1 _ n Hr Ht Hd)
    as (c1 & -> & Hr1 & Ht1 & Hs1).
  destruct (PQexecParams_in_work c1 w1 _
              (delete_reflog (repo_id backend) ref_name) tt Hr1 Ht1 eq_refl)
    as (c2 & -> & Hr2 & Ht2 & Hs2).
  destruct (COMMIT_reliable c2 Hr2) as (c3 & -> & Hr3 & Ht3 & Hs3).
  exists c3, n, w1. eexists.
  split; [reflexivity|]. split; [exact Hr3|]. split; [exact Ht3|].
  split; [exact Hd|]. split; [reflexivity|].
  rewrite Hs3. unfold visible. rewrite Ht2. reflexivity.
Qed.

(** What the two DELETE statements of [del] leave. *)
Lemma delete_ref_reflog_effect (repo : Z) (name : bytes) (w w1 w2 : database)
    (n : Z) :
  delete_ref repo name w = Ok (n, w1) ->
  delete_reflog repo name w1 = Ok (tt, w2) ->
  refs w2 !! (repo, name) = None /\
  (forall k, k <> (repo, name) -> refs w2 !! k = refs w !! k) /\
  reflog_of repo name w2 = [] /\
  objects w2 = objects w /\ repositories w2 = repositories w.
Proof.
  unfold delete_ref, delete_reflog, reflog_of.
  intros Hd [= <-]. cbn [refs set_reflog reflog objects repositories].
  assert (forall (l : list reflog_row),
            List.filter
              (fun r => bool_decide (rl_repo_id r = repo
                                     /\ rl_ref_name r = name))
              (List.filter
                 (fun r => negb (bool_decide (rl_repo_id r = repo
                                              /\ rl_ref_name r = name))) l)
            = []) as Hnil.
  { induction l as [|r l IH]; [reflexivity|]. cbn [List.filter].
    destruct (bool_decide _) eqn:E; cbn [negb]; [exact IH|].
    cbn [List.filter]. rewrite E. exact IH. }
  destruct (refs w !! (repo, name)) eqn:E; injection Hd as <- <-.
  - cbn [refs set_refs objects repositories reflog].
    split; [apply lookup_delete_eq|].
    split; [intros k Hk; apply lookup_delete_ne; congruence|].
    split; [apply Hnil|]. split; reflexivity.
  - split; [exact E|]. split; [reflexivity|].
    split; [apply Hnil|]. split; reflexivity.
Qed.

(** The database the two DELETE statements of [del] leave. *)
Lemma delete_ref_reflog_exact (repo : Z) (name : bytes) (w w1 w2 : database)
    (n : Z) :
  delete_ref repo name w = Ok (n, w1) ->
  delete_reflog repo name w1 = Ok (tt, w2) ->
  w2 = {| repositories := repositories w;
          objects := objects w;
          refs := delete (repo, name) (refs w);
          reflog :=
            List.filter
              (fun r => negb (bool_decide (rl_repo_id r = repo
                                           /\ rl_ref_name r = name)))
              (reflog w) |}.
Proof.
  unfold delete_ref, delete_reflog. intros Hd [= <-].
  destruct (refs w !! (repo, name)) eqn:E; injection Hd as <- <-.
  - reflexivity.
  - unfold set_reflog. rewrite (delete_id _ _ E). reflexivity.
Qed.

Lemma pg_refdb_has_log_row backend refname c :
  statement_fails c = false ->
  (pg_refdb_has_log backend refname c).1
  = match reflog_of (repo_id backend) refname (visible c) with
    | [] => 0
    | _ :: _ => 1
    end.
Proof.
  intros Hok. unfold pg_refdb_has_log.
  rewrite PQexecParams_ok by exact Hok.
  unfold select_reflog_limit_1, reflog_of. cbn [fst].
  induction (reflog (visible c)) as [|r l IH]; [reflexivity|].
  cbn [existsb List.filter]. destruct (bool_decide _); [reflexivity|].
  exact IH.
Qed.

(** [del] on a connection where no statement fails and no transaction is
    open. With neither [old_id] nor [old_target] it returns 0, whether the
    ref is stored or not. With one of them and the ref not stored it
    returns GIT_ENOTFOUND. With the ref stored, an [old_id] that is not its
    OID and an [old_target] that is not its target give GIT_EEXISTS, also
    when the ref is of the other kind; when what is supplied matches, it
    returns 0. A [del] that returns 0 leaves no row under the name and no
    reflog row of the ref, and every other ref as it was: [lookup] then
    returns GIT_ENOTFOUND and [has_log] 0. The database it has committed
    is the one before with that row of [refs] deleted and the reflog rows
    of the ref filtered out: the repositories, the objects, every other
    ref and every other reflog row, in their order, are as they were. One
    that does not return 0 leaves the database as it was. *)
Theorem pg_refdb_del_cas
    (backend : postgres_refdb_backend) (ref_name : bytes)
    (old_id old_target : option bytes) (c : PGconn) :
  reliable c = true -> txn c = Idle ->
  let key := (repo_id backend, ref_name) in
  let d := pg_refdb_del backend ref_name old_id old_target c in
  (old_id = None -> old_target = None -> d.1 = 0) /\
  (refs (stored c) !! key = None ->
   is_Some old_id \/ is_Some old_target -> d.1 = GIT_ENOTFOUND) /\
  (forall row, refs (stored c) !! key = Some row ->
     (forall id, old_id = Some id -> ref_oid row <> Some (oid_param id) ->
                 d.1 = GIT_EEXISTS) /\
     (forall target, old_target = Some target ->
                     ref_symbolic row <> Some target -> d.1 = GIT_EEXISTS) /\
     ((forall id, old_id = Some id ->
                  length id = 20%nat /\ ref_oid row = Some id) ->
      (forall target, old_target = Some target ->
                      ref_symbolic row = Some target) ->
      d.1 = 0)) /\
  (d.1 = 0 ->
   refs (stored d.2) !! key = None /\
   (forall k, k <> key -> refs (stored d.2) !! k = refs (stored c) !! k) /\
   reflog_of (repo_id backend) ref_name (stored d.2) = [] /\
   (pg_refdb_lookup backend ref_name d.2).1 = Failed GIT_ENOTFOUND /\
   (pg_refdb_has_log backend ref_name d.2).1 = 0 /\
   stored d.2
   = {| repositories := repositories (stored c);
        objects := objects (stored c);
        refs := delete key (refs (stored c));
        reflog :=
          List.filter
            (fun r => negb (bool_decide (rl_repo_id r = repo_id backend
                                         /\ rl_ref_name r = ref_name)))
            (reflog (stored c)) |}) /\
  (d.1 <> 0 -> stored d.2 = stored c) /\
  txn d.2 = Idle /\ reliable d.2 = true.
Proof.
  intros Hr Ht key d.
  (* the outcome, in terms of the verdict of the checks *)
  set (verdict :=
         if bool_decide (is_Some old_id) || bool_decide (is_Some old_target)
         then match refs (stored c) !! key with
              | None => Some GIT_ENOTFOUND
              | Some row => del_check old_id old_target row
              end
         else None).
  assert (exists c',
            d = (match verdict with Some code => code | None => 0 end, c') /\
            reliable c' = true /\ txn c' = Idle /\
            match verdict with
            | Some _ => stored c' = stored c
            | None =>
                exists n w1,
                  delete_ref (repo_id backend) ref_name (stored c)
                  = Ok (n, w1) /\
                  delete_reflog (repo_id backend) ref_name w1
                  = Ok (tt, stored c')
            end) as (c' & Hd & Hr' & Ht' & Heff).
  { unfold d, pg_refdb_del, verdict.
    destruct (BEGIN_ok c Hr Ht) as (c1 & -> & Hr1 & Ht1 & Hs1).
    destruct (_ || _).
    - destruct (PQexecParams_in_work c1 (stored c) (stored c)
                  (select_ref (repo_id backend) ref_name) _ Hr1 Ht1 eq_refl)
        as (c2 & -> & Hr2 & Ht2 & Hs2).
      fold key.
      destruct (refs (stored c) !! key) as [row|].
      + destruct (del_check old_id old_target row) as [code|].
        * destruct (ROLLBACK_reliable c2 Hr2) as (Hr3 & Ht3 & Hs3).
          eexists. split; [reflexivity|]. split; [exact Hr3|].
          split; [exact Ht3|]. congruence.
        * destruct (del_and_commit_reliable backend ref_name c2 (stored c)
                      Hr2 Ht2) as (c3 & n & w1 & w2 & -> & Hr3 & Ht3 & Hd1
                                   & Hd2 & Hs3).
          exists c3. split; [reflexivity|]. split; [exact Hr3|].
          split; [exact Ht3|]. exists n, w1. subst w2. auto.
      + destruct (ROLLBACK_reliable c2 Hr2) as (Hr3 & Ht3 & Hs3).
        eexists. split; [reflexivity|]. split; [exact Hr3|].
        split; [exact Ht3|]. congruence.
    - destruct (del_and_commit_reliable backend ref_name c1 (stored c)
                  Hr1 Ht1) as (c3 & n & w1 & w2 & -> & Hr3 & Ht3 & Hd1
                               & Hd2 & Hs3).
      exists c3. split; [reflexivity|]. split; [exact Hr3|].
      split; [exact Ht3|]. exists n, w1. subst w2. auto. }
  assert (forall code, verdict = Some code -> code <> 0) as Hcode.
  { unfold verdict. intros code. destruct (_ || _); [|discriminate].
    destruct (refs (stored c) !! key) as [row|];
      [|intros [= <-]; discriminate].
    unfold del_check.
    repeat match goal with
           | |- context [if ?b then _ else _] => destruct b
           end; try discriminate; intros [= <-]; discriminate. }
  rewrite Hd. cbn [fst snd].
  split; [|split; [|split; [|split; [|split]]]].
  - intros -> ->. reflexivity.
  - intros Hnone Hsome. unfold verdict. rewrite Hnone.
    destruct Hsome as [Hs|Hs]; rewrite (bool_decide_eq_true_2 _ Hs);
      rewrite ?orb_true_r; reflexivity.
  - intros row Hrow. unfold verdict. rewrite Hrow. unfold del_check.
    split; [|split].
    + intros id -> Hne. cbn [bool_decide orb].
      rewrite bool_decide_eq_true_2 by eauto. cbn [orb].
      destruct (ref_oid row) as [cur|]; [|reflexivity].
      rewrite (bool_decide_eq_false_2 (cur = oid_param id)) by congruence.
      cbn [negb]. rewrite orb_true_r. reflexivity.
    + intros target -> Hne.
      rewrite (bool_decide_eq_true_2 (is_Some (Some target))) by eauto.
      rewrite orb_true_r.
      assert (match ref_symbolic row with
              | Some cur => negb (bool_decide (cur = target))
              | None => true
              end = true) as Hbad.
      { destruct (ref_symbolic row) as [cur|]; [|reflexivity].
        rewrite bool_decide_eq_false_2 by congruence. reflexivity. }
      rewrite Hbad.
      match goal with
      | |- context [if ?b then _ else _] => destruct b
      end; reflexivity.
    + intros Hid Htg.
      assert (match old_id with
              | Some id =>
                  match ref_oid row with
                  | Some cur =>
                      negb (Z.of_nat (length cur) =? GIT_OID_SHA1_SIZE)
                      || negb (bool_decide (cur = oid_param id))
                  | None => true
                  end
              | None => false
              end = false) as H1.
      { destruct old_id as [id|]; [|reflexivity].
        destruct (Hid id eq_refl) as [Hlen ->].
        assert (oid_param id = id) as ->.
        { unfold oid_param. change (Z.to_nat GIT_OID_SHA1_SIZE) with 20%nat.
          apply firstn_all2. lia. }
        rewrite Hlen, bool_decide_eq_true_2 by reflexivity. reflexivity. }
      assert (match old_target with
              | Some target =>
                  match ref_symbolic row with
                  | Some cur => negb (bool_decide (cur = target))
                  | None => true
                  end
              | None => false
              end = false) as H2.
      { destruct old_target as [target|]; [|reflexivity].
        rewrite (Htg target eq_refl).
        rewrite bool_decide_eq_true_2 by reflexivity. reflexivity. }
      rewrite H1, H2. destruct (_ || _); reflexivity.
  - intros Hz. destruct verdict as [code|] eqn:Ev.
    { exfalso. exact (Hcode code eq_refl Hz). }
    destruct Heff as (n & w1 & Hd1 & Hd2).
    destruct (delete_ref_reflog_effect _ _ _ _ _ _ Hd1 Hd2)
      as (E1 & E2 & E3 & _).
    split; [exact E1|]. split; [exact E2|]. split; [exact E3|].
    assert (statement_fails c' = false) as Hok
      by (apply reliable_not_failing; [exact Hr'|rewrite Ht'; discriminate]).
    destruct (pg_refdb_lookup_row backend ref_name c' Hok) as [Hl _].
    rewrite Hl, (pg_refdb_has_log_row backend ref_name c' Hok).
    unfold visible. rewrite Ht', E1, E3.
    split; [reflexivity|]. split; [reflexivity|].
    apply (delete_ref_reflog_exact _ _ _ _ _ _ Hd1 Hd2).
  - intros Hne. destruct verdict as [code|]; [exact Heff|contradiction].
  - split; assumption.
Qed.

Lemma pg_refdb_del_cas_witness :
  (pg_refdb_del Example.refdb1 (bs "refs/heads/main")
     (Some Example.oid_cc) None Example.conn_refs).1 = GIT_EEXISTS /\
  (pg_refdb_lookup Example.refdb1 (bs "refs/heads/main")
     (pg_refdb_del Example.refdb1 (bs "refs/heads/main")
        (Some Example.oid_aa) None Example.conn_refs).2).1
  = Failed GIT_ENOTFOUND /\
  stored (pg_refdb_del Example.refdb1 (bs "refs/heads/main")
            (Some Example.oid_aa) None Example.conn_refs).2
  = {| repositories := repositories Example.db_refs;
       objects := objects Example.db_refs;
       refs := delete (1, bs "refs/heads/main") (refs Example.db_refs);
       reflog := [] |}.
Proof.
  destruct (pg_refdb_del_cas Example.refdb1 (bs "refs/heads/main")
              (Some Example.oid_cc) None Example.conn_refs eq_refl eq_refl)
    as (_ & _ & H1 & _).
  destruct (pg_refdb_del_cas Example.refdb1 (bs "refs/heads/main")
              (Some Example.oid_aa) None Example.conn_refs eq_refl eq_refl)
    as (_ & _ & _ & H2 & _).
  split.
  - destruct (H1 {| ref_oid := Some Example.oid_aa; ref_symbolic := None |}
                eq_refl) as (H & _).
    apply (H Example.oid_cc); [reflexivity|]. vm_compute. discriminate.
  - destruct H2 as (_ & _ & _ & H & _ & Hdb); [vm_compute; reflexivity|].
    split; [exact H|exact Hdb].
Defined.

(** A [del] that returns 0 without deleting. The result of the DELETE on
    the reflog is not looked at: when the server fails that statement, and
    only that one, the transaction is aborted, the COMMIT that follows
    rolls it back and succeeds, and [del] returns 0 with the ref still
    stored. *)
Theorem pg_refdb_del_unchecked_reflog_failure
    (backend : postgres_refdb_backend) (ref_name : bytes) (c : PGconn)
    (rest : list bool) :
  txn c = Idle -> faults c = false :: false :: true :: false :: rest ->
  let d := pg_refdb_del backend ref_name None None c in
  d.1 = 0 /\ stored d.2 = stored c /\ txn d.2 = Idle.
Proof.
  intros Ht Hf. cbv zeta.
  unfold pg_refdb_del, BEGIN, next_fault. rewrite Hf, Ht. cbn [orb bool_decide].
  rewrite !bool_decide_eq_false_2 by (intros [x Hx]; discriminate).
  cbn [orb]. unfold del_and_commit, PQexecParams, next_fault.
  cbn [faults txn stored].
  assert (exists n w1,
            delete_ref (repo_id backend) ref_name (stored c) = Ok (n, w1))
    as (n & w1 & ->).
  { unfold delete_ref. destruct (refs (stored c) !! _); eauto. }
  cbn [faults txn stored fst snd].
  unfold COMMIT, next_fault; cbn [faults txn stored fst snd].
  repeat split.
Qed.

Lemma pg_refdb_del_unchecked_reflog_failure_witness :
  (pg_refdb_del Example.refdb1 (bs "refs/heads/main") None None
     {| stored := Example.db_refs; txn := Idle;
        faults := [false; false; true; false] |}).1 = 0 /\
  is_Some
    (refs (stored
             (pg_refdb_del Example.refdb1 (bs "refs/heads/main") None None
                {| stored := Example.db_refs; txn := Idle;
                   faults := [false; false; true; false] |}).2)
     !! (1, bs "refs/heads/main")).
Proof.
  destruct (pg_refdb_del_unchecked_reflog_failure Example.refdb1
              (bs "refs/heads/main")
              {| stored := Example.db_refs; txn := Idle;
                 faults := [false; false; true; false] |} []
              eq_refl eq_refl) as (H1 & H2 & _).
  split; [exact H1|]. rewrite H2. vm_compute. eauto.
Defined.

Lemma length_hex_encode (b : bytes) :
  length (hex_encode b) = (2 * length b)%nat.
Proof.
  unfold hex_encode. induction b as [|x b IH]; [reflexivity|].
  cbn [flat_map length app]. rewrite IH. lia.
Qed.

(** A 20-byte OID read from a text-format result is not accepted. *)
Lemma ref_from_result_text_oid (name oid : bytes) (sym : option bytes) :
  length oid = 20%nat ->
  ref_from_result name (bytea_field TextFormat <$> Some oid) sym
  = Failed (-1).
Proof.
  intros Hlen. unfold ref_from_result, bytea_field. cbn [fmap option_fmap option_map].
  rewrite length_app, length_hex_encode, Hlen. reflexivity.
Qed.

Lemma rename_and_commit_reliable backend old_name new_name c w :
  reliable c = true -> txn c = InTxn w ->
  let r := rename_and_commit backend old_name new_name c in
  reliable r.2 = true /\ txn r.2 = Idle /\
  match refs w !! (repo_id backend, old_name) with
  | None => r.1 = Failed GIT_ENOTFOUND /\ stored r.2 = stored c
  | Some row =>
      new_name <> old_name ->
      refs w !! (repo_id backend, new_name) = None ->
      match ref_from_result new_name
              (bytea_field TextFormat <$> ref_oid row) (ref_symbolic row) with
      | Failed _ => r.1 = Failed (-1) /\ stored r.2 = stored c
      | Done out =>
          r.1 = Done out /\
          exists w1,
            rename_ref new_name (repo_id backend) old_name w = Ok (1, w1) /\
            rename_reflog new_name (repo_id backend) old_name w1
            = Ok (tt, stored r.2)
      end
  end.
Proof.
  intros Hr Ht. cbv zeta. unfold rename_and_commit.
  destruct (refs w !! (repo_id backend, old_name)) as [row|] eqn:Eold.
  - destruct (decide (new_name = old_name)) as [Heq|Hne].
    + (* the statement says nothing; the connection is still settled *)
      assert (rename_ref new_name (repo_id backend) old_name w = Ok (1, w))
        as Hren.
      { unfold rename_ref. rewrite Eold.
        rewrite bool_decide_eq_true_2 by exact Heq. reflexivity. }
      destruct (PQexecParams_in_work c w w _ 1 Hr Ht Hren)
        as (c1 & -> & Hr1 & Ht1 & Hs1).
      cbn [Z.eqb].
      destruct (PQexecParams_in_work c1 w _
                  (rename_reflog new_name (repo_id backend) old_name) tt
                  Hr1 Ht1 eq_refl) as (c2 & -> & Hr2 & Ht2 & Hs2).
      match type of Ht2 with
      | txn c2 = InTxn ?w2 =>
          destruct (PQexecParams_in_work c2 w2 w2
                      (select_ref (repo_id backend) new_name) _ Hr2 Ht2
                      eq_refl) as (c3 & -> & Hr3 & Ht3 & Hs3)
      end.
      destruct (ROLLBACK_reliable c3 Hr3) as (Hr4 & Ht4 & Hs4).
      repeat match goal with
             | |- context [match ?x with _ => _ end] =>
                 lazymatch x with
                 | COMMIT _ => fail
                 | _ => destruct x
                 end
             end; cbn [snd];
        try (split; [exact Hr4|split; [exact Ht4|contradiction]]).
      all: destruct (COMMIT_reliable c3 Hr3) as (c5 & -> & Hr5 & Ht5 & Hs5);
        cbn [snd]; split; [exact Hr5|split; [exact Ht5|contradiction]].
    + destruct (refs w !! (repo_id backend, new_name)) as [other|] eqn:Enew.
      * assert (rename_ref new_name (repo_id backend) old_name w
                = Error unique_violation) as Hren.
        { unfold rename_ref. rewrite Eold.
          rewrite bool_decide_eq_false_2 by exact Hne. rewrite Enew.
          reflexivity. }
        destruct (PQexecParams_in_work_error c w _ _ Hr Ht Hren)
          as (c1 & -> & Hr1 & Ht1 & Hs1).
        destruct (ROLLBACK_reliable c1 Hr1) as (Hr4 & Ht4 & Hs4).
        cbn [snd]. split; [exact Hr4|]. split; [exact Ht4|].
        intros _ Habs. discriminate.
      * match goal with
        | |- context [PQexecParams c ?stmt] =>
            assert (exists w1, stmt w = Ok (1, w1)) as (w1 & Hren)
        end.
        { unfold rename_ref. rewrite Eold.
          rewrite bool_decide_eq_false_2 by exact Hne. rewrite Enew. eauto. }
        assert (refs w1 !! (repo_id backend, new_name) = Some row) as Hrow.
        { revert Hren. unfold rename_ref. rewrite Eold.
          rewrite bool_decide_eq_false_2 by exact Hne. rewrite Enew.
          intros [= <-]. cbn [refs set_refs]. apply lookup_insert_eq. }
        destruct (PQexecParams_in_work c w w1 _ 1 Hr Ht Hren)
          as (c1 & -> & Hr1 & Ht1 & Hs1).
        cbn [Z.eqb].
        destruct (PQexecParams_in_work c1 w1 _
                    (rename_reflog new_name (repo_id backend) old_name) tt
                    Hr1 Ht1 eq_refl) as (c2 & -> & Hr2 & Ht2 & Hs2).
        match type of Ht2 with
        | txn c2 = InTxn ?w2 =>
            set (w2' := w2) in *;
            destruct (PQexecParams_in_work c2 w2' w2'
                        (select_ref (repo_id backend) new_name) _ Hr2 Ht2
                        eq_refl) as (c3 & -> & Hr3 & Ht3 & Hs3)
        end.
        assert (refs w2' !! (repo_id backend, new_name) = Some row) as Hrow2
          by exact Hrow.
        rewrite Hrow2.
        destruct (ref_from_result new_name _ _) as [out|code].
        -- destruct (COMMIT_reliable c3 Hr3) as (c5 & -> & Hr5 & Ht5 & Hs5).
           cbn [fst snd]. split; [exact Hr5|]. split; [exact Ht5|].
           intros _ _. split; [reflexivity|]. exists w1.
           split; [exact Hren|]. rewrite Hs5. unfold visible. rewrite Ht3.
           reflexivity.
        -- destruct (ROLLBACK_reliable c3 Hr3) as (Hr4 & Ht4 & Hs4).
           cbn [fst snd]. split; [exact Hr4|]. split; [exact Ht4|].
           intros _ _. split; [reflexivity|]. congruence.
  - assert (rename_ref new_name (repo_id backend) old_name w = Ok (0, w))
      as Hren.
    { unfold rename_ref. rewrite Eold. reflexivity. }
    destruct (PQexecParams_in_work c w w _ 0 Hr Ht Hren)
      as (c1 & -> & Hr1 & Ht1 & Hs1).
    cbn [Z.eqb fst snd].
    destruct (ROLLBACK_reliable c1 Hr1) as (Hr4 & Ht4 & Hs4).
    split; [exact Hr4|]. split; [exact Ht4|]. split; [reflexivity|].
    congruence.
Qed.

(** [rename] on a connection where no statement fails and no transaction
    is open. It returns GIT_EEXISTS when [force] is 0 and the new name is
    stored, and GIT_ENOTFOUND when the old name is not stored, and also
    when a ref is renamed to itself with [force], which deletes it first.
    A symbolic ref is moved to the new name, over the ref stored there when
    [force] is set, its reflog rows with it, and returned. A direct ref is
    never renamed: the row is read back in text format, in which a 20-byte
    OID arrives as 42 characters, so [rename] returns -1. Whenever it
    fails, the database is left as it was. *)
Theorem pg_refdb_rename_spec
    (backend : postgres_refdb_backend) (old_name new_name : bytes)
    (force : Z) (c : PGconn) :
  reliable c = true -> txn c = Idle ->
  let repo := repo_id backend in
  let r := pg_refdb_rename backend old_name new_name force c in
  (force = 0 -> is_Some (refs (stored c) !! (repo, new_name)) ->
   r.1 = Failed GIT_EEXISTS) /\
  (refs (stored c) !! (repo, old_name) = None ->
   (force = 0 -> refs (stored c) !! (repo, new_name) = None) ->
   r.1 = Failed GIT_ENOTFOUND) /\
  (force <> 0 -> new_name = old_name -> r.1 = Failed GIT_ENOTFOUND) /\
  (forall row,
     refs (stored c) !! (repo, old_name) = Some row ->
     new_name <> old_name ->
     (force = 0 -> refs (stored c) !! (repo, new_name) = None) ->
     (forall oid, ref_oid row = Some oid -> length oid = 20%nat ->
                  r.1 = Failed (-1)) /\
     (forall target,
        ref_oid row = None -> ref_symbolic row = Some target ->
        r.1 = Done (Symbolic new_name target) /\
        refs (stored r.2)
        = <[(repo, new_name) := row]>
            (delete (repo, old_name)
               (delete (repo, new_name) (refs (stored c)))) /\
        exists db,
          rename_reflog new_name repo old_name (stored c) = Ok (tt, db) /\
          reflog (stored r.2) = reflog db)) /\
  (forall code, r.1 = Failed code -> stored r.2 = stored c) /\
  txn r.2 = Idle /\ reliable r.2 = true.
Proof.
  intros Hr Ht repo r.
  destruct (BEGIN_ok c Hr Ht) as (c1 & Hb & Hr1 & Ht1 & Hs1).
  (* the state in which the row is renamed *)
  assert (exists c2 w,
            reliable c2 = true /\ txn c2 = InTxn w /\ stored c2 = stored c /\
            refs w = (if force =? 0 then refs (stored c)
                      else delete (repo, new_name) (refs (stored c))) /\
            reflog w = reflog (stored c) /\
            ((force =? 0) = false \/
             refs (stored c) !! (repo, new_name) = None ->
             r = rename_and_commit backend old_name new_name c2) /\
            ((force =? 0) = true ->
             is_Some (refs (stored c) !! (repo, new_name)) ->
             r = (Failed GIT_EEXISTS, ROLLBACK c2)))
    as (c2 & w & Hr2 & Ht2 & Hs2 & Hrefs & Hlog & Hgo & Hstop).
  { unfold r, pg_refdb_rename. rewrite Hb.
    destruct (force =? 0) eqn:Ef.
    - destruct (PQexecParams_in_work c1 (stored c) (stored c)
                  (count_ref (repo_id backend) new_name) _ Hr1 Ht1 eq_refl)
        as (c2 & -> & Hr2 & Ht2 & Hs2).
      exists c2, (stored c).
      split; [exact Hr2|]. split; [exact Ht2|]. split; [congruence|].
      split; [reflexivity|]. split; [reflexivity|].
      fold repo. split.
      + intros [Habs|Hnone]; [discriminate|]. rewrite Hnone. reflexivity.
      + intros _ [x Hx]. rewrite Hx. reflexivity.
    - assert (exists n w1,
                delete_ref (repo_id backend) new_name (stored c) = Ok (n, w1)
                /\ refs w1 = delete (repo, new_name) (refs (stored c))
                /\ reflog w1 = reflog (stored c)) as (n & w1 & Hd & Hw1 & Hl1).
      { unfold delete_ref. fold repo.
        destruct (refs (stored c) !! (repo, new_name)) eqn:E.
        - eexists _, _. split; [reflexivity|]. split; reflexivity.
        - eexists _, _. split; [reflexivity|].
          split; [|reflexivity]. symmetry. apply delete_id, E. }
      destruct (PQexecParams_in_work c1 (stored c) w1 _ n Hr1 Ht1 Hd)
        as (c2 & -> & Hr2 & Ht2 & Hs2).
      exists c2, w1.
      split; [exact Hr2|]. split; [exact Ht2|]. split; [congruence|].
      split; [exact Hw1|]. split; [exact Hl1|].
      split; [reflexivity|discriminate]. }
  pose proof (rename_and_commit_reliable backend old_name new_name c2 w
                Hr2 Ht2) as Hrc.
  cbv zeta in Hrc. fold repo in Hrc.
  destruct Hrc as (Hr3 & Ht3 & Hcase).
  destruct (ROLLBACK_reliable c2 Hr2) as (Hr4 & Ht4 & Hs4).
  assert ((force =? 0) = true -> refs w = refs (stored c)) as Hw0
    by (intros E; rewrite Hrefs, E; reflexivity).
  assert ((force =? 0) = false ->
          refs w = delete (repo, new_name) (refs (stored c))) as Hw1
    by (intros E; rewrite Hrefs, E; reflexivity).
  split; [|split; [|split; [|split; [|split]]]].
  - intros -> Hsome. rewrite (Hstop eq_refl Hsome). reflexivity.
  - intros Hold Hnew.
    assert (refs w !! (repo, old_name) = None) as Hwold.
    { destruct (force =? 0) eqn:Ef.
      - rewrite Hw0 by reflexivity. exact Hold.
      - rewrite Hw1 by reflexivity.
        destruct (decide ((repo, old_name) = (repo, new_name))) as [->|Hne].
        + apply lookup_delete_eq.
        + rewrite lookup_delete_ne by congruence. exact Hold. }
    rewrite Hwold in Hcase. destruct Hcase as [Hc1 _].
    rewrite Hgo; [exact Hc1|].
    destruct (force =? 0) eqn:Ef; [right|left; reflexivity].
    apply Hnew. apply Z.eqb_eq. exact Ef.
  - intros Hf <-. apply Z.eqb_neq in Hf.
    assert (refs w !! (repo, new_name) = None) as Hwold
      by (rewrite Hw1 by exact Hf; apply lookup_delete_eq).
    rewrite Hwold in Hcase. destruct Hcase as [Hc1 _].
    rewrite Hgo by (left; exact Hf). exact Hc1.
  - intros row Hold Hne Hnew.
    assert ((force =? 0) = false \/ refs (stored c) !! (repo, new_name) = None)
      as Hcond.
    { destruct (force =? 0) eqn:Ef; [right|left; reflexivity].
      apply Hnew. apply Z.eqb_eq. exact Ef. }
    assert (refs w !! (repo, old_name) = Some row) as Hwold.
    { destruct (force =? 0) eqn:Ef.
      - rewrite Hw0 by reflexivity. exact Hold.
      - rewrite Hw1 by reflexivity.
        rewrite lookup_delete_ne by congruence. exact Hold. }
    assert (refs w !! (repo, new_name) = None) as Hwnew.
    { destruct (force =? 0) eqn:Ef.
      - rewrite Hw0 by reflexivity. destruct Hcond; [discriminate|assumption].
      - rewrite Hw1 by reflexivity. apply lookup_delete_eq. }
    rewrite Hwold in Hcase. specialize (Hcase Hne Hwnew).
    rewrite (Hgo Hcond). split.
    + intros oid Hoid Hlen. rewrite Hoid in Hcase.
      rewrite (ref_from_result_text_oid _ _ _ Hlen) in Hcase.
      apply Hcase.
    + intros target Hoid Hsym. rewrite Hoid, Hsym in Hcase.
      cbn in Hcase. destruct Hcase as (Hres & w1 & Hren & Hlog1).
      split; [exact Hres|].
      revert Hren. unfold rename_ref. fold repo. rewrite Hwold.
      rewrite bool_decide_eq_false_2 by exact Hne. rewrite Hwnew.
      intros [= <-]. revert Hlog1. unfold rename_reflog.
      intros [= Hst]. rewrite <- Hst.
      cbn [refs reflog set_refs set_reflog]. split.
      * f_equal. f_equal.
        destruct (force =? 0) eqn:Ef.
        -- rewrite Hw0 by reflexivity. symmetry. apply delete_id.
           destruct Hcond; [discriminate|assumption].
        -- apply Hw1. reflexivity.
      * eexists. split; [reflexivity|]. cbn [reflog set_reflog].
        rewrite Hlog. reflexivity.
  - intros code Hcode.
    destruct (force =? 0) eqn:Ef.
    + destruct (refs (stored c) !! (repo, new_name)) as [x|] eqn:Enew.
      * rewrite (Hstop eq_refl) by eauto. cbn [snd]. congruence.
      * rewrite Hgo by (right; reflexivity).
        rewrite Hgo in Hcode by (right; reflexivity).
        assert (refs w !! (repo, new_name) = None) as Hwnew
          by (rewrite Hw0 by reflexivity; exact Enew).
        destruct (refs w !! (repo, old_name)) as [row|] eqn:Eold.
        -- destruct (decide (new_name = old_name)) as [->|Hne];
             [congruence|].
           specialize (Hcase Hne Hwnew).
           destruct (ref_from_result _ _ _) as [out|code'].
           ++ destruct Hcase as [Hres _]. congruence.
           ++ destruct Hcase as [_ Hst]. congruence.
        -- destruct Hcase as [_ Hst]. congruence.
    + rewrite Hgo by (left; reflexivity).
      rewrite Hgo in Hcode by (left; reflexivity).
      assert (refs w !! (repo, new_name) = None) as Hwnew
        by (rewrite Hw1 by reflexivity; apply lookup_delete_eq).
      destruct (refs w !! (repo, old_name)) as [row|] eqn:Eold.
      * destruct (decide (new_name = old_name)) as [->|Hne];
          [congruence|].
        specialize (Hcase Hne Hwnew).
        destruct (ref_from_result _ _ _) as [out|code'].
        -- destruct Hcase as [Hres _]. congruence.
        -- destruct Hcase as [_ Hst]. congruence.
      * destruct Hcase as [_ Hst]. congruence.
  - destruct (force =? 0) eqn:Ef.
    + destruct (refs (stored c) !! (repo, new_name)) as [x|] eqn:Enew.
      * rewrite (Hstop eq_refl) by eauto. cbn [snd]. split; assumption.
      * rewrite Hgo by (right; reflexivity). split; assumption.
    + rewrite Hgo by (left; reflexivity). split; assumption.
Qed.

Lemma pg_refdb_rename_spec_witness :
  (pg_refdb_rename Example.refdb1 (bs "refs/heads/main")
     (bs "refs/heads/trunk") 0 Example.conn_refs).1 = Failed (-1) /\
  (pg_refdb_rename Example.refdb1 (bs "HEAD") (bs "ORIG_HEAD") 0
     Example.conn_refs).1
  = Done (Symbolic (bs "ORIG_HEAD") (bs "refs/heads/main")).
Proof.
  destruct (pg_refdb_rename_spec Example.refdb1 (bs "refs/heads/main")
              (bs "refs/heads/trunk") 0 Example.conn_refs eq_refl eq_refl)
    as (_ & _ & _ & H1 & _).
  destruct (pg_refdb_rename_spec Example.refdb1 (bs "HEAD")
              (bs "ORIG_HEAD") 0 Example.conn_refs eq_refl eq_refl)
    as (_ & _ & _ & H2 & _).
  split.
  - destruct (H1 {| ref_oid := Some Example.oid_aa; ref_symbolic := None |})
      as [H _]; [reflexivity|discriminate|reflexivity|].
    apply (H Example.oid_aa); reflexivity.
  - destruct (H2 {| ref_oid := None;
                    ref_symbolic := Some (bs "refs/heads/main") |})
      as [_ H]; [reflexivity|discriminate|reflexivity|].
    apply (H (bs "refs/heads/main")); reflexivity.
Defined.

Lemma BEGIN_Ok_inv (c c1 : PGconn) (u : unit) :
  BEGIN c = (Ok u, c1) -> visible c1 = visible c /\ txn c1 <> Aborted.
Proof.
  unfold BEGIN, visible. destruct (next_fault c) as [[] rest];
    destruct (txn c); try discriminate; intros [= _ <-]; cbn;
    split; (reflexivity || discriminate).
Qed.

(** [%02d] for a number below 100. *)
Lemma fmt_02d_two_digits (v : Z) :
  0 <= v < 100 ->
  fmt_02d v = [to_char (48 + v / 10); to_char (48 + v mod 10)].
Proof.
  intros Hv.
  assert (forallb
            (fun k =>
               bool_decide
                 (fmt_02d (Z.of_nat k)
                  = [to_char (48 + Z.of_nat k / 10);
                     to_char (48 + Z.of_nat k mod 10)]))
            (seq 0 100) = true) as Hall by (vm_compute; reflexivity).
  rewrite forallb_forall in Hall.
  specialize (Hall (Z.to_nat v)).
  rewrite Z2Nat.id in Hall by lia.
  apply (bool_decide_eq_true_1 _), Hall, in_seq. lia.
Qed.

(** A write that returns 0, in full: the working copy it commits. *)
Lemma write_upsert_and_commit_effect backend ref who message old c :
  let w := write_upsert_and_commit backend ref who message old c in
  w.1 = 0 ->
  txn w.2 = Idle /\
  exists db1 db2,
    upsert_ref (repo_id backend) (git_reference_name ref)
      (row_of_reference ref) (visible c) = Ok (tt, db1) /\
    match who with
    | None => db2 = db1
    | Some _ =>
        exists c1,
          visible c1 = db1 /\ txn c1 <> Aborted /\
          exists c2,
            write_reflog_entry backend (git_reference_name ref) old
              (new_oid_of ref) who message c1 = (0, c2) /\
            visible c2 = db2
    end /\
    stored w.2 = db2.
Proof.
  cbv zeta. unfold write_upsert_and_commit.
  destruct (PQexecParams c _) as [[[]|e] c1] eqn:E1; [|discriminate].
  apply PQexecParams_Ok_inv in E1 as (Ht1 & db1 & Hs1 & Hv1).
  pose proof (write_reflog_entry_zero backend (git_reference_name ref) old
                (new_oid_of ref) who message c1) as [Hcode Hz].
  cbv zeta in Hcode, Hz.
  destruct (write_reflog_entry _ _ _ _ _ _ c1) as [error c2] eqn:E2.
  cbn [fst snd] in Hcode, Hz.
  destruct Hcode as [-> | ->]; [|discriminate].
  cbn [Z.ltb Z.compare].
  destruct (COMMIT c2) as [[[]|e] c3] eqn:E3; [|discriminate].
  intros _. cbn [snd]. apply COMMIT_Ok_inv in E3 as [Ht3 Hs3].
  split; [exact Ht3|]. exists db1, (visible c2).
  split; [exact Hs1|]. split; [|exact Hs3].
  destruct who as [sig|].
  - exists c1. split; [exact Hv1|]. split; [exact Ht1|].
    exists c2. split; [exact E2|reflexivity].
  - unfold write_reflog_entry in E2. injection E2 as <-. exact Hv1.
Qed.

(** What a successful [write] commits. Whatever the connection, a [write]
    that returns 0 leaves no transaction open, and the database it has
    committed is the one the session saw with the row of the reference
    put under its name and, when a signature was given, one row added at
    the end of the reflog: the ref's name, the old and the new OID (NULL
    for none and for the zero OID), the committer as [name <email>], the
    time, and the offset as a sign and four digits, hours then minutes.
    Without a signature the reflog is left as it is. *)
Theorem pg_refdb_write_effect
    (backend : postgres_refdb_backend) (ref : git_reference) (force : Z)
    (who : option git_signature) (message old old_target : option bytes)
    (c : PGconn) :
  let w := pg_refdb_write backend ref force who message old old_target c in
  let ref_name := git_reference_name ref in
  w.1 = 0 ->
  txn w.2 = Idle /\
  refs (stored w.2)
  = <[(repo_id backend, ref_name) := row_of_reference ref]>
      (refs (visible c)) /\
  objects (stored w.2) = objects (visible c) /\
  repositories (stored w.2) = repositories (visible c) /\
  match who with
  | None => reflog (stored w.2) = reflog (visible c)
  | Some sig =>
      exists entry,
        reflog (stored w.2) = reflog (visible c) ++ [entry] /\
        rl_repo_id entry = repo_id backend /\
        rl_ref_name entry = ref_name /\
        rl_old_oid entry = reflog_oid_param old /\
        rl_new_oid entry = reflog_oid_param (new_oid_of ref) /\
        rl_committer entry
        = firstn 511 (sig_name sig ++ bs " <" ++ sig_email sig ++ bs ">") /\
        rl_timestamp_s entry = to_int64 (when_time sig) /\
        rl_message entry = message /\
        (-6000 < when_offset sig < 6000 ->
         let hours := Z.abs (when_offset sig) / 60 in
         let minutes := Z.abs (when_offset sig) mod 60 in
         rl_tz_offset entry
         = [ if when_offset sig >=? 0 then x2b else x2d;
             to_char (48 + hours / 10); to_char (48 + hours mod 10);
             to_char (48 + minutes / 10); to_char (48 + minutes mod 10) ])
  end.
Proof.
  cbv zeta. unfold pg_refdb_write.
  destruct (BEGIN c) as [[[]|e] c1] eqn:Eb; [|discriminate].
  apply BEGIN_Ok_inv in Eb as [Hv1 Ht1].
  assert (exists c2,
            visible c2 = visible c /\
            (let w := (if force =? 0
                       then match write_cas_check backend
                                    (git_reference_name ref) old old_target c1
                            with
                            | (Some code, c3) => (code, ROLLBACK c3)
                            | (None, c3) =>
                                write_upsert_and_commit backend ref who
                                  message old c3
                            end
                       else write_upsert_and_commit backend ref who message
                              old c1) in
             w.1 = 0 ->
             w = write_upsert_and_commit backend ref who message old c2))
    as (c2 & Hv2 & Hw).
  { destruct (force =? 0); [|exists c1; split; [exact Hv1|reflexivity]].
    destruct (write_cas_check _ _ _ _ c1) as [[code|] c3] eqn:E.
    - exists c1. split; [exact Hv1|]. cbn [fst]. intros Hz.
      apply write_cas_check_code in E. contradiction.
    - exists c3. split; [|reflexivity].
      revert E. unfold write_cas_check.
      destruct (PQexecParams c1 _) as [[rows|e] c4] eqn:Es;
        [|discriminate].
      apply PQexecParams_Ok_inv in Es as (_ & db' & Hs & Hv).
      injection Hs as _ <-.
      assert (c4 = c3 -> visible c3 = visible c) as Hgo
        by (intros <-; congruence).
      destruct (_ || _).
      + destruct rows as [|row rows]; [discriminate|].
        destruct (write_check_old old row); [discriminate|].
        intros [= _ Hc]. exact (Hgo Hc).
      + destruct (0 <? _); [discriminate|]. intros [= Hc]. exact (Hgo Hc). }
  cbv zeta in Hw. intros Hz. rewrite (Hw Hz) in Hz |- *.
  destruct (write_upsert_and_commit_effect backend ref who message old c2 Hz)
    as (Ht & db1 & db2 & Hup & Hlog & Hst).
  rewrite Hv2 in Hup.
  assert (db1 = set_refs (visible c)
                  (<[(repo_id backend, git_reference_name ref)
                     := row_of_reference ref]> (refs (visible c)))) as Hdb1.
  { revert Hup. unfold upsert_ref. destruct (negb _); [discriminate|].
    destruct (refs (visible c) !! (repo_id backend, git_reference_name ref));
      destruct (repositories (visible c) !! repo_id backend);
      try discriminate; intros [= <-]; reflexivity. }
  split; [exact Ht|]. rewrite Hst.
  destruct who as [sig|].
  - destruct Hlog as (c3 & Hv3 & Ht3 & c4 & Hwr & Hv4).
    revert Hwr. unfold write_reflog_entry.
    destruct (PQexecParams c3 _) as [[[]|e] c5] eqn:Ei; [|discriminate].
    intros [= ->].
    apply PQexecParams_Ok_inv in Ei as (_ & db' & Hi & Hv5).
    revert Hi. unfold insert_reflog. cbn [rl_repo_id].
    destruct (repositories (visible c3) !! repo_id backend); [|discriminate].
    intros [= <-]. rewrite <- Hv4, Hv5, Hv3, Hdb1.
    cbn [refs objects repositories reflog set_refs set_reflog].
    split; [reflexivity|]. split; [reflexivity|]. split; [reflexivity|].
    eexists. split; [reflexivity|].
    cbn [rl_repo_id rl_ref_name rl_old_oid rl_new_oid rl_committer
         rl_timestamp_s rl_message rl_tz_offset].
    repeat (split; [reflexivity|]).
    intros Hoff.
    rewrite !fmt_02d_two_digits by (Z.div_mod_to_equations; lia).
    destruct (when_offset sig >=? 0); reflexivity.
  - subst db2. rewrite Hdb1.
    cbn [refs objects repositories reflog set_refs].
    repeat split.
Qed.

Lemma pg_refdb_write_effect_witness :
  exists entry,
    reflog
      (stored
         (pg_refdb_write Example.refdb1
            (Direct (bs "refs/heads/main") Example.oid_bb) 1
            (Some {| sig_name := bs "A U Thor";
                     sig_email := bs "author@example.com";
                     when_time := 1234567890; when_offset := 330 |})
            (Some (bs "push")) (Some Example.oid_aa) None
            Example.conn_refs).2)
    = [entry] /\
    rl_old_oid entry = Some Example.oid_aa /\
    rl_new_oid entry = Some Example.oid_bb /\
    rl_committer entry = bs "A U Thor <author@example.com>" /\
    rl_tz_offset entry = bs "+0530".
Proof.
  destruct (pg_refdb_write_effect Example.refdb1
              (Direct (bs "refs/heads/main") Example.oid_bb) 1
              (Some {| sig_name := bs "A U Thor";
                       sig_email := bs "author@example.com";
                       when_time := 1234567890; when_offset := 330 |})
              (Some (bs "push")) (Some Example.oid_aa) None
              Example.conn_refs) as (_ & _ & _ & _ & entry & H).
  - vm_compute. reflexivity.
  - destruct H as (H1 & _ & _ & H2 & H3 & H4 & _ & _ & H5).
    exists entry. split; [exact H1|]. split; [exact H2|].
    split; [exact H3|]. split; [exact H4|].
    rewrite H5 by (cbn; lia). reflexivity.
Defined.

Lemma PQexecParams_reliable {R} (c : PGconn) (stmt : statement R) :
  reliable c = true -> reliable (PQexecParams c stmt).2 = true.
Proof.
  intros Hr. destruct (reliable_next_fault c Hr) as [Hf Hrest].
  unfold PQexecParams. destruct (next_fault c) as [fault rest].
  cbn [fst snd] in Hf, Hrest. subst fault.
  destruct (txn c); [destruct (stmt _) as [[? ?]|?]
                    |destruct (stmt _) as [[? ?]|?]|]; exact Hrest.
Qed.

Lemma write_reflog_entry_reliable backend ref_name old_oid new_oid who
    message c :
  reliable c = true ->
  reliable
    (write_reflog_entry backend ref_name old_oid new_oid who message c).2
  = true.
Proof.
  intros Hr. unfold write_reflog_entry. destruct who; [|exact Hr].
  match goal with
  | |- context [PQexecParams c ?stmt] =>
      pose proof (PQexecParams_reliable c stmt Hr) as H;
      destruct (PQexecParams c stmt) as [[?|?] ?]
  end; exact H.
Qed.

Lemma pg_refdb_unlock_reliable backend payload success update_reflog ref sig
    message c :
  reliable c = true ->
  txn (pg_refdb_unlock backend payload success update_reflog ref sig
         message c).2 = Idle.
Proof.
  intros Hr. unfold pg_refdb_unlock.
  assert (forall (ec : Z * PGconn),
            reliable ec.2 = true ->
            txn (let '(error, c') := ec in
                 if error =? 0 then (error, (COMMIT c').2)
                 else (error, ROLLBACK c')).2 = Idle) as Hend.
  { intros [error c'] Hc'. cbn [snd] in Hc'.
    destruct (error =? 0); cbn [snd]; [|reflexivity].
    destruct (COMMIT_reliable c' Hc') as (c2 & -> & _ & Ht2 & _). exact Ht2. }
  apply Hend.
  destruct (success =? 1); [|destruct (success =? 2)].
  - match goal with
    | |- context [PQexecParams c ?stmt] =>
        pose proof (PQexecParams_reliable c stmt Hr) as H;
        destruct (PQexecParams c stmt) as [[?|?] c1]
    end; cbn [snd] in H |- *; [|exact H].
    destruct (_ && _); [|exact H].
    apply write_reflog_entry_reliable, H.
  - match goal with
    | |- context [PQexecParams c ?stmt] =>
        pose proof (PQexecParams_reliable c stmt Hr) as H;
        destruct (PQexecParams c stmt) as [[?|?] c1]
    end; cbn [snd] in H |- *; [|exact H].
    match goal with
    | |- context [PQexecParams c1 ?stmt] =>
        pose proof (PQexecParams_reliable c1 stmt H) as H';
        destruct (PQexecParams c1 stmt) as [? c2]
    end. exact H'.
  - exact Hr.
Qed.

(** [lock] and [unlock] on a connection where no statement fails and no
    transaction is open. [lock] returns 0 with a payload whose key is the
    hash of the repository and the name, and leaves a transaction open with
    nothing changed. [unlock] then ends that transaction. With [success]
    1, in an existing repository, it returns 0 and has committed the row of
    the reference, with one reflog row, whose old OID is NULL, when
    [update_reflog] is set and a signature given; with [success] 2 it
    returns 0 and has deleted the ref and its reflog rows; with any other
    [success] it returns 0 and the database is as it was. *)
Theorem pg_refdb_lock_unlock
    (backend : postgres_refdb_backend) (refname : bytes) (c : PGconn)
    (success update_reflog : Z) (ref : git_reference)
    (sig : option git_signature) (message : option bytes) :
  reliable c = true -> txn c = Idle ->
  exists lock c1,
    pg_refdb_lock backend refname c = (Done lock, c1) /\
    lock_key lock = hash_refname (repo_id backend) refname /\
    stored c1 = stored c /\ txn c1 = InTxn (stored c) /\
    let key := (repo_id backend, git_reference_name ref) in
    let u := pg_refdb_unlock backend lock success update_reflog ref sig
               message c1 in
    txn u.2 = Idle /\
    (success = 1 -> is_Some (repositories (stored c) !! repo_id backend) ->
     u.1 = 0 /\
     refs (stored u.2) = <[key := row_of_reference ref]> (refs (stored c)) /\
     if negb (update_reflog =? 0) && bool_decide (is_Some sig)
     then exists entry,
            reflog (stored u.2) = reflog (stored c) ++ [entry] /\
            rl_ref_name entry = git_reference_name ref /\
            rl_old_oid entry = None /\
            rl_new_oid entry = reflog_oid_param (new_oid_of ref)
     else reflog (stored u.2) = reflog (stored c)) /\
    (success = 2 ->
     u.1 = 0 /\ refs (stored u.2) !! key = None /\
     (forall k, k <> key -> refs (stored u.2) !! k = refs (stored c) !! k) /\
     reflog_of (repo_id backend) (git_reference_name ref) (stored u.2) = []) /\
    (success <> 1 -> success <> 2 -> u.1 = 0 /\ stored u.2 = stored c).
Proof.
  intros Hr Ht. unfold pg_refdb_lock. cbn [lock_key].
  destruct (BEGIN_ok c Hr Ht) as (c0 & -> & Hr0 & Ht0 & Hs0).
  destruct (PQexecParams_in_work c0 (stored c) (stored c)
              (advisory_xact_lock
                 (hash_refname (repo_id backend) refname)) tt Hr0 Ht0
              eq_refl) as (c1 & -> & Hr1 & Ht1 & Hs1).
  eexists _, c1. split; [reflexivity|]. split; [reflexivity|].
  split; [congruence|]. split; [exact Ht1|].
  cbv zeta.
  split; [apply pg_refdb_unlock_reliable, Hr1|].
  unfold pg_refdb_unlock.
  split; [|split].
  - intros -> Hrepo. cbn [Z.eqb Pos.eqb].
    set (w1 := set_refs (stored c)
                 (<[(repo_id backend, git_reference_name ref)
                    := row_of_reference ref]> (refs (stored c)))).
    assert (upsert_ref (repo_id backend) (git_reference_name ref)
              (row_of_reference ref) (stored c) = Ok (tt, w1)) as Hup.
    { destruct Hrepo as [nm Hrepo]. unfold upsert_ref.
      rewrite refs_check_row_of_reference, Hrepo.
      cbn [negb]. destruct (refs (stored c) !! _); reflexivity. }
    destruct (PQexecParams_in_work c1 (stored c) w1 _ _ Hr1 Ht1 Hup)
      as (c2 & -> & Hr2 & Ht2 & Hs2).
    destruct (negb (update_reflog =? 0) && bool_decide (is_Some sig)) eqn:Ec.
    + destruct (write_reflog_entry_in_work backend (git_reference_name ref)
                  None (new_oid_of ref) sig message c2 w1 Hr2 Ht2 Hrepo)
        as (c3 & w3 & -> & Hr3 & Ht3 & Hs3 & Hrefs & Hlog).
      cbn [Z.eqb].
      destruct (COMMIT_reliable c3 Hr3) as (c4 & -> & _ & _ & Hs4).
      cbn [fst snd]. split; [reflexivity|].
      rewrite Hs4. unfold visible. rewrite Ht3, Hrefs.
      split; [reflexivity|].
      apply andb_true_iff in Ec as [_ Hsig].
      apply bool_decide_eq_true in Hsig as [s ->].
      destruct Hlog as (entry & Hl & _ & Hn & Ho & Hnew & _).
      exists entry. split; [exact Hl|]. split; [exact Hn|].
      split; [exact Ho|exact Hnew].
    + cbn [Z.eqb].
      destruct (COMMIT_reliable c2 Hr2) as (c4 & -> & _ & _ & Hs4).
      cbn [fst snd]. split; [reflexivity|].
      rewrite Hs4. unfold visible. rewrite Ht2. split; reflexivity.
  - intros ->. cbn [Z.eqb Pos.eqb].
    assert (exists n w1,
              delete_ref (repo_id backend) (git_reference_name ref) (stored c)
              = Ok (n, w1)) as (n & w1 & Hd).
    { unfold delete_ref. destruct (refs (stored c) !! _); eauto. }
    destruct (PQexecParams_in_work c1 (stored c) w1 _ n Hr1 Ht1 Hd)
      as (c2 & -> & Hr2 & Ht2 & Hs2).
    destruct (PQexecParams_in_work c2 w1 _
                (delete_reflog (repo_id backend) (git_reference_name ref))
                tt Hr2 Ht2 eq_refl) as (c3 & -> & Hr3 & Ht3 & Hs3).
    cbn [Z.eqb].
    destruct (COMMIT_reliable c3 Hr3) as (c4 & -> & _ & _ & Hs4).
    cbn [fst snd]. split; [reflexivity|].
    rewrite Hs4. unfold visible. rewrite Ht3.
    destruct (delete_ref_reflog_effect _ _ _ _ _ _ Hd eq_refl)
      as (E1 & E2 & E3 & _).
    split; [exact E1|]. split; [exact E2|exact E3].
  - intros H1 H2. apply Z.eqb_neq in H1, H2. rewrite H1, H2.
    cbn [Z.eqb].
    destruct (COMMIT_reliable c1 Hr1) as (c4 & -> & _ & _ & Hs4).
    cbn [fst snd]. split; [reflexivity|].
    rewrite Hs4. unfold visible. rewrite Ht1. reflexivity.
Qed.

Lemma pg_refdb_lock_unlock_witness :
  exists lock c1,
    pg_refdb_lock Example.refdb1 (bs "refs/heads/main") Example.conn_refs
    = (Done lock, c1) /\
    (pg_refdb_unlock Example.refdb1 lock 1 0
       (Direct (bs "refs/heads/main") Example.oid_bb) None None c1).1 = 0.
Proof.
  destruct (pg_refdb_lock_unlock Example.refdb1 (bs "refs/heads/main")
              Example.conn_refs 1 0
              (Direct (bs "refs/heads/main") Example.oid_bb) None None
              eq_refl eq_refl)
    as (lock & c1 & Hl & _ & _ & _ & _ & H & _).
  exists lock, c1. split; [exact Hl|].
  destruct H as [H _]; [reflexivity|vm_compute; eauto|exact H].
Defined.

End RefStoreRoundTrips.

Section RefIteration.
Import Pg Refdb RefdbIter Helper.

Lemma bytes_leb_total (a b : bytes) : bytes_leb a b = true \/ bytes_leb b a = true.
Proof.
  revert b. induction a as [|x a IH]; intros [|y b]; cbn [bytes_leb]; auto.
  destruct (uchar x <? uchar y) eqn:E1; [auto|].
  destruct (uchar y <? uchar x) eqn:E2; [auto|]. apply IH.
Qed.

Lemma name_le_total : Total name_le.
Proof.
  intros a b. unfold name_le.
  destruct (bytes_leb_total a.1 b.1) as [H|H]; rewrite H; [left|right];
    exact I.
Qed.

(** Walking an iterator whose index is [k] with [next_name]. *)
Lemma next_names_from (rows : list (bytes * ref_row)) (fuel : nat) (k : nat) :
  Z.of_nat (length rows) <= INT_MAX -> (k <= length rows)%nat ->
  (length rows - k < fuel)%nat ->
  next_names fuel
    {| iter_result := rows; current := Z.of_nat k;
       total := Z.of_nat (length rows) |}
  = (skipn k rows).*1.
Proof.
  intros Hmax. revert k. induction fuel as [|fuel IH]; intros k Hk Hfuel;
    [lia|].
  cbn [next_names]. unfold pg_refdb_iter_next_name.
  cbn [current total iter_result].
  destruct (Z.of_nat k >=? Z.of_nat (length rows)) eqn:E.
  - rewrite Z.geb_leb in E. apply Z.leb_le in E.
    rewrite skipn_all2 by lia. reflexivity.
  - rewrite Z.geb_leb in E. apply Z.leb_gt in E.
    rewrite Nat2Z.id.
    destruct (rows !! k) as [[name row]|] eqn:En.
    + rewrite to_int_small by (unfold INT_MAX in *; lia).
      replace (Z.of_nat k + 1) with (Z.of_nat (S k)) by lia.
      rewrite IH by lia.
      rewrite (drop_S rows (name, row) k En). reflexivity.
    + apply lookup_ge_None in En. lia.
Qed.

(** Walking it with [next], over rows that are symbolic refs up to a
    direct one. *)
Lemma next_refs_symbolic (rows : list (bytes * ref_row)) (fuel k : nat)
    (rest : list (bytes * ref_row)) :
  Z.of_nat (length rows) <= INT_MAX ->
  skipn k rows = rest -> (k <= length rows)%nat ->
  forall syms tail,
    rest = syms ++ tail ->
    Forall (fun nr : bytes * ref_row =>
              ref_oid nr.2 = None /\ is_Some (ref_symbolic nr.2)) syms ->
    match tail with
    | [] => True
    | nr :: _ => exists oid, ref_oid nr.2 = Some oid /\ length oid = 20%nat
    end ->
    (length syms < fuel)%nat ->
    next_refs fuel
      {| iter_result := rows; current := Z.of_nat k;
         total := Z.of_nat (length rows) |}
    = map (fun nr : bytes * ref_row =>
             Symbolic nr.1 (default [] (ref_symbolic nr.2))) syms.
Proof.
  intros Hmax. revert k rest.
  induction fuel as [|fuel IH]; intros k rest Hskip Hk syms tail Hrest Hsyms
    Htail Hfuel; [lia|].
  cbn [next_refs]. unfold pg_refdb_iter_next.
  cbn [current total iter_result].
  destruct (Z.of_nat k >=? Z.of_nat (length rows)) eqn:E.
  - rewrite Z.geb_leb in E. apply Z.leb_le in E.
    rewrite skipn_all2 in Hskip by lia. subst rest.
    symmetry in Hrest. apply app_eq_nil in Hrest as [-> _]. reflexivity.
  - rewrite Z.geb_leb in E. apply Z.leb_gt in E.
    rewrite Nat2Z.id.
    destruct (rows !! k) as [[name row]|] eqn:En;
      [|apply lookup_ge_None in En; lia].
    assert (skipn k rows = (name, row) :: skipn (S k) rows) as Hd
      by (apply drop_S, En).
    rewrite Hskip, Hrest in Hd.
    destruct syms as [|[n1 r1] syms].
    + cbn [app] in Hd. subst tail. destruct Htail as (oid & Ho & Hlen).
      cbn [snd] in Ho. rewrite Ho.
      rewrite (ref_from_result_text_oid _ _ _ Hlen). reflexivity.
    + cbn [app] in Hd. injection Hd as -> -> Hd.
      apply Forall_cons in Hsyms as [[Hnone [t Ht]] Hsyms].
      cbn [snd] in Hnone, Ht. rewrite Hnone, Ht.
      cbn [fmap option_fmap option_map ref_from_result map fst snd default].
      rewrite to_int_small by (unfold INT_MAX in *; lia).
      replace (Z.of_nat k + 1) with (Z.of_nat (S k)) by lia.
      rewrite (IH (S k) (skipn (S k) rows) eq_refl ltac:(lia) syms tail
                 (eq_sym Hd) Hsyms Htail ltac:(cbn in Hfuel; lia)).
      rewrite Ht. reflexivity.
Qed.

(** Iterating over the refs of a repository. With no glob, or an empty
    one, and a query that succeeds, the iterator holds the refs of the
    repository, each once, in ascending order of the names, and
    [next_name] called until it stops yields exactly their names. [next]
    yields the symbolic refs that come before the first direct ref and
    stops there with -1 without moving on: the rows are in text format, in
    which a 20-byte OID arrives as 42 characters, which [ref_from_result]
    refuses. *)
Theorem pg_refdb_iterator_walk
    (like : bytes -> bytes -> bool) (backend : postgres_refdb_backend)
    (glob : option bytes) (c : PGconn) :
  statement_fails c = false ->
  match glob with None => True | Some g => strlen g = 0%nat end ->
  let rows := refs_of (repo_id backend) (visible c) in
  Z.of_nat (length rows) <= INT_MAX ->
  exists iter c',
    pg_refdb_iterator like backend glob c = (Done iter, c') /\
    iter_result iter = rows /\
    Sorted name_le rows /\ NoDup rows.*1 /\
    (forall name row,
       (name, row) ∈ rows <->
       refs (visible c) !! (repo_id backend, name) = Some row) /\
    next_names (S (length rows)) iter = rows.*1 /\
    (forall syms tail,
       rows = syms ++ tail ->
       Forall (fun nr : bytes * ref_row =>
                 ref_oid nr.2 = None /\ is_Some (ref_symbolic nr.2)) syms ->
       match tail with
       | [] => True
       | nr :: _ => exists oid, ref_oid nr.2 = Some oid /\ length oid = 20%nat
       end ->
       next_refs (S (length rows)) iter
       = map (fun nr : bytes * ref_row =>
                Symbolic nr.1 (default [] (ref_symbolic nr.2))) syms /\
       forall iter',
         iter' = {| iter_result := rows;
                    current := Z.of_nat (length syms);
                    total := Z.of_nat (length rows) |} ->
         tail <> [] -> pg_refdb_iter_next iter' = (Failed (-1), iter')).
Proof.
  intros Hok Hglob rows Hmax.
  assert (pg_refdb_iterator like backend glob c
          = (Done {| iter_result := rows; current := 0;
                     total := Z.of_nat (length rows) |},
             after_ok c (visible c))) as Hit.
  { unfold pg_refdb_iterator.
    assert (PQexecParams c (select_refs_ordered (repo_id backend))
            = (Ok rows, after_ok c (visible c))) as Hq
      by (rewrite PQexecParams_ok by exact Hok; reflexivity).
    destruct glob as [g|]; [rewrite Hglob; cbn [Nat.ltb Nat.leb]|];
      rewrite Hq; rewrite to_int_small by (unfold INT_MAX in *; lia);
      reflexivity. }
  destruct (refs_of_spec (repo_id backend) (visible c)) as [Hin Hnd].
  eexists _, _. split; [exact Hit|]. split; [reflexivity|].
  split; [apply (@Sorted_merge_sort _ name_le _ name_le_total)|].
  split; [exact Hnd|]. split; [exact Hin|].
  split.
  - apply (next_names_from rows (S (length rows)) 0); [exact Hmax|lia|lia].
  - intros syms tail Hrows Hsyms Htail. split.
    + apply (next_refs_symbolic rows (S (length rows)) 0 rows Hmax eq_refl
               ltac:(lia) syms tail Hrows Hsyms Htail).
      rewrite Hrows, length_app. lia.
    + intros iter' -> Hne. destruct tail as [|[name row] tail];
        [contradiction|].
      destruct Htail as (oid & Ho & Hlen). cbn [snd] in Ho.
      unfold pg_refdb_iter_next. cbn [current total iter_result].
      assert ((Z.of_nat (length syms) >=? Z.of_nat (length rows)) = false)
        as ->.
      { rewrite Z.geb_leb. apply Z.leb_gt. rewrite Hrows, length_app.
        cbn [length]. lia. }
      rewrite Nat2Z.id, Hrows.
      rewrite lookup_app_r by lia. rewrite Nat.sub_diag. cbn [lookup list_lookup].
      rewrite Ho. rewrite (ref_from_result_text_oid _ _ _ Hlen).
      reflexivity.
Qed.

Lemma pg_refdb_iterator_walk_witness :
  exists iter c',
    pg_refdb_iterator (fun _ _ => true) Example.refdb1 None Example.conn_refs
    = (Done iter, c') /\
    next_names 3 iter = [bs "HEAD"; bs "refs/heads/main"] /\
    next_refs 3 iter = [Symbolic (bs "HEAD") (bs "refs/heads/main")].
Proof.
  destruct (pg_refdb_iterator_walk (fun _ _ => true) Example.refdb1 None
              Example.conn_refs eq_refl I)
    as (iter & c' & Hit & Hres & _ & _ & _ & Hnames & Hrefs).
  - vm_compute. discriminate.
  - exists iter, c'. split; [exact Hit|]. split.
    + exact (eq_trans Hnames eq_refl).
    + destruct (Hrefs
                  [(bs "HEAD",
                    {| ref_oid := None;
                       ref_symbolic := Some (bs "refs/heads/main") |})]
                  [(bs "refs/heads/main",
                    {| ref_oid := Some Example.oid_aa;
                       ref_symbolic := None |})]) as [H _].
      * vm_compute. reflexivity.
      * repeat constructor. cbn. eauto.
      * exists Example.oid_aa. split; reflexivity.
      * exact (eq_trans H eq_refl).
Defined.

End RefIteration.

Section SqlFunctions.
Import Pg Odb Refdb SqlRefs.

(** The row [git_ref_update] leaves under the name of a ref that was
    stored, when it goes through: none for a NULL or zero [p_new_oid]. *)
Lemma git_ref_update_stored_goes (repo : Z) (name : bytes)
    (new old : option bytes) (force : option bool) (db : database)
    (row : ref_row) :
  refs db !! (repo, name) = Some row ->
  sql_true
    (sql_and
       (sql_and (sql_and (sql_not force) (is_not_null old))
                (sql_ne old zero_oid))
       (sql_ne (ref_oid row) old)) = false ->
  exists db',
    git_ref_update repo name new old force db = Ok (true, db') /\
    refs db' !! (repo, name)
    = match new with
      | Some n =>
          if bool_decide (Some n = zero_oid) then None
          else Some {| ref_oid := Some n; ref_symbolic := None |}
      | None => None
      end /\
    (forall k, k <> (repo, name) -> refs db' !! k = refs db !! k).
Proof.
  intros Hrow Hgo. unfold git_ref_update. rewrite Hrow, Hgo.
  destruct new as [n|].
  - unfold is_null, sql_eq, zero_oid, sql_or.
    rewrite (bool_decide_eq_true_2 (is_Some (Some n))) by eauto.
    cbn [negb]. unfold zero_oid.
    destruct (decide (n = repeat x00 20)) as [->|Hne].
    + rewrite !bool_decide_eq_true_2 by reflexivity. cbn [sql_true].
      unfold delete_ref. rewrite Hrow. cbn [rbind].
      eexists. split; [reflexivity|]. cbn [refs set_refs].
      split; [apply lookup_delete_eq|].
      intros k Hk. apply lookup_delete_ne. congruence.
    + rewrite !bool_decide_eq_false_2 by congruence. cbn [sql_true].
      unfold update_ref_oid. rewrite Hrow. cbn [refs_check negb rbind].
      eexists. split; [reflexivity|]. cbn [refs set_refs].
      split; [apply lookup_insert_eq|].
      intros k Hk. apply lookup_insert_ne. congruence.
  - cbn [is_null sql_or sql_true sql_eq].
    unfold delete_ref. rewrite Hrow. cbn [rbind].
    eexists. split; [reflexivity|]. cbn [refs set_refs].
    split; [apply lookup_delete_eq|].
    intros k Hk. apply lookup_delete_ne. congruence.
Qed.

(** [git_ref_update]. For a stored direct ref, with [p_force] false and an
    expected OID that is neither NULL nor the zero OID, the update is a
    compare-and-swap: it returns false and changes nothing when the stored
    OID differs, and goes through when it is the same. It goes through
    without any comparison when the expected OID is NULL or zero, when
    [p_force] is true or NULL, and when the stored ref is symbolic,
    whatever OID is expected. Going through, it returns true and leaves a
    direct ref with the new OID, or no ref when the new OID is NULL or
    zero. For a name that is not stored it returns false when an OID is
    expected, and otherwise inserts the new OID, the zero OID included;
    a NULL new OID then violates the CHECK. It keeps the invariant of
    [refs], and returning false it has changed nothing. *)
Theorem git_ref_update_cas
    (repo : Z) (name : bytes) (new old : option bytes)
    (force : option bool) (db : database) :
  let key := (repo, name) in
  let call := git_ref_update repo name new old force db in
  let goes :=
    exists db',
      call = Ok (true, db') /\
      refs db' !! key
      = match new with
        | Some n =>
            if bool_decide (Some n = zero_oid) then None
            else Some {| ref_oid := Some n; ref_symbolic := None |}
        | None => None
        end /\
      (forall k, k <> key -> refs db' !! k = refs db !! k) in
  (forall row, refs db !! key = Some row ->
     (forall cur expected,
        ref_oid row = Some cur -> force = Some false ->
        old = Some expected -> Some expected <> zero_oid ->
        (expected <> cur -> call = Ok (false, db)) /\
        (expected = cur -> goes)) /\
     (old = None \/ old = zero_oid \/ force <> Some false -> goes) /\
     (ref_oid row = None -> goes)) /\
  (refs db !! key = None ->
   (forall expected, old = Some expected -> Some expected <> zero_oid ->
                     call = Ok (false, db)) /\
   (old = None \/ old = zero_oid ->
    match new with
    | None => call = Error check_violation
    | Some n =>
        match repositories db !! repo with
        | None => call = Error fk_violation
        | Some _ =>
            exists db',
              call = Ok (true, db') /\
              refs db' !! key
              = Some {| ref_oid := Some n; ref_symbolic := None |} /\
              (forall k, k <> key -> refs db' !! k = refs db !! k)
        end
    end)) /\
  (forall r db', refs_xor db -> call = Ok (r, db') -> refs_xor db') /\
  (forall db', call = Ok (false, db') -> db' = db).
Proof.
  cbv zeta. split; [|split; [|split]].
  - intros row Hrow. split; [|split].
    + intros cur expected Hcur -> -> Hnz. split.
      * intros Hne. unfold git_ref_update. rewrite Hrow, Hcur.
        unfold sql_ne, sql_eq, zero_oid in *.
        rewrite (bool_decide_eq_false_2 (expected = repeat x00 20))
          by congruence.
        rewrite (bool_decide_eq_false_2 (cur = expected)) by congruence.
        reflexivity.
      * intros ->. apply (git_ref_update_stored_goes _ _ _ _ _ _ row Hrow).
        rewrite Hcur. unfold sql_ne, sql_eq.
        rewrite (bool_decide_eq_true_2 (cur = cur)) by reflexivity.
        cbn. destruct (bool_decide _); reflexivity.
    + intros Hcase.
      apply (git_ref_update_stored_goes _ _ _ _ _ _ row Hrow).
      destruct Hcase as [->|[->|Hf]].
      * destruct force as [[]|]; reflexivity.
      * unfold sql_ne, sql_eq, zero_oid.
        rewrite (bool_decide_eq_true_2 (repeat x00 20 = repeat x00 20))
          by reflexivity.
        destruct force as [[]|]; reflexivity.
      * destruct force as [[]|]; [| congruence |];
          cbn; destruct old; cbn;
          repeat match goal with
                 | |- context [bool_decide ?P] => destruct (bool_decide P)
                 end; try reflexivity;
          destruct (ref_oid row); cbn;
          repeat match goal with
                 | |- context [bool_decide ?P] => destruct (bool_decide P)
                 end; reflexivity.
    + intros Hnone.
      apply (git_ref_update_stored_goes _ _ _ _ _ _ row Hrow).
      rewrite Hnone.
      match goal with
      | |- sql_true (sql_and ?A _) = false =>
          change (sql_true (sql_and A None) = false); destruct A as [[]|]
      end; reflexivity.
  - intros Hnone. split.
    + intros expected -> Hnz. unfold git_ref_update. rewrite Hnone.
      unfold sql_ne, sql_eq, is_not_null, zero_oid in *.
      rewrite (bool_decide_eq_false_2 (expected = repeat x00 20))
        by congruence.
      rewrite (bool_decide_eq_true_2 (is_Some (Some expected))) by eauto.
      reflexivity.
    + intros Hold. unfold git_ref_update. rewrite Hnone.
      assert (sql_true (sql_and (is_not_null old) (sql_ne old zero_oid))
              = false) as ->.
      { destruct Hold as [->| ->].
        - reflexivity.
        - unfold sql_ne, sql_eq, zero_oid.
          rewrite (bool_decide_eq_true_2 (repeat x00 20 = repeat x00 20))
            by reflexivity.
          reflexivity. }
      unfold insert_ref. cbv zeta. unfold refs_check.
      cbn [ref_oid ref_symbolic]. destruct new as [n|].
      *
        rewrite (bool_decide_eq_true_2 (is_Some (Some n))) by eauto.
        rewrite (bool_decide_eq_false_2 (is_Some None))
          by (intros [x Hx]; discriminate).
        cbn [xorb negb]. rewrite Hnone.
        destruct (repositories db !! repo); [|reflexivity].
        cbn [rbind]. eexists. split; [reflexivity|]. cbn [refs set_refs].
        split; [apply lookup_insert_eq|].
        intros k Hk. apply lookup_insert_ne. congruence.
      * rewrite !(bool_decide_eq_false_2 (is_Some None))
          by (intros [x Hx]; discriminate).
        reflexivity.
  - intros r db' Hxor. unfold git_ref_update.
    destruct (refs db !! (repo, name)) as [row|] eqn:Hrow.
    + destruct (sql_true _); [intros [= _ <-]; exact Hxor|].
      destruct (sql_true _).
      * unfold delete_ref. rewrite Hrow. cbn [rbind]. intros [= _ <-].
        unfold refs_xor. cbn [refs set_refs]. apply map_Forall_delete, Hxor.
      * unfold update_ref_oid. rewrite Hrow.
        destruct (negb (refs_check _)) eqn:Ec; [discriminate|].
        cbn [rbind]. intros [= _ <-]. unfold refs_xor. cbn [refs set_refs].
        apply map_Forall_insert_2; [|exact Hxor].
        apply negb_false_iff in Ec. exact Ec.
    + destruct (sql_true _); [intros [= _ <-]; exact Hxor|].
      unfold insert_ref.
      destruct (negb (refs_check _)) eqn:Ec; [discriminate|].
      rewrite Hrow. destruct (repositories db !! repo); [|discriminate].
      cbn [rbind]. intros [= _ <-]. unfold refs_xor. cbn [refs set_refs].
      apply map_Forall_insert_2; [|exact Hxor].
      apply negb_false_iff in Ec. exact Ec.
  - intros db'. unfold git_ref_update.
    destruct (refs db !! (repo, name)) as [row|] eqn:Hrow.
    + destruct (sql_true _); [intros [= <-]; reflexivity|].
      destruct (sql_true _).
      * unfold delete_ref. rewrite Hrow. cbn [rbind]. discriminate.
      * unfold update_ref_oid. rewrite Hrow.
        destruct (negb _); cbn [rbind]; discriminate.
    + destruct (sql_true _); [intros [= <-]; reflexivity|].
      unfold insert_ref. destruct (negb _); [discriminate|].
      rewrite Hrow. destruct (repositories db !! repo); cbn [rbind];
        discriminate.
Qed.

Lemma git_ref_update_cas_witness :
  git_ref_update 1 (bs "refs/heads/main") (Some Example.oid_bb)
    (Some Example.oid_cc) (Some false) Example.db_refs
  = Ok (false, Example.db_refs) /\
  exists db',
    git_ref_update 1 (bs "HEAD") (Some Example.oid_bb)
      (Some Example.oid_cc) (Some false) Example.db_refs = Ok (true, db') /\
    refs db' !! (1, bs "HEAD")
    = Some {| ref_oid := Some Example.oid_bb; ref_symbolic := None |}.
Proof.
  destruct (git_ref_update_cas 1 (bs "refs/heads/main")
              (Some Example.oid_bb) (Some Example.oid_cc) (Some false)
              Example.db_refs) as (H1 & _).
  destruct (git_ref_update_cas 1 (bs "HEAD")
              (Some Example.oid_bb) (Some Example.oid_cc) (Some false)
              Example.db_refs) as (H2 & _).
  split.
  - destruct (H1 {| ref_oid := Some Example.oid_aa; ref_symbolic := None |}
                eq_refl) as (H & _).
    destruct (H Example.oid_aa Example.oid_cc eq_refl eq_refl eq_refl)
      as [Hne _]; [vm_compute; discriminate|].
    apply Hne. vm_compute. discriminate.
  - destruct (H2 {| ref_oid := None;
                    ref_symbolic := Some (bs "refs/heads/main") |}
                eq_refl) as (_ & _ & H).
    destruct (H eq_refl) as (db' & Hc & Hr & _).
    exists db'. split; [exact Hc|exact Hr].
Defined.

(** [git_ref_set_symbolic]. With a target that is not NULL, for a name
    that is stored or in a repository that exists, it leaves a symbolic
    ref under the name, replacing a direct one, and touches no other ref;
    the backend's [lookup] then returns that symbolic reference. A NULL
    target violates the CHECK. It keeps the invariant of [refs]. *)
Theorem git_ref_set_symbolic_spec
    (repo : Z) (name : bytes) (target : option bytes) (db : database) :
  (forall t, target = Some t ->
     is_Some (refs db !! (repo, name)) \/ is_Some (repositories db !! repo) ->
     exists db',
       git_ref_set_symbolic repo name target db = Ok (tt, db') /\
       refs db' !! (repo, name)
       = Some {| ref_oid := None; ref_symbolic := Some t |} /\
       (forall k, k <> (repo, name) -> refs db' !! k = refs db !! k) /\
       forall c, statement_fails c = false -> visible c = db' ->
         (pg_refdb_lookup {| repo_id := repo |} name c).1
         = Done (Symbolic name t)) /\
  (target = None ->
   git_ref_set_symbolic repo name target db = Error check_violation) /\
  (forall db', refs_xor db ->
     git_ref_set_symbolic repo name target db = Ok (tt, db') ->
     refs_xor db').
Proof.
  unfold git_ref_set_symbolic. split; [|split].
  - intros t -> Hex. unfold upsert_ref.
    assert (refs_check {| ref_oid := None; ref_symbolic := Some t |} = true)
      as -> by reflexivity.
    cbn [negb].
    assert (forall db',
              db' = set_refs db
                      (<[(repo, name)
                         := {| ref_oid := None; ref_symbolic := Some t |}]>
                         (refs db)) ->
              refs db' !! (repo, name)
              = Some {| ref_oid := None; ref_symbolic := Some t |} /\
              (forall k, k <> (repo, name) -> refs db' !! k = refs db !! k) /\
              forall c, statement_fails c = false -> visible c = db' ->
                (pg_refdb_lookup {| repo_id := repo |} name c).1
                = Done (Symbolic name t)) as Hset.
    { intros db' ->. cbn [refs set_refs].
      split; [apply lookup_insert_eq|].
      split; [intros k Hk; apply lookup_insert_ne; congruence|].
      intros c Hok Hv.
      destruct (pg_refdb_lookup_row {| repo_id := repo |} name c Hok)
        as [Hl _].
      rewrite Hl, Hv. cbn [repo_id refs set_refs].
      rewrite lookup_insert_eq. reflexivity. }
    destruct (refs db !! (repo, name)) as [old|] eqn:Eold.
    + eexists. split; [reflexivity|]. apply Hset. reflexivity.
    + destruct Hex as [[x Hx]|[nm Hrepo]]; [discriminate|].
      rewrite Hrepo. eexists. split; [reflexivity|]. apply Hset. reflexivity.
  - intros ->. reflexivity.
  - intros db' Hxor Hup.
    exact (keeps_xor_upsert_ref _ _ _ db tt db' Hxor Hup).
Qed.

Lemma git_ref_set_symbolic_spec_witness :
  exists db',
    git_ref_set_symbolic 1 (bs "refs/heads/main") (Some (bs "refs/heads/dev"))
      Example.db_refs = Ok (tt, db') /\
    refs db' !! (1, bs "refs/heads/main")
    = Some {| ref_oid := None; ref_symbolic := Some (bs "refs/heads/dev") |}.
Proof.
  destruct (git_ref_set_symbolic_spec 1 (bs "refs/heads/main")
              (Some (bs "refs/heads/dev")) Example.db_refs) as (H & _).
  destruct (H (bs "refs/heads/dev") eq_refl) as (db' & H1 & H2 & _).
  - left. vm_compute. eauto.
  - exists db'. split; [exact H1|exact H2].
Defined.

(** [git_object_read_prefix]. For a length that is not negative it
    compares the first [p_prefix_len / 2] bytes, rounded down, so the last
    digit of an odd-length prefix is ignored and a length below 2 selects
    every object of the repository; it returns every matching row, each
    once, and never reports ambiguity. Whatever the backend's
    [read_prefix] finds for the same prefix is among these rows. *)
Theorem git_object_read_prefix_spec
    (repo : Z) (prefix : bytes) (len : Z) (db : database) :
  0 <= len ->
  let n := Z.to_nat (len / 2) in
  exists rows,
    git_object_read_prefix repo prefix len db = Ok (rows, db) /\
    NoDup rows /\
    (forall oid row,
       (oid, row) ∈ rows <->
       objects db !! (repo, oid) = Some row /\
       firstn n oid = firstn n prefix) /\
    (len < 2 ->
     forall oid row, objects db !! (repo, oid) = Some row ->
                     (oid, row) ∈ rows) /\
    (forall (pg : postgres_odb_backend) c o,
       Odb.repo_id pg = repo -> visible c = db ->
       statement_fails c = false ->
       1 <= len < 40 ->
       (pg_odb_read_prefix pg prefix len c).1 = Done o ->
       exists oid row,
         (oid, row) ∈ rows /\ out_oid o = Some (oid_param oid) /\
         object o = object_of_row row).
Proof.
  intros Hlen n. unfold git_object_read_prefix.
  rewrite Z.quot_div_nonneg by lia.
  assert ((len / 2 <? 0) = false) as ->
    by (apply Z.ltb_ge, Z.div_pos; lia).
  fold n. eexists. split; [reflexivity|].
  set (sel := List.filter _ (map_to_list (objects db))).
  assert (forall kv, kv ∈ sel <->
            objects db !! kv.1 = Some kv.2 /\ kv.1.1 = repo /\
            firstn n kv.1.2 = firstn n prefix) as Hsel.
  { intros [k v]. unfold sel. rewrite list_elem_of_In, filter_In.
    rewrite <- list_elem_of_In, elem_of_map_to_list, bool_decide_eq_true.
    reflexivity. }
  assert (NoDup sel) as Hnd.
  { apply NoDup_ListNoDup, List.NoDup_filter, NoDup_ListNoDup,
      NoDup_map_to_list. }
  assert (forall oid row,
            (oid, row) ∈ map (fun kv : (Z * bytes) * object_row =>
                                (kv.1.2, kv.2)) sel <->
            objects db !! (repo, oid) = Some row /\
            firstn n oid = firstn n prefix) as Hin.
  { intros oid row. rewrite list_elem_of_fmap. split.
    - intros ([[r o] v] & [= -> ->] & Hkv). apply Hsel in Hkv.
      cbn [fst snd] in Hkv. destruct Hkv as (Hl & -> & Hp). auto.
    - intros [Hl Hp]. exists ((repo, oid), row). split; [reflexivity|].
      apply Hsel. auto. }
  split; [|split; [exact Hin|split]].
  - apply NoDup_fmap_2_strong; [|exact Hnd].
    intros [[r1 n1] v1] [[r2 n2] v2] H1 H2 Heq. cbn in Heq.
    injection Heq as -> ->.
    apply Hsel in H1 as (Hl1 & Hr1 & _). apply Hsel in H2 as (Hl2 & Hr2 & _).
    cbn [fst snd] in *. subst r1 r2. reflexivity.
  - intros Hlt oid row Hrow. apply Hin. split; [exact Hrow|].
    assert (n = 0%nat) as ->.
    { unfold n. replace (len / 2) with 0; [reflexivity|].
      symmetry. apply Z.div_small. lia. }
    reflexivity.
  - intros pg c o Hpg Hv Hok Hrange.
    unfold pg_odb_read_prefix.
    assert ((len =? GIT_OID_SHA1_HEXSIZE) = false) as ->
      by (apply Z.eqb_neq; unfold GIT_OID_SHA1_HEXSIZE; lia).
    assert (byte_len_of len = (len + 1) / 2) as Hbl.
    { unfold byte_len_of. apply to_int_small. unfold INT_MAX.
      split; [apply Z.div_pos; lia|].
      apply Z.lt_le_incl, Z.div_lt_upper_bound; lia. }
    rewrite Hbl. rewrite PQexecParams_ok by exact Hok.
    unfold select_objects_by_prefix. rewrite Hv, Hpg. cbn [fst].
    set (m := Z.to_nat ((len + 1) / 2)).
    destruct (List.filter (prefix_matches repo ((len + 1) / 2)
                             (firstn m prefix))
                (map_to_list (objects db))) as [|[[r oid] row] [|? ?]] eqn:Ef;
      cbn [map fst snd]; try discriminate.
    intros [= <-]. cbn [out_oid object].
    exists oid, row. split; [|split; reflexivity].
    assert (In ((r, oid), row)
              (List.filter (prefix_matches repo ((len + 1) / 2)
                              (firstn m prefix))
                 (map_to_list (objects db)))) as Hmem
      by (rewrite Ef; left; reflexivity).
    apply filter_In in Hmem as [Hmem Hp].
    apply list_elem_of_In, elem_of_map_to_list in Hmem.
    unfold prefix_matches in Hp. apply bool_decide_eq_true in Hp.
    cbn [fst snd] in Hp. destruct Hp as [-> Hp]. fold m in Hp.
    apply Hin. split; [exact Hmem|].
    assert (n <= m)%nat as Hnm.
    { unfold n, m. apply Z2Nat.inj_le; try (apply Z.div_pos; lia).
      apply Z.div_le_mono; lia. }
    rewrite <- (Nat.min_l n m Hnm), <- !firstn_firstn, Hp.
    rewrite firstn_firstn. reflexivity.
Qed.

Lemma git_object_read_prefix_spec_witness :
  exists rows,
    git_object_read_prefix 1 [xff] 1 Example.db_hello
    = Ok (rows, Example.db_hello) /\
    (GitOid.hello_oid,
     {| obj_type := 3; obj_size := 5; obj_content := bs "hello" |}) ∈ rows.
Proof.
  destruct (git_object_read_prefix_spec 1 [xff] 1 Example.db_hello)
    as (rows & Hq & _ & _ & Hall & _); [lia|].
  exists rows. split; [exact Hq|].
  apply Hall; [lia|]. vm_compute. reflexivity.
Defined.

End SqlFunctions.

Section OidOrder.
Import GitOid GitOidOps.

Lemma uchar_inj (x y : byte) : uchar x = uchar y -> x = y.
Proof.
  unfold uchar. intros H. apply N2Z.inj in H.
  apply (f_equal Byte.of_N) in H. rewrite !Byte.of_to_N in H.
  congruence.
Qed.

Lemma memcmp_sym (a b : bytes) (n : nat) : memcmp b a n = - memcmp a b n.
Proof.
  revert a b. induction n as [|n IH]; intros a b; cbn [memcmp];
    [reflexivity|].
  rewrite (Z.eqb_sym (uchar (hd x00 b))).
  destruct (uchar (hd x00 a) =? uchar (hd x00 b)); [apply IH|lia].
Qed.

Lemma memcmp_eq (a b : bytes) (n : nat) :
  length a = n -> length b = n -> (memcmp a b n = 0 <-> a = b).
Proof.
  revert a b. induction n as [|n IH]; intros a b Ha Hb.
  - destruct a, b; try discriminate. tauto.
  - destruct a as [|x a], b as [|y b]; try discriminate.
    cbn [memcmp hd tl].
    destruct (uchar x =? uchar y) eqn:E.
    + apply Z.eqb_eq, uchar_inj in E. subst y.
      rewrite IH by (cbn in Ha, Hb; lia).
      split; [intros ->; reflexivity|intros [= ->]; reflexivity].
    + apply Z.eqb_neq in E. split; [lia|]. intros [= -> _]. contradiction.
Qed.

Lemma memcmp_trans (a b c : bytes) (n : nat) :
  memcmp a b n <= 0 -> memcmp b c n <= 0 ->
  memcmp a c n <= 0 /\
  (memcmp a b n < 0 \/ memcmp b c n < 0 -> memcmp a c n < 0).
Proof.
  revert a b c. induction n as [|n IH]; intros a b c; cbn [memcmp];
    [lia|].
  destruct (uchar (hd x00 a) =? uchar (hd x00 b)) eqn:E1;
    destruct (uchar (hd x00 b) =? uchar (hd x00 c)) eqn:E2;
    destruct (uchar (hd x00 a) =? uchar (hd x00 c)) eqn:E3;
    rewrite ?Z.eqb_eq, ?Z.eqb_neq in *; try lia.
  apply IH.
Qed.

(** The two hex digits [git_oid_out] prints for a byte. *)
Lemma git_oid_out_bytes (oid : GitOid) :
  length oid = 20%nat ->
  git_oid_out oid
  = flat_map
      (fun c => [ nibble_to_hex (Z.shiftr (uchar c) 4);
                  nibble_to_hex (Z.land (schar c) 15) ]) oid.
Proof.
  intros Hlen. unfold git_oid_out.
  transitivity
    (flat_map
       (fun c => [ nibble_to_hex (Z.shiftr (uchar c) 4);
                   nibble_to_hex (Z.land (schar c) 15) ])
       (map (fun i => nth i oid x00) (seq 0 (length oid)))).
  - rewrite Hlen. rewrite !flat_map_concat_map, map_map. reflexivity.
  - rewrite map_nth_seq. reflexivity.
Qed.

Lemma all_bytes (b : byte) :
  In b (map (fun n => default x00 (Byte.of_N (N.of_nat n))) (seq 0 256)).
Proof.
  apply in_map_iff. exists (N.to_nat (Byte.to_N b)). split.
  - rewrite N2Nat.id, Byte.of_to_N. reflexivity.
  - apply in_seq. pose proof (Byte.to_N_bounded b). lia.
Qed.

(** The digits of a smaller byte come first. *)
Lemma hex_digits_order (x y : byte) :
  uchar x < uchar y ->
  let h c := uchar (nibble_to_hex (Z.shiftr (uchar c) 4)) in
  let l c := uchar (nibble_to_hex (Z.land (schar c) 15)) in
  h x < h y \/ (h x = h y /\ l x < l y).
Proof.
  intros Hlt h l.
  assert (forallb
            (fun x =>
               forallb
                 (fun y =>
                    if uchar x <? uchar y
                    then (h x <? h y) || ((h x =? h y) && (l x <? l y))
                    else true)
                 (map (fun n => default x00 (Byte.of_N (N.of_nat n)))
                      (seq 0 256)))
            (map (fun n => default x00 (Byte.of_N (N.of_nat n)))
                 (seq 0 256)) = true) as Hall by (vm_compute; reflexivity).
  rewrite forallb_forall in Hall. specialize (Hall x (all_bytes x)).
  rewrite forallb_forall in Hall. specialize (Hall y (all_bytes y)).
  apply Z.ltb_lt in Hlt. rewrite Hlt in Hall.
  apply orb_true_iff in Hall as [H|H].
  - left. apply Z.ltb_lt, H.
  - right. apply andb_true_iff in H as [H1 H2].
    split; [apply Z.eqb_eq, H1|apply Z.ltb_lt, H2].
Qed.

Lemma bytes_leb_hex (n : nat) (a b : bytes) :
  length a = n -> length b = n ->
  bytes_leb
    (flat_map (fun c => [ nibble_to_hex (Z.shiftr (uchar c) 4);
                          nibble_to_hex (Z.land (schar c) 15) ]) a)
    (flat_map (fun c => [ nibble_to_hex (Z.shiftr (uchar c) 4);
                          nibble_to_hex (Z.land (schar c) 15) ]) b)
  = (memcmp a b n <=? 0).
Proof.
  revert a b. induction n as [|n IH]; intros a b Ha Hb.
  - destruct a, b; try discriminate. reflexivity.
  - destruct a as [|x a], b as [|y b]; try discriminate.
    cbn [flat_map app bytes_leb memcmp hd tl].
    destruct (uchar x =? uchar y) eqn:E.
    + apply Z.eqb_eq, uchar_inj in E. subst y.
      rewrite !Z.ltb_irrefl. apply IH; cbn in Ha, Hb; lia.
    + apply Z.eqb_neq in E.
      destruct (Z.lt_ge_cases (uchar x) (uchar y)) as [Hlt|Hge].
      * assert ((uchar x - uchar y <=? 0) = true) as ->
          by (apply Z.leb_le; lia).
        destruct (hex_digits_order x y Hlt) as [H|[H1 H2]].
        -- apply Z.ltb_lt in H. rewrite H. reflexivity.
        -- rewrite H1, Z.ltb_irrefl. apply Z.ltb_lt in H2. rewrite H2.
           reflexivity.
      * assert ((uchar x - uchar y <=? 0) = false) as ->
          by (apply Z.leb_gt; lia).
        destruct (hex_digits_order y x ltac:(lia)) as [H|[H1 H2]].
        -- assert ((uchar (nibble_to_hex (Z.shiftr (uchar x) 4))
                    <? uchar (nibble_to_hex (Z.shiftr (uchar y) 4))) = false)
             as -> by (apply Z.ltb_ge; lia).
           apply Z.ltb_lt in H. rewrite H. reflexivity.
        -- rewrite H1, Z.ltb_irrefl.
           assert ((uchar (nibble_to_hex (Z.land (schar x) 15))
                    <? uchar (nibble_to_hex (Z.land (schar y) 15))) = false)
             as -> by (apply Z.ltb_ge; lia).
           apply Z.ltb_lt in H2. rewrite H2. reflexivity.
Qed.

(** The comparison operators of the [git_oid] type. On 20-byte OIDs,
    equality is equality of the bytes, and the other operators are those
    of one strict total order: of two different OIDs exactly one is less
    than the other, less-than is transitive, and [<=], [>], [>=] and [<>]
    are what the names say. [git_oid_cmp] is negative, zero or positive
    accordingly (it is the difference of the first two bytes that differ,
    not -1 or 1), and the order is the order of the hex strings
    [git_oid_out] prints. *)
Theorem git_oid_order (a b c : GitOid) :
  length a = 20%nat -> length b = 20%nat -> length c = 20%nat ->
  (git_oid_eq a b = true <-> a = b) /\
  git_oid_ne a b = negb (git_oid_eq a b) /\
  git_oid_le a b = git_oid_lt a b || git_oid_eq a b /\
  git_oid_gt a b = git_oid_lt b a /\
  git_oid_ge a b = git_oid_le b a /\
  (git_oid_lt a b = true \/ a = b \/ git_oid_lt b a = true) /\
  (git_oid_lt a b = true -> git_oid_lt b a = false /\ a <> b) /\
  (git_oid_lt a b = true -> git_oid_lt b c = true ->
   git_oid_lt a c = true) /\
  (git_oid_cmp a b < 0 <-> git_oid_lt a b = true) /\
  (git_oid_cmp a b = 0 <-> a = b) /\
  (0 < git_oid_cmp a b <-> git_oid_lt b a = true) /\
  git_oid_le a b = bytes_leb (git_oid_out a) (git_oid_out b).
Proof.
  intros Ha Hb Hc.
  unfold git_oid_eq, git_oid_ne, git_oid_le, git_oid_lt, git_oid_gt,
    git_oid_ge, git_oid_cmp.
  pose proof (memcmp_sym a b 20) as Hs.
  pose proof (memcmp_eq a b 20 Ha Hb) as He.
  pose proof (memcmp_trans a b c 20) as Ht.
  rewrite (git_oid_out_bytes a Ha), (git_oid_out_bytes b Hb).
  rewrite (bytes_leb_hex 20 a b Ha Hb).
  rewrite Z.gtb_ltb, Z.geb_leb, Hs.
  assert (forall z, (z <=? 0) = (z <? 0) || (z =? 0)) as Hle.
  { intros z. destruct (Z.ltb_spec z 0), (Z.eqb_spec z 0), (Z.leb_spec z 0);
      try reflexivity; lia. }
  assert (forall z, (0 <? z) = (- z <? 0)) as Hneg.
  { intros z. destruct (Z.ltb_spec 0 z), (Z.ltb_spec (- z) 0);
      try reflexivity; lia. }
  assert (forall z, (0 <=? z) = (- z <=? 0)) as Hneg'.
  { intros z. destruct (Z.leb_spec 0 z), (Z.leb_spec (- z) 0);
      try reflexivity; lia. }
  split; [split; intros H; [apply He, Z.eqb_eq, H|apply Z.eqb_eq, He, H]|].
  split; [reflexivity|].
  split; [apply Hle|].
  split; [apply Hneg|].
  split; [apply Hneg'|].
  split.
  { destruct (Z.lt_trichotomy (memcmp a b 20) 0) as [H|[H|H]].
    - left. apply Z.ltb_lt, H.
    - right; left. apply He, H.
    - right; right. apply Z.ltb_lt. lia. }
  split.
  { intros H. apply Z.ltb_lt in H. split; [apply Z.ltb_ge; lia|].
    intros ->.
    assert (memcmp b b 20 = 0)
      by (apply (memcmp_eq b b 20 Hb Hb); reflexivity).
    lia. }
  split.
  { intros H1 H2. apply Z.ltb_lt in H1, H2. apply Z.ltb_lt.
    apply Ht; lia. }
  split; [symmetry; apply Z.ltb_lt|].
  split; [exact He|].
  split; [|reflexivity].
  rewrite Z.ltb_lt. lia.
Qed.

Lemma git_oid_order_witness :
  git_oid_lt Example.oid_aa Example.oid_bb = true /\
  git_oid_cmp Example.oid_aa Example.oid_bb = -17 /\
  git_oid_le Example.oid_aa Example.oid_bb
  = bytes_leb (git_oid_out Example.oid_aa) (git_oid_out Example.oid_bb).
Proof.
  destruct (git_oid_order Example.oid_aa Example.oid_bb Example.oid_cc
              eq_refl eq_refl eq_refl)
    as (_ & _ & _ & _ & _ & _ & _ & _ & H & _ & _ & Hhex).
  split; [apply H; reflexivity|]. split; [reflexivity|exact Hhex].
Defined.

End OidOrder.

Section TreeRoundTrip.
Import TreeParse TreeFormat.

Lemma cstr_no_nul (s : bytes) : x00 ∉ s -> cstr s = s.
Proof.
  intros Hs. unfold cstr.
  assert (strlen s = length s) as ->.
  { induction s as [|c s IH]; [reflexivity|]. cbn [strlen].
    apply not_elem_of_cons in Hs as [Hc Hs].
    destruct (Byte.eqb c x00) eqn:E.
    - apply Byte.byte_dec_bl in E. congruence.
    - cbn [length]. f_equal. apply IH, Hs. }
  apply firstn_all.
Qed.

Lemma cstr_spec (s : bytes) : x00 ∉ cstr s.
Proof.
  unfold cstr. induction s as [|c s IH]; cbn [strlen firstn].
  - apply not_elem_of_nil.
  - destruct (Byte.eqb c x00) eqn:E; cbn [firstn].
    + apply not_elem_of_nil.
    + apply not_elem_of_cons. split; [|exact IH].
      intros <-. rewrite (Byte.byte_dec_lb eq_refl) in E. discriminate.
Qed.

Lemma cstr_subset (s : bytes) (c : byte) : c ∉ s -> c ∉ cstr s.
Proof.
  intros Hs Hin. apply Hs. unfold cstr in Hin.
  apply elem_of_take in Hin as (i & Hi & _).
  apply (list_elem_of_lookup_2 _ _ _ Hi).
Qed.

(** [scan] stops at the first [c]. *)
Lemma scan_spec (c : byte) (l : bytes) (p : Z) :
  exists k,
    scan c l p = p + Z.of_nat k /\ (k <= length l)%nat /\
    (c ∉ firstn k l) /\ (k < length l -> l !! k = Some c)%nat.
Proof.
  revert p. induction l as [|b l IH]; intros p; cbn [scan].
  - exists 0%nat. split; [lia|]. split; [cbn; lia|].
    split; [apply not_elem_of_nil|cbn; lia].
  - destruct (Byte.eqb b c) eqn:E.
    + apply Byte.byte_dec_bl in E. subst b.
      exists 0%nat. split; [lia|]. split; [cbn; lia|].
      split; [apply not_elem_of_nil|reflexivity].
    + destruct (IH (p + 1)) as (k & Hk & Hle & Hnot & Hat).
      exists (S k). split; [lia|]. split; [cbn; lia|].
      split.
      * cbn [firstn]. apply not_elem_of_cons. split; [|exact Hnot].
        intros ->. rewrite (Byte.byte_dec_lb eq_refl) in E. discriminate.
      * cbn [length lookup list_lookup]. intros H. apply Hat. lia.
Qed.

Lemma scan_found (c : byte) (l r : bytes) (p : Z) :
  c ∉ l -> scan c (l ++ c :: r) p = p + Z.of_nat (length l).
Proof.
  revert p. induction l as [|b l IH]; intros p Hl; cbn [scan app length].
  - rewrite (Byte.byte_dec_lb eq_refl). lia.
  - apply not_elem_of_cons in Hl as [Hb Hl].
    destruct (Byte.eqb b c) eqn:E.
    + apply Byte.byte_dec_bl in E. congruence.
    + rewrite IH by exact Hl. lia.
Qed.

Lemma find_from_found (c : byte) (pre l r : bytes) :
  c ∉ l ->
  find_from c (pre ++ l ++ c :: r) (Z.of_nat (length pre))
  = Z.of_nat (length pre) + Z.of_nat (length l).
Proof.
  intros Hl. unfold find_from. rewrite Nat2Z.id.
  rewrite drop_app_length. apply scan_found, Hl.
Qed.

Lemma sub_middle (pre l r : bytes) :
  sub (pre ++ l ++ r) (Z.of_nat (length pre)) (Z.of_nat (length l)) = l.
Proof.
  unfold sub. rewrite !Nat2Z.id, drop_app_length. apply take_app_length.
Qed.

Lemma length_tree_content (entries : list tree_entry) :
  (length entries <= length (tree_content entries))%nat.
Proof.
  unfold tree_content. induction entries as [|e es IH]; [reflexivity|].
  cbn [map concat length]. unfold tree_record at 1.
  rewrite !length_app. cbn [length]. lia.
Qed.

Lemma tree_rows_content (entries : list tree_entry) :
  Forall well_formed entries ->
  forall (pre : bytes) (fuel : nat),
    Z.of_nat (length (pre ++ tree_content entries)) <= MaxAllocSize ->
    (length entries < fuel)%nat ->
    tree_rows fuel {| data := pre ++ tree_content entries;
                      pos := Z.of_nat (length pre) |}
    = Some (Ok entries).
Proof.
  induction 1 as [|e es He Hes IH]; intros pre fuel Hmax Hfuel;
    (destruct fuel as [|fuel]; [cbn in Hfuel; lia|]); cbn [tree_rows].
  - unfold tree_content. cbn [map concat]. rewrite app_nil_r in *.
    unfold tree_next, len. cbn [data pos].
    rewrite to_int_small by (unfold MaxAllocSize, INT_MAX in *; lia).
    rewrite Z.ltb_irrefl. reflexivity.
  - destruct He as (Hsp & Hm0 & Hn0 & Hoid).
    destruct e as [m nm oid]. cbn [mode name entry_oid] in *.
    change (tree_content ({| mode := m; name := nm; entry_oid := oid |}
                          :: es))
      with ((m ++ [x20] ++ nm ++ [x00] ++ oid) ++ tree_content es) in *.
    set (content := pre ++ (m ++ [x20] ++ nm ++ [x00] ++ oid)
                    ++ tree_content es) in *.
    assert (length content
            = (length pre + length m + 1 + length nm + 1 + 20
               + length (tree_content es))%nat) as Hlen.
    { unfold content. rewrite !length_app. cbn [length]. lia. }
    assert (find_from x20 content (Z.of_nat (length pre))
            = Z.of_nat (length pre) + Z.of_nat (length m)) as Hs.
    { unfold content. rewrite <- !app_assoc. cbn [app].
      apply find_from_found, Hsp. }
    assert (find_from x00 content
              (Z.of_nat (length pre) + Z.of_nat (length m) + 1)
            = Z.of_nat (length pre) + Z.of_nat (length m) + 1
              + Z.of_nat (length nm)) as Hz.
    { replace (Z.of_nat (length pre) + Z.of_nat (length m) + 1)
        with (Z.of_nat (length (pre ++ m ++ [x20])))
        by (rewrite !length_app; cbn [length]; lia).
      replace content with ((pre ++ m ++ [x20]) ++ nm ++ x00
                            :: (oid ++ tree_content es)).
      - apply find_from_found, Hn0.
      - unfold content. rewrite <- !app_assoc. cbn [app]. reflexivity. }
    rewrite (tree_next_eq content (Z.of_nat (length pre)) Hmax
               ltac:(rewrite Hlen; lia)).
    rewrite Hs, Hz.
    repeat match goal with
           | |- context [if ?b then _ else _] =>
               let E := fresh "E" in
               destruct b eqn:E;
               [rewrite ?Z.geb_leb, ?Z.gtb_ltb in E;
                first [apply Z.leb_le in E | apply Z.ltb_lt in E]; lia|]
           end.
    assert (sub content (Z.of_nat (length pre))
              (Z.of_nat (length pre) + Z.of_nat (length m)
               - Z.of_nat (length pre)) = m) as ->.
    { replace (Z.of_nat (length pre) + Z.of_nat (length m)
               - Z.of_nat (length pre)) with (Z.of_nat (length m)) by lia.
      unfold content. rewrite <- !app_assoc. apply sub_middle. }
    assert (sub content (Z.of_nat (length pre) + Z.of_nat (length m) + 1)
              (Z.of_nat (length pre) + Z.of_nat (length m) + 1
               + Z.of_nat (length nm)
               - (Z.of_nat (length pre) + Z.of_nat (length m)) - 1) = nm)
      as ->.
    { replace (Z.of_nat (length pre) + Z.of_nat (length m) + 1
               + Z.of_nat (length nm)
               - (Z.of_nat (length pre) + Z.of_nat (length m)) - 1)
        with (Z.of_nat (length nm)) by lia.
      replace (Z.of_nat (length pre) + Z.of_nat (length m) + 1)
        with (Z.of_nat (length (pre ++ m ++ [x20])))
        by (rewrite !length_app; cbn [length]; lia).
      replace content with ((pre ++ m ++ [x20]) ++ nm
                            ++ (x00 :: oid ++ tree_content es)).
      - apply sub_middle.
      - unfold content. rewrite <- !app_assoc. reflexivity. }
    assert (sub content
              (Z.of_nat (length pre) + Z.of_nat (length m) + 1
               + Z.of_nat (length nm) + 1) 20 = oid) as ->.
    { replace (Z.of_nat (length pre) + Z.of_nat (length m) + 1
               + Z.of_nat (length nm) + 1)
        with (Z.of_nat (length (pre ++ m ++ [x20] ++ nm ++ [x00])))
        by (rewrite !length_app; cbn [length]; lia).
      replace 20 with (Z.of_nat (length oid)) by lia.
      replace content with ((pre ++ m ++ [x20] ++ nm ++ [x00]) ++ oid
                            ++ tree_content es).
      - apply sub_middle.
      - unfold content. rewrite <- !app_assoc. reflexivity. }
    rewrite (cstr_no_nul m Hm0), (cstr_no_nul nm Hn0).
    replace (Z.of_nat (length pre) + Z.of_nat (length m) + 1
             + Z.of_nat (length nm) + 21)
      with (Z.of_nat (length (pre ++ m ++ [x20] ++ nm ++ [x00] ++ oid)))
      by (rewrite !length_app; cbn [length]; lia).
    replace content with ((pre ++ m ++ [x20] ++ nm ++ [x00] ++ oid)
                          ++ tree_content es)
      by (unfold content; rewrite <- !app_assoc; reflexivity).
    rewrite IH.
    + reflexivity.
    + replace ((pre ++ m ++ [x20] ++ nm ++ [x00] ++ oid)
               ++ tree_content es) with content
        by (unfold content; rewrite <- !app_assoc; reflexivity).
      exact Hmax.
    + cbn [length] in Hfuel. lia.
Qed.

(** Writing a tree and parsing it. For entries whose mode holds no space
    and no NUL, whose name holds no NUL and whose OID has 20 bytes, the
    parser returns exactly the entries from the content made of their
    records, one after the other; the empty content gives no row. *)
Theorem tree_entries_round_trip (entries : list tree_entry) :
  Forall well_formed entries ->
  Z.of_nat (length (tree_content entries)) <= MaxAllocSize ->
  git_tree_entries_c (tree_content entries) = Some (Ok entries).
Proof.
  intros Hwf Hmax. unfold git_tree_entries_c.
  apply (tree_rows_content entries Hwf []); [exact Hmax|].
  pose proof (length_tree_content entries). lia.
Qed.

Lemma tree_entries_round_trip_witness :
  git_tree_entries_c
    (tree_content
       [ {| mode := bs "100644"; name := bs "hello.txt";
            entry_oid := GitOid.hello_oid |};
         {| mode := bs "40000"; name := bs "src";
            entry_oid := Example.oid_aa |} ])
  = Some (Ok [ {| mode := bs "100644"; name := bs "hello.txt";
                  entry_oid := GitOid.hello_oid |};
               {| mode := bs "40000"; name := bs "src";
                  entry_oid := Example.oid_aa |} ]).
Proof.
  apply tree_entries_round_trip.
  - repeat constructor; cbn [mode name entry_oid];
      try (apply not_elem_of_list_to_set_aux || idtac);
      try (intros Hin; repeat (apply elem_of_cons in Hin as [Hin|Hin];
                               [discriminate|]);
           apply elem_of_nil in Hin; exact Hin).
  - vm_compute. discriminate.
Defined.

Lemma tree_rows_decompose (content : bytes) (fuel : nat) :
  Z.of_nat (length content) <= MaxAllocSize ->
  forall (p : nat) (rows : list tree_entry),
    (p <= length content)%nat ->
    tree_rows fuel {| data := content; pos := Z.of_nat p |} = Some (Ok rows) ->
    Forall well_formed rows /\
    exists raw_modes,
      Forall2 (fun m r => mode r = cstr m /\ (x20 ∉ m)) raw_modes rows /\
      skipn p content
      = concat (zip_with (fun m r => m ++ [x20] ++ name r ++ [x00]
                                     ++ entry_oid r) raw_modes rows).
Proof.
  intros Hmax. induction fuel as [|fuel IH]; intros p rows Hp;
    [discriminate|].
  cbn [tree_rows].
  destruct (decide (p = length content)) as [->|Hne].
  - unfold tree_next, len. cbn [data pos].
    rewrite to_int_small by (unfold MaxAllocSize, INT_MAX in *; lia).
    rewrite Z.ltb_irrefl. intros [= <-].
    split; [constructor|]. exists []. split; [constructor|].
    rewrite skipn_all. reflexivity.
  - rewrite tree_next_eq by lia.
    unfold find_from. rewrite Nat2Z.id.
    destruct (scan_spec x20 (skipn p content) (Z.of_nat p))
      as (k1 & -> & Hk1 & Hno1 & Hat1).
    rewrite length_skipn in Hk1, Hat1.
    destruct (_ >=? _) eqn:E1; [discriminate|].
    rewrite Z.geb_leb in E1. apply Z.leb_gt in E1.
    replace (Z.to_nat (Z.of_nat p + Z.of_nat k1 + 1)) with (S (p + k1))
      by lia.
    destruct (scan_spec x00 (skipn (S (p + k1)) content)
                (Z.of_nat p + Z.of_nat k1 + 1))
      as (k2 & -> & Hk2 & Hno2 & Hat2).
    rewrite length_skipn in Hk2, Hat2.
    destruct (_ >=? _) eqn:E2; [discriminate|].
    rewrite Z.geb_leb in E2. apply Z.leb_gt in E2.
    destruct (_ >? _) eqn:E3; [discriminate|].
    rewrite Z.gtb_ltb in E3. apply Z.ltb_ge in E3.
    replace (Z.of_nat p + Z.of_nat k1 + 1 + Z.of_nat k2 + 21)
      with (Z.of_nat (p + k1 + 1 + k2 + 21)) by lia.
    destruct (tree_rows fuel _) as [[rows'|e]|] eqn:Er; try discriminate.
    intros [= <-].
    destruct (IH (p + k1 + 1 + k2 + 21)%nat rows' ltac:(lia) Er)
      as (Hwf & raws & Hraws & Hrest).
    (* the pieces of the record *)
    set (m := firstn k1 (skipn p content)) in *.
    set (nm := firstn k2 (skipn (S (p + k1)) content)) in *.
    assert (sub content (Z.of_nat p) (Z.of_nat p + Z.of_nat k1 - Z.of_nat p)
            = m) as ->.
    { unfold sub, m. f_equal; [lia|f_equal; lia]. }
    assert (sub content (Z.of_nat p + Z.of_nat k1 + 1)
              (Z.of_nat p + Z.of_nat k1 + 1 + Z.of_nat k2
               - (Z.of_nat p + Z.of_nat k1) - 1) = nm) as ->.
    { unfold sub, nm. f_equal; [lia|f_equal; lia]. }
    set (oid := sub content (Z.of_nat p + Z.of_nat k1 + 1 + Z.of_nat k2 + 1)
                  20).
    assert (oid = firstn 20 (skipn (p + k1 + 1 + k2 + 1) content)) as Hoid.
    { unfold oid, sub. f_equal. f_equal. lia. }
    assert (length oid = 20%nat) as Hlen.
    { rewrite Hoid, length_firstn, length_skipn. lia. }
    assert (skipn p content
            = m ++ [x20] ++ nm ++ [x00] ++ oid
              ++ skipn (p + k1 + 1 + k2 + 21) content) as Hsplit.
    { rewrite <- (take_drop k1 (skipn p content)) at 1. fold m. f_equal.
      rewrite skipn_skipn.
      rewrite (drop_S content x20 (k1 + p)).
      2:{ rewrite <- (Hat1 ltac:(lia)). rewrite lookup_drop.
          f_equal. lia. }
      cbn [app]. f_equal.
      replace (S (k1 + p)) with (S (p + k1)) by lia.
      rewrite <- (take_drop k2 (skipn (S (p + k1)) content)) at 1.
      fold nm. f_equal. rewrite skipn_skipn.
      rewrite (drop_S content x00 (k2 + S (p + k1))).
      2:{ rewrite <- (Hat2 ltac:(lia)). rewrite lookup_drop.
          f_equal. lia. }
      f_equal.
      replace (S (k2 + S (p + k1))) with (p + k1 + 1 + k2 + 1)%nat by lia.
      rewrite <- (take_drop 20 (skipn (p + k1 + 1 + k2 + 1) content)) at 1.
      rewrite <- Hoid. f_equal. rewrite skipn_skipn. f_equal. lia. }
    split.
    + constructor; [|exact Hwf].
      unfold well_formed. cbn [mode name entry_oid].
      split; [apply cstr_subset, Hno1|].
      split; [apply cstr_spec|].
      split; [apply cstr_spec|exact Hlen].
    + exists (m :: raws). split.
      * constructor; [|exact Hraws]. cbn [mode]. split; [reflexivity|].
        exact Hno1.
      * cbn [zip_with concat name entry_oid].
        rewrite (cstr_no_nul nm Hno2), <- Hrest, Hsplit.
        rewrite <- !app_assoc. reflexivity.
Qed.

(** What the parser has read when it succeeds. If it returns rows for a
    content, the content is made of one record per row, in order: the
    bytes of the mode up to the space, the name up to the NUL, the 20
    bytes of the OID, with nothing before, between or after them; the
    row holds the name and the OID as they are, and the mode up to its
    first NUL. So every row has a mode with no space and no NUL, a name
    with no NUL and a 20-byte OID. *)
Theorem tree_entries_decompose (content : bytes) (rows : list tree_entry) :
  Z.of_nat (length content) <= MaxAllocSize ->
  git_tree_entries_c content = Some (Ok rows) ->
  Forall well_formed rows /\
  exists raw_modes,
    Forall2 (fun m r => mode r = cstr m /\ (x20 ∉ m)) raw_modes rows /\
    content
    = concat (zip_with (fun m r => m ++ [x20] ++ name r ++ [x00]
                                   ++ entry_oid r) raw_modes rows).
Proof.
  intros Hmax Hrows. unfold git_tree_entries_c in Hrows.
  apply (tree_rows_decompose content _ Hmax 0 rows ltac:(lia) Hrows).
Qed.

Lemma tree_entries_decompose_witness :
  Forall well_formed
    [ {| mode := bs "100644"; name := bs "hello.txt";
         entry_oid := GitOid.hello_oid |} ]
  /\ exists raw_modes,
      Forall2 (fun m r => mode r = cstr m /\ (x20 ∉ m)) raw_modes
        [ {| mode := bs "100644"; name := bs "hello.txt";
             entry_oid := GitOid.hello_oid |} ]
      /\ bs "100644 hello.txt" ++ [x00] ++ GitOid.hello_oid
         = concat (zip_with (fun m r => m ++ [x20] ++ name r ++ [x00]
                                        ++ entry_oid r) raw_modes
                     [ {| mode := bs "100644"; name := bs "hello.txt";
                          entry_oid := GitOid.hello_oid |} ]).
Proof.
  apply (tree_entries_decompose
           (bs "100644 hello.txt" ++ [x00] ++ GitOid.hello_oid)
           [ {| mode := bs "100644"; name := bs "hello.txt";
                entry_oid := GitOid.hello_oid |} ]).
  - vm_compute. discriminate.
  - vm_compute. reflexivity.
Defined.

End TreeRoundTrip.

Section HelperParsing.
Import HelperParse.

Lemma strlen_not_elem (s : bytes) : x00 ∉ s -> strlen s = length s.
Proof.
  induction s as [|c s IH]; [reflexivity|]. intros Hs. cbn [strlen].
  apply not_elem_of_cons in Hs as [Hc Hs].
  destruct (Byte.eqb c x00) eqn:E.
  - apply Byte.byte_dec_bl in E. congruence.
  - cbn [length]. f_equal. apply IH, Hs.
Qed.

Lemma cstr_app (a b : bytes) : x00 ∉ a -> cstr (a ++ b) = a ++ cstr b.
Proof.
  unfold cstr. induction a as [|c a IH]; [reflexivity|]. intros Ha.
  apply not_elem_of_cons in Ha as [Hc Ha].
  cbn [app strlen].
  destruct (Byte.eqb c x00) eqn:E.
  - apply Byte.byte_dec_bl in E. congruence.
  - cbn [firstn]. f_equal. apply IH, Ha.
Qed.

(** A buffer is its string followed by bytes that hold the empty string. *)
Lemma cstr_split (s : bytes) :
  exists rest, s = cstr s ++ rest /\ cstr rest = [].
Proof.
  unfold cstr. induction s as [|c s (rest & Hs & Hrest)].
  - exists []. split; reflexivity.
  - cbn [strlen]. destruct (Byte.eqb c x00) eqn:E.
    + exists (c :: s). split; [reflexivity|]. cbn [strlen]. rewrite E.
      reflexivity.
    + exists rest. split; [|exact Hrest]. cbn [firstn app]. f_equal.
      exact Hs.
Qed.

Lemma rindex_None (c : byte) (s : bytes) : rindex c s = None <-> c ∉ s.
Proof.
  induction s as [|x s IH]; cbn [rindex].
  - split; [intros _; apply not_elem_of_nil|reflexivity].
  - rewrite not_elem_of_cons. destruct (rindex c s) as [i|].
    + split; [discriminate|]. intros [_ H]. apply IH in H. discriminate.
    + destruct (Byte.eqb x c) eqn:E.
      * apply Byte.byte_dec_bl in E. split; [discriminate|].
        intros [H _]. congruence.
      * split; [|reflexivity]. intros _. split; [|apply IH; reflexivity].
        intros <-. rewrite (Byte.byte_dec_lb eq_refl) in E. discriminate.
Qed.

Lemma rindex_last (c : byte) (pre post : bytes) :
  c ∉ post -> rindex c (pre ++ c :: post) = Some (length pre).
Proof.
  intros Hpost. induction pre as [|x pre IH]; cbn [app rindex length].
  - apply rindex_None in Hpost. rewrite Hpost.
    rewrite (Byte.byte_dec_lb eq_refl). reflexivity.
  - rewrite IH. reflexivity.
Qed.

Lemma rindex_Some (c : byte) (s : bytes) (i : nat) :
  rindex c s = Some i ->
  exists pre post, s = pre ++ c :: post /\ length pre = i /\ c ∉ post.
Proof.
  revert i. induction s as [|x s IH]; intros i; cbn [rindex];
    [discriminate|].
  destruct (rindex c s) as [j|] eqn:Ej.
  - intros [= <-]. destruct (IH j eq_refl) as (pre & post & -> & <- & Hp).
    exists (x :: pre), post. repeat split; [exact Hp].
  - destruct (Byte.eqb x c) eqn:E; [|discriminate]. intros [= <-].
    apply Byte.byte_dec_bl in E. subst x.
    exists [], s. repeat split. apply rindex_None, Ej.
Qed.

Lemma index_None (c : byte) (s : bytes) : index c s = None <-> c ∉ s.
Proof.
  induction s as [|x s IH]; cbn [index].
  - split; [intros _; apply not_elem_of_nil|reflexivity].
  - rewrite not_elem_of_cons. destruct (Byte.eqb x c) eqn:E.
    + apply Byte.byte_dec_bl in E. split; [discriminate|].
      intros [H _]. congruence.
    + assert (c <> x) as Hne.
      { intros <-. rewrite (Byte.byte_dec_lb eq_refl) in E.
        discriminate. }
      destruct (index c s) as [i|].
      * split; [discriminate|]. intros [_ H]. apply IH in H. discriminate.
      * split; [|reflexivity]. intros _. split; [exact Hne|].
        apply IH. reflexivity.
Qed.

Lemma index_first (c : byte) (pre post : bytes) :
  c ∉ pre -> index c (pre ++ c :: post) = Some (length pre).
Proof.
  induction pre as [|x pre IH]; intros Hpre; cbn [app index length].
  - rewrite (Byte.byte_dec_lb eq_refl). reflexivity.
  - apply not_elem_of_cons in Hpre as [Hx Hpre].
    destruct (Byte.eqb x c) eqn:E.
    + apply Byte.byte_dec_bl in E. congruence.
    + rewrite (IH Hpre). reflexivity.
Qed.

Lemma index_Some (c : byte) (s : bytes) (i : nat) :
  index c s = Some i ->
  exists pre post, s = pre ++ c :: post /\ length pre = i /\ c ∉ pre.
Proof.
  revert i. induction s as [|x s IH]; intros i; cbn [index];
    [discriminate|].
  destruct (Byte.eqb x c) eqn:E.
  - intros [= <-]. apply Byte.byte_dec_bl in E. subst x.
    exists [], s. repeat split. apply not_elem_of_nil.
  - destruct (index c s) as [j|]; [|discriminate]. intros [= <-].
    destruct (IH j eq_refl) as (pre & post & -> & <- & Hp).
    exists (x :: pre), post. repeat split.
    apply not_elem_of_cons. split; [|exact Hp].
    intros <-. rewrite (Byte.byte_dec_lb eq_refl) in E. discriminate.
Qed.

Lemma parse_url_eq (url pre post : bytes) :
  cstr url = pre ++ x2f :: post -> x2f ∉ post ->
  parse_url url
  = match pre, post with
    | _ :: _, _ :: _ => Some (pre, post)
    | _, _ => None
    end.
Proof.
  intros Hurl Hpost. unfold parse_url, strrchr.
  rewrite Hurl, (rindex_last _ _ _ Hpost).
  destruct (cstr_split url) as (rest & Hsplit & Hrest).
  rewrite Hurl in Hsplit.
  assert (x00 ∉ post) as Hnul.
  { intros Hin. apply (cstr_spec url). rewrite Hurl.
    apply elem_of_app. right. apply elem_of_cons. right. exact Hin. }
  destruct pre as [|x pre]; [reflexivity|].
  cbn [length].
  assert (firstn (S (length pre)) url = x :: pre) as ->.
  { rewrite Hsplit. change (S (length pre)) with (length (x :: pre)).
    rewrite <- app_assoc. apply take_app_length. }
  assert (skipn (S (S (length pre))) url = post ++ rest) as ->.
  { rewrite Hsplit.
    change ((x :: pre) ++ x2f :: post) with ((x :: pre) ++ [x2f] ++ post).
    rewrite !app_assoc, <- app_assoc.
    replace (S (S (length pre))) with (length ((x :: pre) ++ [x2f]))
      by (rewrite length_app; cbn [length]; lia).
    apply drop_app_length. }
  rewrite (cstr_app _ _ Hnul), Hrest, app_nil_r, (strlen_not_elem _ Hnul).
  destruct post; reflexivity.
Qed.

(** [parse_url] splits the URL at its last slash. It returns a connection
    string and a repository name exactly when the URL is the first, a
    slash and the second, both not empty and no slash in the name; so a
    connection string may hold slashes itself. In every other case (no
    slash, a slash only in front, a slash at the end) the helper dies. *)
Theorem parse_url_spec (url conninfo reponame : bytes) :
  parse_url url = Some (conninfo, reponame)
  <-> cstr url = conninfo ++ [x2f] ++ reponame
      /\ conninfo <> [] /\ reponame <> [] /\ (x2f ∉ reponame).
Proof.
  split.
  - intros H.
    destruct (strrchr url x2f) as [i|] eqn:Ei.
    2:{ unfold parse_url in H. rewrite Ei in H. discriminate. }
    destruct (rindex_Some _ _ _ Ei) as (pre & post & Hurl & _ & Hpost).
    rewrite (parse_url_eq url pre post Hurl Hpost) in H.
    destruct pre as [|x pre]; [discriminate|].
    destruct post as [|y post]; [discriminate|].
    injection H as <- <-. repeat split; try discriminate; assumption.
  - intros (Hurl & Hci & Hrn & Hno).
    rewrite (parse_url_eq url conninfo reponame Hurl Hno).
    destruct conninfo; [congruence|]. destruct reponame; [congruence|].
    reflexivity.
Qed.

Lemma firstn_cstr (s : bytes) (n : nat) :
  (n <= strlen s)%nat -> firstn n s = firstn n (cstr s).
Proof.
  intros Hn. unfold cstr. rewrite take_take. f_equal. lia.
Qed.

Lemma length_cstr (s : bytes) : length (cstr s) = strlen s.
Proof.
  unfold cstr. induction s as [|c s IH]; [reflexivity|]. cbn [strlen].
  destruct (Byte.eqb c x00); [reflexivity|]. cbn [firstn length].
  f_equal. exact IH.
Qed.

(** The push line [[+]src:dst] gives back its parts: the source, the
    destination and whether the plus sign was there, for a source and a
    destination of at most 511 bytes with no NUL, and a source that holds
    no colon and, without the plus sign, does not begin with one. *)
Theorem parse_push_spec_round_trip (s d : bytes) (plus : bool) :
  (x00 ∉ s) -> (x3a ∉ s) -> (x00 ∉ d) ->
  (length s <= 511)%nat -> (length d <= 511)%nat ->
  (plus = false -> hd x00 s <> x2b) ->
  parse_push_spec ((if plus then [x2b] else []) ++ s ++ [x3a] ++ d)
  = {| src := s; dst := d; force := if plus then 1 else 0 |}.
Proof.
  intros Hs0 Hsc Hd0 Hls Hld Hplus. unfold parse_push_spec.
  set (p := s ++ [x3a] ++ d).
  assert (Byte.eqb (hd x00 ((if plus then [x2b] else []) ++ p)) x2b = plus)
    as ->.
  { destruct plus; [reflexivity|]. cbn [app].
    destruct (Byte.eqb (hd x00 p) x2b) eqn:E; [|reflexivity].
    apply Byte.byte_dec_bl in E. exfalso. apply (Hplus eq_refl).
    unfold p in E. destruct s; [discriminate E|exact E]. }
  assert ((if plus then tl ((if plus then [x2b] else []) ++ p)
           else (if plus then [x2b] else []) ++ p) = p) as ->
    by (destruct plus; reflexivity).
  assert (cstr p = p) as Hp.
  { apply cstr_no_nul. unfold p. rewrite !not_elem_of_app.
    repeat split; try assumption.
    apply not_elem_of_cons. split; [discriminate|apply not_elem_of_nil]. }
  unfold strchr. rewrite Hp. unfold p at 1. cbn [app].
  rewrite (index_first _ _ _ Hsc).
  destruct (512 <=? length s)%nat eqn:E;
    [apply Nat.leb_le in E; lia|].
  f_equal.
  - unfold p. apply take_app_length.
  - unfold strncpy_511, p.
    change (s ++ [x3a] ++ d) with (s ++ x3a :: d).
    replace (s ++ x3a :: d) with ((s ++ [x3a]) ++ d)
      by (rewrite <- app_assoc; reflexivity).
    replace (S (length s)) with (length (s ++ [x3a]))
      by (rewrite length_app; cbn [length]; lia).
    rewrite drop_app_length.
    rewrite (cstr_no_nul _ Hd0). apply firstn_all2. exact Hld.
Qed.

Lemma parse_push_spec_round_trip_witness :
  parse_push_spec (bs "+refs/heads/main:refs/heads/release")
  = {| src := bs "refs/heads/main"; dst := bs "refs/heads/release";
       force := 1 |}.
Proof.
  apply (parse_push_spec_round_trip
           (bs "refs/heads/main") (bs "refs/heads/release") true);
    try (vm_compute; lia); try discriminate;
    apply (bool_decide_eq_false_1 _); vm_compute; reflexivity.
Defined.

(** Whatever the line, the two strings [parse_push_spec] stores fit their
    arrays of 512 bytes: each has at most 511 bytes before its
    terminator. The source holds no colon; it is empty when the line has
    no colon at all, and the whole line (without the plus sign) is then
    the destination. *)
Theorem parse_push_spec_bounds (raw : bytes) :
  (length (src (parse_push_spec raw)) <= 511)%nat
  /\ (length (dst (parse_push_spec raw)) <= 511)%nat
  /\ (x00 ∉ src (parse_push_spec raw))
  /\ (x00 ∉ dst (parse_push_spec raw))
  /\ (x3a ∉ src (parse_push_spec raw))
  /\ ((x3a ∉ cstr raw) ->
      src (parse_push_spec raw) = []
      /\ dst (parse_push_spec raw)
         = firstn 511 (cstr (if Byte.eqb (hd x00 raw) x2b
                             then tl raw else raw))).
Proof.
  unfold parse_push_spec.
  set (p := if Byte.eqb (hd x00 raw) x2b then tl raw else raw).
  assert (forall t, (length (strncpy_511 t) <= 511)%nat) as Hlen.
  { intros t. unfold strncpy_511. rewrite length_firstn. lia. }
  assert (forall t, x00 ∉ strncpy_511 t) as Hnul.
  { intros t Hin. apply (cstr_spec t). unfold strncpy_511 in Hin.
    apply elem_of_take in Hin as (i & Hi & _).
    apply (list_elem_of_lookup_2 _ _ _ Hi). }
  assert ((x3a ∉ cstr raw) -> x3a ∉ cstr p) as Hraw.
  { intros Hc. unfold p. destruct raw as [|x raw]; [exact Hc|].
    cbn [hd tl]. destruct (Byte.eqb x x2b) eqn:E; [|exact Hc].
    apply Byte.byte_dec_bl in E. subst x.
    change (x2b :: raw) with ([x2b] ++ raw) in Hc.
    rewrite cstr_app in Hc.
    - intros Hin. apply Hc. apply elem_of_app. right. exact Hin.
    - apply not_elem_of_cons. split; [discriminate|apply not_elem_of_nil]. }
  unfold strchr. destruct (index x3a (cstr p)) as [i|] eqn:Ei.
  - cbn [src dst].
    destruct (index_Some _ _ _ Ei) as (pre & post & Hp & Hi & Hpre).
    assert (firstn i p = pre) as Hfirst.
    { rewrite firstn_cstr by (rewrite <- length_cstr, Hp, length_app; lia).
      rewrite Hp, <- Hi. apply take_app_length. }
    assert (forall n, (n <= i)%nat -> firstn n p = firstn n pre) as Hsub.
    { intros n Hn. rewrite <- Hfirst, take_take. f_equal. lia. }
    assert (x00 ∉ pre) as Hpre0.
    { intros Hin. apply (cstr_spec p). rewrite Hp. apply elem_of_app.
      left. exact Hin. }
    assert ((if (512 <=? i)%nat then 511 else i) <= i)%nat as Hn
      by (destruct (512 <=? i)%nat eqn:E; [apply Nat.leb_le in E|]; lia).
    rewrite (Hsub _ Hn).
    split; [|split; [apply Hlen|split; [|split; [apply Hnul|split]]]].
    + rewrite length_firstn. destruct (512 <=? i)%nat eqn:E;
        [|apply Nat.leb_gt in E]; lia.
    + intros Hin. apply Hpre0. apply elem_of_take in Hin as (j & Hj & _).
      apply (list_elem_of_lookup_2 _ _ _ Hj).
    + intros Hin. apply Hpre. apply elem_of_take in Hin as (j & Hj & _).
      apply (list_elem_of_lookup_2 _ _ _ Hj).
    + intros H. apply Hraw, index_None in H. congruence.
  - cbn [src dst].
    split; [cbn [length]; lia|].
    split; [apply Hlen|]. split; [apply not_elem_of_nil|].
    split; [apply Hnul|]. split; [apply not_elem_of_nil|].
    intros _. split; reflexivity.
Qed.

End HelperParsing.

Section PushRefs.
Import Pg Refdb Helper HelperParse HelperPush.

Variable resolve : bytes -> option bytes.
Variable PQerrorMessage : pg_error -> bytes.

(** The refs after [Ensure HEAD exists] on a connection that works. *)
Lemma ensure_head_reliable (repo : Z) (first : push_spec)
    (specs : list push_spec) (c : PGconn) :
  reliable c = true -> txn c = Idle ->
  is_Some (repositories (stored c) !! repo) ->
  txn (ensure_head repo (first :: specs) c) = Idle /\
  refs (stored (ensure_head repo (first :: specs) c))
  = match refs (stored c) !! (repo, bs "HEAD") with
    | Some _ => refs (stored c)
    | None =>
        <[(repo, bs "HEAD") :=
            {| ref_oid := None; ref_symbolic := Some (dst first) |}]>
          (refs (stored c))
    end.
Proof.
  intros Hr Ht [nm Hrepo]. unfold ensure_head.
  destruct (PQexecParams_idle c (stored c) (count_ref repo (bs "HEAD"))
              (match refs (stored c) !! (repo, bs "HEAD") with
               | Some _ => 1 | None => 0 end) Hr Ht eq_refl)
    as (c1 & -> & Hr1 & Ht1 & Hs1).
  destruct (refs (stored c) !! (repo, bs "HEAD")) as [row|] eqn:Ehead.
  - rewrite Ht1, Hs1. split; reflexivity.
  - destruct (PQexecParams_idle c1
                (set_refs (stored c1)
                   (<[(repo, bs "HEAD") :=
                        {| ref_oid := None;
                           ref_symbolic := Some (dst first) |}]>
                      (refs (stored c1))))
                (insert_ref_if_absent repo (bs "HEAD")
                   {| ref_oid := None; ref_symbolic := Some (dst first) |})
                tt Hr1 Ht1) as (c2 & -> & Hr2 & Ht2 & Hs2).
    { unfold insert_ref_if_absent. rewrite Hs1, Ehead, Hrepo.
      reflexivity. }
    cbn [snd]. rewrite Ht2, Hs2, Hs1. split; reflexivity.
Qed.

(** A statement outside a transaction: it succeeds and stores what it
    leaves, or fails and stores nothing; no transaction is open after. *)
Lemma PQexecParams_idle_cases {R} (c : PGconn) (stmt : statement R) :
  txn c = Idle ->
  txn (PQexecParams c stmt).2 = Idle /\
  ((exists r, (PQexecParams c stmt).1 = Ok r
              /\ stmt (stored c) = Ok (r, stored (PQexecParams c stmt).2))
   \/ ((exists e, (PQexecParams c stmt).1 = Error e)
       /\ stored (PQexecParams c stmt).2 = stored c)).
Proof.
  intros Ht. unfold PQexecParams. destruct (next_fault c) as [fault rest].
  rewrite Ht. destruct fault.
  - split; [reflexivity|]. right. split; [eauto|reflexivity].
  - destruct (stmt (stored c)) as [[r db']|e].
    + split; [reflexivity|]. left. exists r. split; reflexivity.
    + split; [reflexivity|]. right. split; [eauto|reflexivity].
Qed.

(** [Ensure HEAD exists] touches no ref but [HEAD]. *)
Lemma ensure_head_other (repo : Z) (specs : list push_spec) (c : PGconn)
    (key : Z * bytes) :
  txn c = Idle -> key <> (repo, bs "HEAD") ->
  refs (stored (ensure_head repo specs c)) !! key = refs (stored c) !! key.
Proof.
  intros Ht Hkey. unfold ensure_head.
  destruct (PQexecParams_idle_cases c (count_ref repo (bs "HEAD")) Ht)
    as [Ht1 H1].
  destruct (PQexecParams c (count_ref repo (bs "HEAD"))) as [res c1].
  cbn [fst snd] in Ht1, H1.
  assert (stored c1 = stored c) as Hs1.
  { destruct H1 as [(r & _ & H)|[_ H]]; [|exact H].
    unfold count_ref in H. congruence. }
  destruct res as [[| |]|]; try (rewrite Hs1; reflexivity).
  destruct specs as [|first specs]; [rewrite Hs1; reflexivity|].
  destruct (PQexecParams_idle_cases c1
              (insert_ref_if_absent repo (bs "HEAD")
                 {| ref_oid := None; ref_symbolic := Some (dst first) |})
              Ht1) as [_ [(r & _ & H)|[_ H]]];
    destruct (PQexecParams c1 _) as [res2 c2]; cbn [fst snd] in *.
  - rewrite <- Hs1. revert H. unfold insert_ref_if_absent.
    destruct (refs (stored c1) !! (repo, bs "HEAD"));
      [intros [= _ <-]; reflexivity|].
    destruct (negb _); [discriminate|].
    destruct (repositories (stored c1) !! repo); [|discriminate].
    intros [= _ <-]. cbn [set_refs refs]. apply lookup_insert_ne.
    congruence.
  - rewrite H, Hs1. reflexivity.
Qed.

(** A push never compares. On a connection that works, pushing a source
    the local repository resolves to [oid] prints [ok dst] and leaves
    [dst] a direct ref to [oid], whatever [dst] was before (absent, a
    direct ref to any other OID, a symbolic ref) and with or without the
    plus sign of a forced push; no other ref changes, but a missing [HEAD]
    is created as a symbolic ref to [dst]. *)
Theorem cmd_push_refs_update (repo : Z) (spec : push_spec) (oid : bytes)
    (c : PGconn) :
  reliable c = true -> txn c = Idle ->
  is_Some (repositories (stored c) !! repo) ->
  strlen (src spec) <> 0%nat ->
  resolve (src spec) = Some oid ->
  exists c',
    cmd_push_refs resolve PQerrorMessage repo [spec] c
    = (bs "ok " ++ dst spec ++ LF ++ LF, c')
    /\ txn c' = Idle
    /\ refs (stored c')
       = let pushed :=
           <[(repo, dst spec) :=
               {| ref_oid := Some oid; ref_symbolic := None |}]>
             (refs (stored c)) in
         match pushed !! (repo, bs "HEAD") with
         | Some _ => pushed
         | None =>
             <[(repo, bs "HEAD") :=
                 {| ref_oid := None; ref_symbolic := Some (dst spec) |}]>
               pushed
         end.
Proof.
  intros Hr Ht Hrepo Hsrc Hres.
  unfold cmd_push_refs. cbn [fold_left]. unfold push_ref.
  destruct (strlen (src spec) =? 0)%nat eqn:E;
    [apply Nat.eqb_eq in E; contradiction|].
  rewrite Hres.
  destruct (PQexecParams_idle c
              (set_refs (stored c)
                 (<[(repo, dst spec) :=
                      {| ref_oid := Some oid; ref_symbolic := None |}]>
                    (refs (stored c))))
              (upsert_ref repo (dst spec)
                 {| ref_oid := Some oid; ref_symbolic := None |})
              tt Hr Ht) as (c1 & -> & Hr1 & Ht1 & Hs1).
  { unfold upsert_ref. cbn [negb refs_check ref_oid ref_symbolic].
    assert (refs_check {| ref_oid := Some oid; ref_symbolic := None |}
            = true) as Hck by reflexivity.
    destruct Hrepo as [nm ->].
    destruct (refs (stored c) !! (repo, dst spec)); reflexivity. }
  assert (is_Some (repositories (stored c1) !! repo)) as Hrepo1
    by (rewrite Hs1; exact Hrepo).
  destruct (ensure_head_reliable repo spec [] c1 Hr1 Ht1 Hrepo1)
    as [Ht2 Hrefs].
  eexists. split; [|split; [exact Ht2|]].
  - rewrite <- !app_assoc. reflexivity.
  - rewrite Hrefs, Hs1. reflexivity.
Qed.

(** Deleting by push. On a connection that works, a spec with an empty
    source prints [ok dst] and removes [dst]; and when the repository has
    no [HEAD] after that, [HEAD] is created as a symbolic ref to the very
    [dst] that was deleted. *)
Theorem cmd_push_refs_delete (repo : Z) (spec : push_spec) (c : PGconn) :
  reliable c = true -> txn c = Idle ->
  is_Some (repositories (stored c) !! repo) ->
  strlen (src spec) = 0%nat ->
  exists c',
    cmd_push_refs resolve PQerrorMessage repo [spec] c
    = (bs "ok " ++ dst spec ++ LF ++ LF, c')
    /\ txn c' = Idle
    /\ refs (stored c')
       = let left := delete (repo, dst spec) (refs (stored c)) in
         match left !! (repo, bs "HEAD") with
         | Some _ => left
         | None =>
             <[(repo, bs "HEAD") :=
                 {| ref_oid := None; ref_symbolic := Some (dst spec) |}]>
               left
         end.
Proof.
  intros Hr Ht Hrepo Hsrc.
  unfold cmd_push_refs. cbn [fold_left]. unfold push_ref.
  rewrite Hsrc. cbn [Nat.eqb].
  assert (exists n,
            delete_ref repo (dst spec) (stored c)
            = Ok (n, set_refs (stored c)
                       (delete (repo, dst spec) (refs (stored c)))))
    as [n Hdel].
  { unfold delete_ref.
    destruct (refs (stored c) !! (repo, dst spec)) eqn:E; [eauto|].
    exists 0. rewrite (delete_id _ _ E).
    destruct (stored c); reflexivity. }
  destruct (PQexecParams_idle c _ (delete_ref repo (dst spec)) n Hr Ht Hdel)
    as (c1 & -> & Hr1 & Ht1 & Hs1).
  assert (is_Some (repositories (stored c1) !! repo)) as Hrepo1
    by (rewrite Hs1; exact Hrepo).
  destruct (ensure_head_reliable repo spec [] c1 Hr1 Ht1 Hrepo1)
    as [Ht2 Hrefs].
  eexists. split; [|split; [exact Ht2|]].
  - rewrite <- !app_assoc. reflexivity.
  - rewrite Hrefs, Hs1. reflexivity.
Qed.

(** A deletion that fails is reported as done. When the server fails the
    [DELETE] of a spec with an empty source, the helper still prints
    [ok dst], and [dst] is stored as before. *)
Theorem cmd_push_refs_delete_hides_failure (repo : Z) (spec : push_spec)
    (c : PGconn) (rest : list bool) :
  txn c = Idle -> faults c = true :: rest ->
  strlen (src spec) = 0%nat -> dst spec <> bs "HEAD" ->
  (cmd_push_refs resolve PQerrorMessage repo [spec] c).1
  = bs "ok " ++ dst spec ++ LF ++ LF
  /\ refs (stored (cmd_push_refs resolve PQerrorMessage repo [spec] c).2)
       !! (repo, dst spec)
     = refs (stored c) !! (repo, dst spec).
Proof.
  intros Ht Hf Hsrc Hdst.
  unfold cmd_push_refs. cbn [fold_left]. unfold push_ref.
  rewrite Hsrc. cbn [Nat.eqb].
  assert (PQexecParams c (delete_ref repo (dst spec))
          = (Error connection_failure,
             {| stored := stored c; txn := Idle; faults := rest |})) as ->.
  { unfold PQexecParams, next_fault. rewrite Hf, Ht. reflexivity. }
  cbn [fst snd]. split; [rewrite <- !app_assoc; reflexivity|].
  rewrite ensure_head_other; [reflexivity|reflexivity|congruence].
Qed.

End PushRefs.

Lemma cmd_push_refs_update_witness :
  exists c',
    HelperPush.cmd_push_refs (fun _ => Some GitOid.hello_oid) (fun _ => []) 1
      [HelperParse.parse_push_spec (bs "refs/heads/main:refs/heads/main")]
      Example.conn_ok
    = (bs "ok refs/heads/main" ++ Helper.LF ++ Helper.LF, c')
    /\ Pg.refs (Pg.stored c') !! (1, bs "HEAD")
       = Some {| Pg.ref_oid := None;
                 Pg.ref_symbolic := Some (bs "refs/heads/main") |}.
Proof.
  destruct (cmd_push_refs_update
              (fun _ => Some GitOid.hello_oid) (fun _ => []) 1
              (HelperParse.parse_push_spec
                 (bs "refs/heads/main:refs/heads/main"))
              GitOid.hello_oid Example.conn_ok)
    as (c' & Hout & _ & Hrefs);
    [reflexivity|reflexivity|vm_compute; eauto|vm_compute; lia| | ].
  - exact eq_refl.
  - exists c'. split; [exact Hout|]. rewrite Hrefs. vm_compute.
    reflexivity.
Defined.

Lemma cmd_push_refs_delete_witness :
  exists c',
    HelperPush.cmd_push_refs (fun _ => None) (fun _ => []) 1
      [HelperParse.parse_push_spec (bs ":refs/heads/main")]
      Example.conn_ok
    = (bs "ok refs/heads/main" ++ Helper.LF ++ Helper.LF, c')
    /\ Pg.refs (Pg.stored c') !! (1, bs "HEAD")
       = Some {| Pg.ref_oid := None;
                 Pg.ref_symbolic := Some (bs "refs/heads/main") |}.
Proof.
  destruct (cmd_push_refs_delete (fun _ => None) (fun _ => []) 1
              (HelperParse.parse_push_spec (bs ":refs/heads/main"))
              Example.conn_ok)
    as (c' & Hout & _ & Hrefs);
    [reflexivity|reflexivity|vm_compute; eauto|reflexivity|].
  exists c'. split; [exact Hout|]. rewrite Hrefs. vm_compute.
  reflexivity.
Defined.

Lemma cmd_push_refs_delete_hides_failure_witness :
  (HelperPush.cmd_push_refs (fun _ => None) (fun _ => []) 1
     [HelperParse.parse_push_spec (bs ":refs/heads/main")]
     {| Pg.stored := Example.db_refs; Pg.txn := Pg.Idle;
        Pg.faults := [true] |}).1
  = bs "ok refs/heads/main" ++ Helper.LF ++ Helper.LF
  /\ Pg.refs
       (Pg.stored
          (HelperPush.cmd_push_refs (fun _ => None) (fun _ => []) 1
             [HelperParse.parse_push_spec (bs ":refs/heads/main")]
             {| Pg.stored := Example.db_refs; Pg.txn := Pg.Idle;
                Pg.faults := [true] |}).2)
       !! (1, bs "refs/heads/main")
     = Some {| Pg.ref_oid := Some Example.oid_aa;
               Pg.ref_symbolic := None |}.
Proof.
  destruct (cmd_push_refs_delete_hides_failure
              (fun _ => None) (fun _ => []) 1
              (HelperParse.parse_push_spec (bs ":refs/heads/main"))
              {| Pg.stored := Example.db_refs; Pg.txn := Pg.Idle;
                 Pg.faults := [true] |} [])
    as [Hout Hrefs];
    [reflexivity|reflexivity|reflexivity|vm_compute; discriminate|].
  split; [exact Hout|]. exact (eq_trans Hrefs eq_refl).
Defined.
